(** * gps_operation_tool: the bulk collection engine and its result cache

    A shallow embedding of the two classes of the repository that carry
    the collection logic:

    - [TwitterServiceV2]: the request throttle ([throttleRequest]) and
      its report ([getQuotaStatus]), the retry wrapper
      ([retryWithIntelligentBackoff]), the user lookup
      ([getUserByUsername]), the paginated collector
      ([maximizeUserTweetCollection]) and the two methods built on it
      ([getComprehensiveUserAnalysis], [searchUserMediaTweets]);
    - [MaximizedTwitterCache]: the session-storage cache ([setAccountData],
      [getAllData], [getAccountData], [clear]), its cleanup
      ([performIntelligentCleanup], [calculateAccountCacheScore]) and its
      other readers ([isValid], [getAllTweets], [getTweetsByUsername],
      [hasRecentAccountData], [getCacheStats]).

    Conventions.  Timestamps are milliseconds since the epoch, in [Z].
    Array lengths and loop counters are [nat].  [async]/[await] code runs
    one call at a time, so it is written in a state-and-exception monad
    over the fields of the service object, the clock, the number of
    upstream calls made so far and the log of the [sleep] durations.
    The scores of the cleanup are JavaScript numbers, computed in
    binary64 ([Binary64]).  The accounts object is the list of its own
    properties in property order, read through the names it inherits
    from [Object.prototype]. *)

From Stdlib Require Import ZArith QArith Qround Qminmax List String Ascii Bool Lia Arith.
From Stdlib Require Import Permutation Sorted DecimalString Lqa.
From Stdlib Require SpecFloat.
Import ListNotations.

Local Open Scope string_scope.
Local Open Scope Z_scope.

(** Decimal rendering of a counter inside a template literal. *)
Definition show_nat (n : nat) : string :=
  NilEmpty.string_of_uint (Nat.to_uint n).

(** [s.includes(sub)] *)
Fixpoint includes (sub s : string) : bool :=
  match s with
  | EmptyString => match sub with EmptyString => true | _ => false end
  | String _ s' => String.prefix sub s || includes sub s'
  end.

(** [Array.prototype.sort(cmp)]: the sort is stable, and for a comparator
    that is a total preorder every stable sort returns the same array, so
    it is written here as an insertion sort.  [cmp a b <= 0] keeps [a]
    before [b]. *)
Section JsSort.
Context {A : Type}.
Variable cmp : A -> A -> Q.

Fixpoint sort_insert (x : A) (l : list A) : list A :=
  match l with
  | [] => [x]
  | y :: ys => if Qle_bool (cmp x y) 0 then x :: y :: ys
               else y :: sort_insert x ys
  end.

Fixpoint js_sort (l : list A) : list A :=
  match l with
  | [] => []
  | x :: xs => sort_insert x (js_sort xs)
  end.

(** [x] may stand before [y]. *)
Definition precedes (x y : A) : Prop := (cmp x y <= 0)%Q.
End JsSort.

Module TwitterServiceV2.

(** ** Errors and outcomes *)

(** What the client library throws: an object with an optional numeric
    [code] (the HTTP status) and a [message]. *)
Record ApiError := mkError { code : option Z; message : string }.

(** A thrown JavaScript value: an error object, or [undefined] (what
    [throw lastError] throws when no attempt was ever made). *)
Inductive Thrown :=
| Undefined
| Error (e : ApiError).

Inductive Outcome (A : Type) :=
| Val (a : A)
| Exn (t : Thrown).
Arguments Val {A} a.
Arguments Exn {A} t.

(** [error.code === n] *)
Definition code_is (e : ApiError) (n : Z) : bool :=
  match code e with
  | Some c => c =? n
  | None => false
  end.

(** The error classes of the retry policy: fatal codes are never
    retried, 429 is the upstream rate limit, anything else is transient. *)
Definition fatal_code (e : ApiError) : bool :=
  code_is e 401 || code_is e 403 || code_is e 404.

Definition transient (e : ApiError) : bool :=
  negb (code_is e 429) && negb (fatal_code e).

(** What the retry policy's description asks of the error raised once
    the attempts are used up: that it tell the number of attempts and the
    name of the operation. *)
Definition annotated (attempts : nat) (operationName : string) (e : ApiError) : bool :=
  includes (show_nat attempts) (message e) && includes operationName (message e).

(** ** The service object and its world *)

(** The clock moves when the service sleeps; the time a request spends
    on the network is not modelled. *)
Record World := mkWorld {
  clock : Z;                    (* what Date.now() returns *)
  requestCount : Z;             (* this.requestCount *)
  windowStartTime : Z;          (* this.windowStartTime *)
  calls : nat;                  (* upstream invocations made so far *)
  sleeps : list Z;              (* arguments of this.sleep, oldest first *)
  console_error : list string   (* lines written with console.error *)
}.

(** A freshly constructed service at time [t0]. *)
Definition new_service (t0 : Z) : World :=
  mkWorld t0 0 0 0 [] [].

Definition M (A : Type) : Type := World -> Outcome A * World.

Definition ret {A} (a : A) : M A := fun w => (Val a, w).

Definition bind {A B} (m : M A) (k : A -> M B) : M B :=
  fun w => match m w with
           | (Val a, w') => k a w'
           | (Exn t, w') => (Exn t, w')
           end.

Definition throw {A} (t : Thrown) : M A := fun w => (Exn t, w).

(** [try { body } catch (error) { handler }] *)
Definition try_catch {A} (body : M A) (handler : Thrown -> M A) : M A :=
  fun w => match body w with
           | (Val a, w') => (Val a, w')
           | (Exn t, w') => handler t w'
           end.

Declare Scope js_scope.
Delimit Scope js_scope with js.
Notation "x <- c1 ;; c2" := (bind c1 (fun x => c2))
  (at level 100, c1 at next level, right associativity) : js_scope.
Notation "c1 ;;; c2" := (bind c1 (fun _ => c2))
  (at level 100, right associativity) : js_scope.
Local Open Scope js_scope.

(** [await this.sleep(ms)]: the timer fires after [ms] milliseconds. *)
Definition sleep (ms : Z) : M unit :=
  fun w => (Val tt,
            mkWorld (clock w + ms) (requestCount w) (windowStartTime w)
                    (calls w) (sleeps w ++ [ms]) (console_error w)).

(** [console.error(line)] *)
Definition log_error (line : string) : M unit :=
  fun w => (Val tt,
            mkWorld (clock w) (requestCount w) (windowStartTime w)
                    (calls w) (sleeps w) (console_error w ++ [line])).

(** Reading a property of [undefined] throws a [TypeError]. *)
Definition type_error (property : string) : Thrown :=
  Error (mkError None
    ("Cannot read properties of undefined (reading '" ++ property ++ "')")).

(** ** throttleRequest *)

Definition MAX_REQUESTS_PER_15_MINUTES : Z := 50.
Definition fifteenMinutes : Z := 15 * 60 * 1000.

(** The two fields the throttle owns. *)
Record Window := mkWindow { count : Z; windowStart : Z }.

(** One call of [throttleRequest] entered at time [now].  When the quota
    is used up the call sleeps [timeRemaining + 1000]; [late] is how much
    later than that the timer actually fires, so that [Date.now()] after
    the sleep is [now + timeRemaining + 1000 + late].  The result is the
    new window, the time at which the call completes, and the sleep
    duration if it slept. *)
Definition throttle_step (s : Window) (now late : Z) : Window * Z * option Z :=
  let s1 := if windowStart s =? 0 then mkWindow (count s) now else s in
  let s2 := if now - windowStart s1 >=? fifteenMinutes
            then mkWindow 0 now else s1 in
  if count s2 >=? MAX_REQUESTS_PER_15_MINUTES then
    let timeRemaining := fifteenMinutes - (now - windowStart s2) in
    let woke := now + (timeRemaining + 1000) + late in
    (mkWindow (0 + 1) woke, woke, Some (timeRemaining + 1000))
  else
    (mkWindow (count s2 + 1) (windowStart s2), now, None).

(** [throttleRequest] on the service object: timers fire on time. *)
Definition throttleRequest : M unit :=
  fun w =>
    match throttle_step (mkWindow (requestCount w) (windowStartTime w)) (clock w) 0 with
    | (s', done, slept) =>
      (Val tt,
       mkWorld done (count s') (windowStart s') (calls w)
               (match slept with Some ms => sleeps w ++ [ms] | None => sleeps w end)
               (console_error w))
    end.

(** A sequence of [throttleRequest] calls, one after the other, the
    [i]-th entered at time [fst] and with timer lateness [snd]; returns
    the final window and the completion times, oldest first. *)
Fixpoint acquire_all (s : Window) (sched : list (Z * Z)) : Window * list Z :=
  match sched with
  | [] => (s, [])
  | (now, late) :: rest =>
    match throttle_step s now late with
    | (s', done, _) =>
      let (sf, ds) := acquire_all s' rest in (sf, done :: ds)
    end
  end.

(** The schedules a single flow can produce: the clock is positive, a
    call is entered no earlier than the previous one completed, and a
    timer never fires early. *)
Fixpoint schedule_ok (s : Window) (last : Z) (sched : list (Z * Z)) : Prop :=
  match sched with
  | [] => True
  | (now, late) :: rest =>
    0 < now /\ last <= now /\ 0 <= late /\
    match throttle_step s now late with
    | (s', done, _) => schedule_ok s' done rest
    end
  end.

(** Number of completions inside the closed interval [[t, t + len]]. *)
Definition in_interval (t len d : Z) : bool := (t <=? d) && (d <=? t + len).

Definition completions_within (t len : Z) (ds : list Z) : nat :=
  List.length (filter (in_interval t len) ds).

(** What the two fields say about the completions so far ([past], in any
    order), [last] being the latest of them: [past] splits into the
    completions of the current window, counted by [count]; those of the
    window before it; and older ones, which lie more than a window length
    before the current window start. *)
Definition window_inv (s : Window) (last : Z) (past : list Z) : Prop :=
  exists cur prev older,
    past = (cur ++ prev ++ older)%list
    /\ Z.of_nat (List.length cur) = count s
    /\ count s <= MAX_REQUESTS_PER_15_MINUTES
    /\ (List.length prev <= 50)%nat
    /\ Forall (fun x => windowStart s <= x < windowStart s + fifteenMinutes) cur
    /\ Forall (fun x => x < windowStart s) prev
    /\ Forall (fun x => x + fifteenMinutes < windowStart s) older
    /\ windowStart s <= last
    /\ (windowStart s = 0 -> past = [])
    /\ 0 <= windowStart s.

(** The burst that straddles a window reset: one call at [t0], 49 calls
    one millisecond before the window ends, 50 calls as the next window
    opens. *)
Definition burst (t0 : Z) : list (Z * Z) :=
  ((t0, 0) :: repeat (t0 + fifteenMinutes - 1, 0) 49
   ++ repeat (t0 + fifteenMinutes, 0) 50)%list.

(** ** retryWithIntelligentBackoff *)

Section Retry.
Context {T : Type}.
Variable operation : M T.
Variable operationName : string.
Variable maxRetries : nat.

(** The statement after the classification, at the end of the catch
    block: [if (attempt === maxRetries) { console.error(...); throw
    lastError }]; otherwise the loop goes on with [next]. *)
Definition throw_if_last (attempt : nat) (lastError : Thrown) (next : M T) : M T :=
  if (attempt =? maxRetries)%nat then
    (log_error ("[TwitterAPI] " ++ operationName ++ " failed after "
                ++ show_nat maxRetries ++ " attempts") ;;;
     throw lastError)
  else next.

(** The [for (attempt = 1; attempt <= maxRetries; attempt++)] loop from
    [attempt] on; [k] bounds the iterations still to run and is
    [maxRetries + 1 - attempt] at every entry, so that [k = 0] is the
    loop exit, followed by the final [throw lastError]. *)
Fixpoint retry_from (k : nat) (attempt : nat) (lastError : Thrown) : M T :=
  match k with
  | O => throw lastError
  | S k' =>
    if (attempt <=? maxRetries)%nat then
      try_catch operation (fun error =>
        let lastError := error in
        let next := retry_from k' (S attempt) lastError in
        match error with
        | Undefined => throw (type_error "message")
        | Error e =>
          if code_is e 429 then
            let waitTime := 3000 in
            if (attempt <? maxRetries)%nat
            then (sleep waitTime ;;; next)
            else throw_if_last attempt lastError next
          else if code_is e 401 || code_is e 403 then throw error
          else if code_is e 404 then throw error
          else
            let delay := 2000 * Z.of_nat attempt in
            if (attempt <? maxRetries)%nat
            then (sleep delay ;;; next)
            else throw_if_last attempt lastError next
        end)
    else throw lastError
  end.

Definition retryWithIntelligentBackoff : M T :=
  retry_from maxRetries 1 Undefined.
End Retry.

(** ** The upstream API *)

Record Tweet := mkTweet {
  id : string;
  created_at : Z;                 (* new Date(created_at).getTime() *)
  media_keys : option (list string) (* attachments?.media_keys *)
}.

Record Media := mkMedia {
  media_key : string;
  type : string;
  url : option string;
  preview_image_url : option string
}.

(** The part of a timeline response the collector reads. *)
Record Page := mkPage {
  data : list Tweet;              (* response.data?.data, [] when absent *)
  includes_media : list Media;    (* response.includes?.media *)
  next_token : option string      (* response.data?.meta?.next_token *)
}.

(** The upstream is what it answers to the [n]-th call made to it. *)
Definition Upstream (T : Type) := nat -> Outcome T.

(** [await this.client.v2.userTimeline(userId, params)] *)
Definition invoke {T} (up : Upstream T) : M T :=
  fun w => (up (calls w),
            mkWorld (clock w) (requestCount w) (windowStartTime w)
                    (S (calls w)) (sleeps w) (console_error w)).

(** ** maximizeUserTweetCollection *)

(** The constants declared at the top of the method. *)
Record Config := mkConfig {
  maxPages : nat;
  targetTweetCount : nat;
  maxEmptyPages : nat
}.

Definition source_config : Config := mkConfig 200 (150 * 100) 3.

(** The constants of the specification's scenario: a target of 250. *)
Definition scenario_config : Config := mkConfig 200 250 3.

(** The local variables of the method. *)
Record Locals := mkLocals {
  allTweets : list Tweet;
  allMediaIncludes : list Media;
  errors : list string;
  nextToken : option string;
  pagesProcessed : nat;
  rateLimitHits : nat;
  hasMoreData : bool;
  shouldStop : bool;
  consecutiveEmptyPages : nat
}.

Definition initial_locals : Locals :=
  mkLocals [] [] [] None 0 0 false false 0.

(** Truthiness of [nextToken]: [undefined] and the empty string are falsy. *)
Definition truthy (tok : option string) : bool :=
  match tok with
  | Some s => negb (String.eqb s "")
  | None => false
  end.

Definition stop (l : Locals) : Locals :=
  mkLocals (allTweets l) (allMediaIncludes l) (errors l) (nextToken l)
           (pagesProcessed l) (rateLimitHits l) (hasMoreData l) true
           (consecutiveEmptyPages l).

Definition push_error (line : string) (l : Locals) : Locals :=
  mkLocals (allTweets l) (allMediaIncludes l) (errors l ++ [line])%list (nextToken l)
           (pagesProcessed l) (rateLimitHits l) (hasMoreData l) (shouldStop l)
           (consecutiveEmptyPages l).

(** How an iteration of the [do ... while] body ends: by [break], or by
    reaching the loop condition ([continue] jumps to the condition of a
    [do ... while], as falling off the end of the body does). *)
Inductive Completion := Break | ToCondition.

Section Collector.
Variable cfg : Config.
Variable up : Upstream Page.

(** Lines 1056-1060: the throttle, then the page request under the
    retry wrapper with its default [maxRetries = 2]. *)
Definition fetch_page (l : Locals) : M Page :=
  throttleRequest ;;;
  retryWithIntelligentBackoff (invoke up)
    ("userTimeline page " ++ show_nat (pagesProcessed l + 1)) 2.

(** Lines 1085-1093: the part of the try block after the two
    early [break]s. *)
Definition advance (response : Page) (l : Locals) : Locals :=
  let media := match includes_media response with
               | [] => allMediaIncludes l
               | m => (allMediaIncludes l ++ m)%list
               end in
  let nextToken := next_token response in
  mkLocals (allTweets l) media (errors l) nextToken
           (S (pagesProcessed l)) (rateLimitHits l) (truthy nextToken)
           (shouldStop l) (consecutiveEmptyPages l).

(** Lines 1063-1064: [allTweets.push(...response.data.data)] and the
    reset of the empty-page counter. *)
Definition accumulate (response : Page) (l : Locals) : Locals :=
  mkLocals (allTweets l ++ data response)%list (allMediaIncludes l)
           (errors l) (nextToken l) (pagesProcessed l)
           (rateLimitHits l) (hasMoreData l) (shouldStop l) 0.

(** Line 1074: [consecutiveEmptyPages++]. *)
Definition count_empty (l : Locals) : Locals :=
  mkLocals (allTweets l) (allMediaIncludes l)
           (errors l) (nextToken l) (pagesProcessed l)
           (rateLimitHits l) (hasMoreData l) (shouldStop l)
           (S (consecutiveEmptyPages l)).

(** Lines 1062-1093: the try block once the response is there. *)
Definition on_response (response : Page) (l : Locals) : Locals * Completion :=
  match data response with
  | _ :: _ =>
    let l1 := accumulate response l in
    if (targetTweetCount cfg <=? List.length (allTweets l1))%nat
    then (stop l1, Break)
    else (advance response l1, ToCondition)
  | [] =>
    let l1 := count_empty l in
    if (maxEmptyPages cfg <=? consecutiveEmptyPages l1)%nat
    then (stop l1, Break)
    else (advance response l1, ToCondition)
  end.

(** Lines 1104-1134: the catch block of the page request. *)
Definition on_error (error : Thrown) (l : Locals) : M (Locals * Completion) :=
  match error with
  | Undefined => throw (type_error "code")
  | Error e =>
    if code_is e 429 then
      let l1 := mkLocals (allTweets l) (allMediaIncludes l) (errors l)
                         (nextToken l) (pagesProcessed l)
                         (S (rateLimitHits l)) (hasMoreData l) (shouldStop l)
                         (consecutiveEmptyPages l) in
      let l2 := push_error ("Rate limit on page "
                            ++ show_nat (pagesProcessed l + 1)) l1 in
      if (0 <? List.length (allTweets l2))%nat
      then ret (stop l2, Break)
      else (sleep 5000 ;;; ret (l2, ToCondition))
    else
      log_error ("❌ [TwitterAPI] Error on page "
                 ++ show_nat (pagesProcessed l + 1) ++ ": " ++ message e) ;;;
      let l1 := push_error ("Page " ++ show_nat (pagesProcessed l + 1)
                            ++ ": " ++ message e) l in
      if (0 <? List.length (allTweets l1))%nat
      then ret (stop l1, Break)
      else ret (l1, Break)
  end.

(** One pass through the body of the [do ... while]. *)
Definition iteration (l : Locals) : M (Locals * Completion) :=
  try_catch
    (response <- fetch_page l ;; ret (on_response response l))
    (fun error => on_error error l).

(** [while (nextToken && pagesProcessed < maxPages && !shouldStop)] *)
Definition loop_condition (l : Locals) : bool :=
  truthy (nextToken l) && (pagesProcessed l <? maxPages cfg)%nat
  && negb (shouldStop l).

(** How the loop is left: past its condition or a [break], or by an
    exception escaping the body, with the locals as they then are. *)
Inductive LoopEnd :=
| Finished (l : Locals)
| Escaped (l : Locals) (t : Thrown).

(** The [do ... while] loop.  Nothing bounds the number of its
    iterations (a rate-limited request without data leaves
    [pagesProcessed] as it is), so the model takes [fuel] and answers
    [None] when that runs out. *)
Fixpoint do_while (fuel : nat) (l : Locals) (w : World)
  : option (LoopEnd * World) :=
  match fuel with
  | O => None
  | S fuel' =>
    match iteration l w with
    | (Exn t, w') => Some (Escaped l t, w')
    | (Val (l', Break), w') => Some (Finished l', w')
    | (Val (l', ToCondition), w') =>
      if loop_condition l' then do_while fuel' l' w'
      else Some (Finished l', w')
    end
  end.

(** The locals and the world at the head of the loop after [n] passes
    through the body, each of which came back to the condition and found
    it true. *)
Fixpoint loop_head (n : nat) (l : Locals) (w : World) : option (Locals * World) :=
  match n with
  | O => Some (l, w)
  | S n' =>
    match iteration l w with
    | (Val (l', ToCondition), w') =>
      if loop_condition l' then loop_head n' l' w' else None
    | _ => None
    end
  end.

(** Lines 1138-1146: the outer catch. *)
Definition on_global_error (globalError : Thrown) (l : Locals)
  : M Locals :=
  match globalError with
  | Undefined => throw (type_error "message")
  | Error e =>
    log_error ("💥 [TwitterAPI] Global collection error: " ++ message e) ;;;
    ret (push_error ("Global error: " ++ message e) l)
  end.

(** Lines 1000-1146: the outer try statement. *)
Definition collect_loop (fuel : nat) (w : World)
  : option (Outcome Locals * World) :=
  match do_while fuel initial_locals w with
  | None => None
  | Some (Finished l, w') => Some (Val l, w')
  | Some (Escaped l t, w') => Some (on_global_error t l w')
  end.
End Collector.

(** *** The result *)

Record MediaData := mkMediaData {
  md_media_key : string;
  md_type : string;
  md_url : option string
}.

Record ProcessedTweet := mkProcessed {
  tweet : Tweet;
  media : list MediaData;
  has_media : bool;
  collection_timestamp : Z;
  tweet_url : string
}.

Record Metadata := mkMetadata {
  totalCollected : nat;
  meta_pagesProcessed : nat;
  oldestTweetDate : option Z;
  newestTweetDate : option Z;
  timeSpanDays : Z;
  meta_hasMoreData : bool;
  collectionStrategy : string;
  meta_rateLimitHits : nat;
  meta_errors : list string
}.

Record CollectionResult := mkResult {
  tweets : list ProcessedTweet;
  metadata : Metadata
}.

(** [a || b] on optional strings. *)
Definition or_else (a b : option string) : option string :=
  match a with
  | Some s => if String.eqb s "" then b else a
  | None => b
  end.

(** Lines 1179-1190: the media of one tweet, unresolved keys dropped.
    The pass-through fields [width], [height], [duration_ms] and
    [alt_text] are left out. *)
Definition resolve_media (pool : list Media) (keys : list string)
  : list MediaData :=
  flat_map (fun mediaKey =>
    match find (fun m => String.eqb (media_key m) mediaKey) pool with
    | Some mediaItem =>
      [mkMediaData (media_key mediaItem) (type mediaItem)
                   (or_else (url mediaItem) (preview_image_url mediaItem))]
    | None => []
    end) keys.

Definition process_tweet (username : string) (pool : list Media) (now : Z)
  (t : Tweet) : ProcessedTweet :=
  let mediaData :=
    match media_keys t, pool with
    | Some keys, _ :: _ => resolve_media pool keys
    | _, _ => []
    end in
  mkProcessed t mediaData (0 <? List.length mediaData)%nat now
    ("https://twitter.com/" ++ username ++ "/status/" ++ id t).

Definition day_ms : Z := 1000 * 60 * 60 * 24.

(** [Math.ceil(x / day_ms)] on integers. *)
Definition ceil_days (x : Z) : Z := - ((- x) / day_ms).

(** Lines 1156-1229. *)
Definition assemble (username : string) (now : Z) (l : Locals)
  : CollectionResult :=
  let sortedTweets :=
    js_sort (fun a b => inject_Z (created_at a - created_at b)) (allTweets l) in
  let dates :=
    match sortedTweets with
    | [] => (None, None, 0)
    | first :: _ =>
      let oldest := created_at first in
      let newest := created_at (last sortedTweets first) in
      (Some oldest, Some newest, ceil_days (newest - oldest))
    end in
  let '(oldestTweetDate, newestTweetDate, timeSpanDays) := dates in
  mkResult
    (map (process_tweet username (allMediaIncludes l) now) (allTweets l))
    (mkMetadata (List.length (allTweets l)) (pagesProcessed l)
                oldestTweetDate newestTweetDate timeSpanDays
                (hasMoreData l) "maximum_unlimited_historical"
                (rateLimitHits l) (errors l)).

(** The method, for any choice of its constants. *)
Definition collect (cfg : Config) (up : Upstream Page) (fuel : nat)
  (userId username : string) (w : World)
  : option (Outcome CollectionResult * World) :=
  match collect_loop cfg up fuel w with
  | None => None
  | Some (Val l, w') => Some (Val (assemble username (clock w') l), w')
  | Some (Exn t, w') => Some (Exn t, w')
  end.

Definition maximizeUserTweetCollection := collect source_config.

(** ** Sample upstreams *)

Definition t0 : Z := 1700000000000.

Definition answering (c : Z) (msg : string) : Upstream Page :=
  fun _ => Exn (Error (mkError (Some c) msg)).

Definition always_500 : Upstream Page := answering 500 "Internal Server Error".
Definition always_429 : Upstream Page := answering 429 "Too Many Requests".
Definition always_401 : Upstream Page := answering 401 "Unauthorized".

Definition tweet_a : Tweet := mkTweet "1001" 1699990000000 None.
Definition tweet_b : Tweet := mkTweet "1000" 1699900000000 None.

(** One page of two tweets, then nothing but 500s. *)
Definition late_failure : Upstream Page :=
  fun n => match n with
           | O => Val (mkPage [tweet_a; tweet_b] [] (Some "token-1"))
           | S _ => always_500 n
           end.

(** Full pages of a hundred tweets, each with a continuation token. *)
Definition full_page : Page := mkPage (repeat tweet_a 100) [] (Some "token").

Definition full_pages : Upstream Page := fun n => Val full_page.

(** The loop head two full pages into a run started at [t0]. *)
Definition two_pages_in : Locals * World :=
  (mkLocals (repeat tweet_a 200) [] [] (Some "token") 2 0 true false 0,
   mkWorld t0 2 t0 2 [] []).

(** ** getQuotaStatus *)

Record QuotaStatus := mkQuota {
  used : Z;
  remaining : Z;
  total : Z;
  windowElapsed : Z;
  canMakeMoreRequests : bool
}.

(** [Math.round(ms / 1000)] on an integer. *)
Definition round_seconds (ms : Z) : Z := (ms + 500) / 1000.

Definition getQuotaStatus (w : World) : QuotaStatus :=
  let now := clock w in
  let windowElapsed :=
    if windowStartTime w >? 0 then now - windowStartTime w else 0 in
  let remaining := MAX_REQUESTS_PER_15_MINUTES - requestCount w in
  mkQuota (requestCount w) remaining MAX_REQUESTS_PER_15_MINUTES
          (round_seconds windowElapsed) (remaining >? 0).

(** A sequence of [throttleRequest] calls as in [acquire_all], keeping
    for each call the time it completes and how long it slept, if it
    did. *)
Fixpoint acquire_log (s : Window) (sched : list (Z * Z)) : list (Z * option Z) :=
  match sched with
  | [] => []
  | (now, late) :: rest =>
    match throttle_step s now late with
    | (s', done, slept) => (done, slept) :: acquire_log s' rest
    end
  end.

(** ** The delays of the retry wrapper *)

(** The time [retryWithIntelligentBackoff] sleeps after a failed attempt
    that is not the last: [waitTime] for a 429, [delay] otherwise. *)
Definition backoff (e : ApiError) (attempt : nat) : Z :=
  if code_is e 429 then 3000 else 2000 * Z.of_nat attempt.

(** The sleep that follows the [i]-th call after call number [base]. *)
Definition delay_after {T} (up : Upstream T) (base i : nat) : Z :=
  match up (base + i)%nat with
  | Exn (Error e) => backoff e (S i)
  | _ => 0
  end.

(** ** getUserByUsername *)

Record User := mkUser {
  user_id : string;
  user_username : string;
  user_name : string
}.

(** The answer of [client.v2.userByUsername]: [data] may be missing. *)
Record UserResponse := mkUserResponse { user_data : option User }.

(** The operation handed to the retry wrapper (lines 936-958). *)
Definition lookup_user (users : Upstream UserResponse) (username : string) : M User :=
  user <- invoke users ;;
  match user_data user with
  | None =>
    throw (Error (mkError None ("User not found or suspended: " ++ username)))
  | Some d => ret d
  end.

Definition getUserByUsername (users : Upstream UserResponse) (username : string)
  : M User :=
  throttleRequest ;;;
  retryWithIntelligentBackoff (lookup_user users username)
    ("getUserByUsername(" ++ username ++ ")") 2.

(** ** Further sample upstreams *)

(** A 429, then a 500, then full pages. *)
Definition flaky : Upstream Page :=
  fun n => match n with
           | 0%nat => always_429 n
           | 1%nat => always_500 n
           | _ => Val full_page
           end.

(** What the operation of [getUserByUsername] makes of the answers of
    [client.v2.userByUsername]: an answer without [data] is turned into
    an error that carries no code. *)
Definition user_view (users : Upstream UserResponse) (username : string)
  : Upstream User :=
  fun n => match users n with
           | Val user =>
             match user_data user with
             | None => Exn (Error (mkError None
                                     ("User not found or suspended: " ++ username)))
             | Some d => Val d
             end
           | Exn t => Exn t
           end.

Definition alice : User := mkUser "42" "alice" "Alice".

(** An account that is suspended at first and back at the second call. *)
Definition found_at_second : Upstream UserResponse :=
  fun n => match n with
           | 0%nat => Val (mkUserResponse None)
           | _ => Val (mkUserResponse (Some alice))
           end.

Definition never_found : Upstream UserResponse :=
  fun _ => Val (mkUserResponse None).

(** ** Timelines *)

(** A timeline served page by page, as the API serves one that it can
    serve to its end: every page but the last carries a continuation
    token, the last carries none. *)
Fixpoint tokens_chain (pages : list Page) : bool :=
  match pages with
  | [] => false
  | p :: rest =>
    match rest with
    | [] => negb (truthy (next_token p))
    | _ :: _ => truthy (next_token p) && tokens_chain rest
    end
  end.

(** Whether some item of the media pool has the key. *)
Definition in_pool (pool : list Media) (mediaKey : string) : bool :=
  existsb (fun m => String.eqb (media_key m) mediaKey) pool.

(** Empty pages that promise more. *)
Definition empty_pages : Upstream Page :=
  fun _ => Val (mkPage [] [] (Some "token")).

(** One empty page that promises more, then nothing but 429s. *)
Definition empty_then_429 : Upstream Page :=
  fun n => match n with
           | O => Val (mkPage [] [] (Some "token"))
           | S _ => always_429 n
           end.

(** One page of two tweets, then nothing but 429s. *)
Definition late_rate_limit : Upstream Page :=
  fun n => match n with
           | O => Val (mkPage [tweet_a; tweet_b] [] (Some "token-1"))
           | S _ => always_429 n
           end.

Definition photo : Media := mkMedia "3_1" "photo" (Some "https://pbs.example/1.jpg") None.

Definition tweet_c : Tweet := mkTweet "1002" 1699995000000 (Some ["3_1"; "3_9"]).

(** A timeline of two pages. *)
Definition short_timeline : list Page :=
  [mkPage [tweet_c; tweet_a] [photo] (Some "token-1"); mkPage [tweet_b] [] None].

Definition serving (pages : list Page) : Upstream Page :=
  fun n => match nth_error pages n with
           | Some p => Val p
           | None => always_500 n
           end.

(** ** getComprehensiveUserAnalysis and searchUserMediaTweets *)












Section Search.
(** [monthsAgo.setMonth(monthsAgo.getMonth() - months)]: the time, in
    milliseconds, that lies [months] calendar months before [now] in the
    local time zone.  Nothing is assumed of it. *)
Variable months_before : Z -> Z -> Z.
(** [tweet.in_reply_to_user_id], which [Tweet] leaves out. *)
Variable in_reply_to_user_id : Tweet -> option string.



End Search.



End TwitterServiceV2.

(** * JavaScript numbers *)

Module Binary64.
Import SpecFloat.

(** A JavaScript number is an IEEE 754 binary64 value.  Its arithmetic
    is that of the Standard Library's specification of floating-point
    numbers at precision 53 and maximal exponent 1024: every operation
    returns the exact result rounded to the nearest number, ties to
    even, with signed zeros, infinities and NaN. *)
Definition double : Type := spec_float.

Definition prec : Z := 53.
Definition emax : Z := 1024.

Definition add : double -> double -> double := SFadd prec emax.
Definition sub : double -> double -> double := SFsub prec emax.
Definition div : double -> double -> double := SFdiv prec emax.

(** The number an integer is as a JavaScript number: the integer itself
    up to [2^53], the nearest number beyond.  This is what an integer
    literal, [array.length], [Date.now()] and [JSON.parse] of an integer
    give. *)
Definition of_Z (z : Z) : double := binary_normalize prec emax z 0 false.

(** [Math.max(0, x)] *)
Definition max0 (x : double) : double :=
  match x with
  | S754_nan => S754_nan
  | S754_infinity false => x
  | S754_finite false _ _ => x
  | _ => S754_zero false
  end.

(** What [Array.prototype.sort] reads of the number its comparator
    returns: whether it is negative, zero or positive, NaN counting as
    zero. *)
Definition sign (x : double) : Q :=
  match x with
  | S754_zero _ => 0
  | S754_nan => 0
  | S754_infinity s => if s then -1 else 1
  | S754_finite s _ _ => if s then -1 else 1
  end.

Definition is_nan (x : double) : bool :=
  match x with
  | S754_nan => true
  | _ => false
  end.

(** The value of a finite number counted in units of [2^-1074], the
    smallest positive number, of which every other is a whole multiple. *)
Definition units (x : double) : Z :=
  match x with
  | S754_finite s m e => cond_Zopp s (Z.pos m * 2 ^ (e + 1074))
  | _ => 0
  end.

(** [x <= y]; false when either is NaN. *)
Definition leb (x y : double) : bool :=
  match x, y with
  | S754_nan, _ => false
  | _, S754_nan => false
  | S754_infinity true, _ => true
  | _, S754_infinity false => true
  | S754_infinity false, _ => false
  | _, S754_infinity true => false
  | _, _ => units x <=? units y
  end.

Definition le (x y : double) : Prop := leb x y = true.


End Binary64.

Module MaximizedTwitterCache.

(** ** The cached data *)

(** Of a cached tweet the cache itself reads nothing; it only counts
    them. *)
Record CachedTweet := mkCachedTweet { ct_id : string; ct_text : string }.

(** The fields of [CachedAccountData] the cache reads: [tweets],
    [stats.engagement.totalEngagement], [collectionMetadata.timeSpanDays]
    and [collectionMetadata.collectionTime] (as the time it parses to).
    [json_bytes] stands for the serialized form of the whole object: the
    number of UTF-8 bytes of [JSON.stringify(accountData)]. *)
Record CachedAccountData := mkAccount {
  tweets : list CachedTweet;
  totalEngagement : Z;
  timeSpanDays : Z;
  collectionTime : Z;
  json_bytes : N
}.

Record GlobalMetadata := mkGlobal {
  lastUpdated : Z;          (* the time [toISOString] was taken at *)
  version : string;
  totalAccounts : nat;
  totalTweets : nat;
  cachingStrategy : string
}.

(** [accounts] is an ordinary JavaScript object used as a map.  It is
    kept as the list of its own properties in property order, the order
    [Object.keys], [Object.values], [Object.entries] and [JSON.stringify]
    go by: first the keys that are array indices, in ascending numeric
    order, then the other keys in the order they were created.  Its
    prototype is [Object.prototype]. *)
Record MaximizedCacheData := mkCache {
  accounts : list (string * CachedAccountData);
  globalMetadata : GlobalMetadata
}.

(** ** The accounts object *)

Definition digit (c : ascii) : option N :=
  let n := N_of_ascii c in
  if ((48 <=? n) && (n <=? 57))%N then Some (n - 48)%N else None.

Fixpoint decimal (acc : N) (s : string) : option N :=
  match s with
  | EmptyString => Some acc
  | String c s' =>
    match digit c with
    | Some d => decimal (10 * acc + d) s'
    | None => None
    end
  end.

(** Whether a property key is an array index, and which: the decimal
    form, without leading zeros, of an integer from 0 to [2^32 - 2]. *)
Definition array_index (key : string) : option N :=
  match key with
  | EmptyString => None
  | String c rest =>
    if Ascii.eqb c "0" && negb (String.eqb rest "") then None
    else
      match decimal 0 key with
      | Some i => if (i <? 2 ^ 32 - 1)%N then Some i else None
      | None => None
      end
  end.

(** The own property [key], if there is one. *)
Fixpoint own (key : string) (l : list (string * CachedAccountData))
  : option CachedAccountData :=
  match l with
  | [] => None
  | (k, v) :: rest => if String.eqb k key then Some v else own key rest
  end.

(** The names [Object.prototype] hands down to every ordinary object. *)
Definition Object_prototype : list string :=
  ["constructor"; "__defineGetter__"; "__defineSetter__"; "hasOwnProperty";
   "__lookupGetter__"; "__lookupSetter__"; "isPrototypeOf";
   "propertyIsEnumerable"; "toString"; "valueOf"; "__proto__";
   "toLocaleString"].

Definition inherited (key : string) : bool :=
  existsb (String.eqb key) Object_prototype.

(** What reading a property of [accounts] can give, apart from
    [undefined]: an account, or the function or object that
    [Object.prototype] has under that name. *)
Inductive Found :=
| Account (accountData : CachedAccountData)
| Inherited (name : string).

(** [obj[key]]: the own property, else what the prototype has;
    [None] is [undefined]. *)
Definition lookup (key : string) (l : list (string * CachedAccountData))
  : option Found :=
  match own key l with
  | Some v => Some (Account v)
  | None => if inherited key then Some (Inherited key) else None
  end.

(** A new value for a property that exists: it keeps its place. *)
Fixpoint replace (key : string) (value : CachedAccountData)
  (l : list (string * CachedAccountData)) : list (string * CachedAccountData) :=
  match l with
  | [] => []
  | (k, v) :: rest =>
    if String.eqb k key then (k, value) :: rest
    else (k, v) :: replace key value rest
  end.

(** A new property whose key is the array index [i]: it goes before the
    first property that is not an array index or is a larger one. *)
Fixpoint insert_index (i : N) (key : string) (value : CachedAccountData)
  (l : list (string * CachedAccountData)) : list (string * CachedAccountData) :=
  match l with
  | [] => [(key, value)]
  | (k, v) :: rest =>
    match array_index k with
    | Some j =>
      if (j <? i)%N then (k, v) :: insert_index i key value rest
      else (key, value) :: (k, v) :: rest
    | None => (key, value) :: (k, v) :: rest
    end
  end.

(** A new own property: among the array indices if it is one, last
    otherwise. *)
Definition add_property (key : string) (value : CachedAccountData)
  (l : list (string * CachedAccountData)) : list (string * CachedAccountData) :=
  match array_index key with
  | Some i => insert_index i key value l
  | None => (l ++ [(key, value)])%list
  end.

(** [obj[key] = value].  An own property takes the value; otherwise the
    key ["__proto__"] reaches the setter of [Object.prototype], which
    makes the value the prototype of the object and adds no property;
    any other key becomes a new own property. *)
Definition assign (key : string) (value : CachedAccountData)
  (l : list (string * CachedAccountData)) : list (string * CachedAccountData) :=
  match own key l with
  | Some _ => replace key value l
  | None => if String.eqb key "__proto__" then l else add_property key value l
  end.

(** [Object.fromEntries(entries)] for the entries of an object: each
    becomes an own property of a new object.  The entries come from
    [Object.entries], so no key repeats and no property is overwritten. *)
Definition fromEntries (entries : list (string * CachedAccountData))
  : list (string * CachedAccountData) :=
  fold_left (fun object entry => add_property (fst entry) (snd entry) object)
            entries [].

Definition CACHE_DURATION : Z := 4 * 60 * 60 * 1000.
Definition MAX_STORAGE_SIZE : Z := 50 * 1024 * 1024.

(** ** Serialized size *)

(** Number of characters of a non-negative integer printed in decimal. *)
Fixpoint digits_fuel (fuel : nat) (n : Z) : Z :=
  match fuel with
  | O => 1
  | S fuel' => if n <? 10 then 1 else 1 + digits_fuel fuel' (n / 10)
  end.

Definition digits (n : Z) : Z := digits_fuel (S (Z.to_nat (Z.log2 n))) n.

(** A string of plain ASCII characters between its two quotes. *)
Definition quoted (s : string) : Z := Z.of_nat (String.length s) + 2.

(** One ["key":value] member of the accounts object. *)
Definition member_bytes (kv : string * CachedAccountData) : Z :=
  quoted (fst kv) + 1 + Z.of_N (json_bytes (snd kv)).

(** The members of an object, with the commas between them. *)
Fixpoint members_bytes (l : list (string * CachedAccountData)) : Z :=
  match l with
  | [] => 0
  | [kv] => member_bytes kv
  | kv :: rest => member_bytes kv + 1 + members_bytes rest
  end.

(** [new Blob([compressData(data)]).size]: the bytes of
    [{"a":{...},"g":{"l":"...","v":"...","ta":n,"tt":n,"s":"..."}}],
    where ["l"] is a 24-character ISO timestamp. *)
Definition dataSize (d : MaximizedCacheData) : Z :=
  let g := globalMetadata d in
  let a_bytes := 2 + members_bytes (accounts d) in
  let g_bytes :=
    1 + (4 + 26) + 1 + (4 + quoted (version g)) + 1
      + (5 + digits (Z.of_nat (totalAccounts g))) + 1
      + (5 + digits (Z.of_nat (totalTweets g))) + 1
      + (4 + quoted (cachingStrategy g)) + 1 in
  1 + (4 + a_bytes) + 1 + (4 + g_bytes) + 1.

(** ** Scores and cleanup *)


(** [getRecencyScore] as the cleanup computes it, in binary64 (lines
    264-271). *)
Definition getRecencyScore_double (now : Z) (collectionTime : Z) : Binary64.double :=
  let collectionDate := Binary64.of_Z collectionTime in
  let now := Binary64.of_Z now in
  let hoursAgo :=
    Binary64.div (Binary64.sub now collectionDate) (Binary64.of_Z (1000 * 60 * 60)) in
  Binary64.max0
    (Binary64.sub (Binary64.of_Z 1) (Binary64.div hoursAgo (Binary64.of_Z 24))).

(** Lines 252-259, in binary64; the sum is taken from left to right. *)
Definition calculateAccountCacheScore (now : Z) (accountData : CachedAccountData)
  : Binary64.double :=
  let recencyScore := getRecencyScore_double now (collectionTime accountData) in
  let dataQualityScore :=
    Binary64.div (Binary64.of_Z (Z.of_nat (List.length (tweets accountData))))
                 (Binary64.of_Z 1000) in
  let timeSpanScore :=
    Binary64.div (Binary64.of_Z (timeSpanDays accountData)) (Binary64.of_Z 365) in
  let engagementScore :=
    Binary64.div (Binary64.of_Z (totalEngagement accountData)) (Binary64.of_Z 10000) in
  Binary64.add
    (Binary64.add (Binary64.add recencyScore dataQualityScore) timeSpanScore)
    engagementScore.

(** The comparator handed to [accounts.sort], as the sort reads it. *)
Definition by_score (now : Z) (a b : string * CachedAccountData) : Q :=
  let scoreA := calculateAccountCacheScore now (snd a) in
  let scoreB := calculateAccountCacheScore now (snd b) in
  Binary64.sign (Binary64.sub scoreB scoreA).

(** [Math.ceil(accounts.length * 0.7)] *)
Definition keepCount (length : nat) : nat :=
  Z.to_nat (Qceiling (inject_Z (Z.of_nat length) * (7 # 10))).

Definition count_tweets (l : list (string * CachedAccountData)) : nat :=
  fold_left (fun total acc => (total + List.length (tweets (snd acc)))%nat) l 0%nat.

Definition performIntelligentCleanup (now : Z) (cacheData : MaximizedCacheData)
  : MaximizedCacheData :=
  let sorted := js_sort (by_score now) (accounts cacheData) in
  let keptAccounts := firstn (keepCount (List.length sorted)) sorted in
  let g := globalMetadata cacheData in
  mkCache (fromEntries keptAccounts)
          (mkGlobal now (version g) (List.length keptAccounts)
                    (count_tweets keptAccounts) (cachingStrategy g)).

(** ** Session storage *)

(** What is stored under [CACHE_KEY]: the text [compressData] wrote, kept
    as the value it decompresses to, or a text on which [JSON.parse] or
    [decompressData] throws. *)
Inductive Stored :=
| Encoded (d : MaximizedCacheData)
| Corrupt.

(** The two items of [sessionStorage] the class owns. *)
Record SessionStorage := mkStorage {
  cache_item : option Stored;    (* CACHE_KEY *)
  expiry_item : option Z         (* CACHE_EXPIRY_KEY *)
}.

(** What the platform does where the class cannot know: whether it runs
    in a browser, on which values [JSON.stringify] throws, and which
    writes [sessionStorage.setItem] refuses. *)
Record Platform := mkPlatform {
  isBrowser : bool;
  stringify_throws : MaximizedCacheData -> bool;
  setItem_cache_throws : MaximizedCacheData -> bool;
  setItem_expiry_throws : Z -> bool
}.

Definition clear (env : Platform) (st : SessionStorage) : SessionStorage :=
  if isBrowser env then mkStorage None None else st.

Definition getAllData (env : Platform) (now : Z) (st : SessionStorage)
  : option MaximizedCacheData * SessionStorage :=
  if negb (isBrowser env) then (None, st)
  else
    match expiry_item st with
    | None => (None, clear env st)
    | Some expiry =>
      if now >? expiry then (None, clear env st)
      else
        match cache_item st with
        | None => (None, st)
        | Some Corrupt => (None, clear env st)       (* the catch block *)
        | Some (Encoded d) => (Some d, st)
        end
    end.

(** Account names are Twitter handles, made of ASCII letters, digits and
    underscores; on ASCII text [s.toLowerCase()] changes the letters A to
    Z and nothing else.  What is proved of names is proved of ASCII
    names. *)
Fixpoint is_ascii (s : string) : bool :=
  match s with
  | EmptyString => true
  | String c s' => (nat_of_ascii c <? 128)%nat && is_ascii s'
  end.

(** [s.toLowerCase()] on ASCII text. *)
Definition lower_char (c : ascii) : ascii :=
  let n := nat_of_ascii c in
  if ((65 <=? n) && (n <=? 90))%nat then ascii_of_nat (n + 32) else c.

Fixpoint toLowerCase (s : string) : string :=
  match s with
  | EmptyString => EmptyString
  | String c s' => String (lower_char c) (toLowerCase s')
  end.

(** [getAccountData]; [None] is [null]. *)
Definition getAccountData (env : Platform) (now : Z) (username : string)
  (st : SessionStorage) : option Found * SessionStorage :=
  match getAllData env now st with
  | (None, st') => (None, st')
  | (Some allData, st') => (lookup (toLowerCase username) (accounts allData), st')
  end.

(** Lines 165-184: the store with the account put in and the counters
    brought up to date. *)
Definition updated (now : Z) (existing : option MaximizedCacheData)
  (username : string) (accountData : CachedAccountData) : MaximizedCacheData :=
  let cacheData :=
    match existing with
    | Some d => d
    | None => mkCache [] (mkGlobal now "v2_maximum_collection" 0 0
                                   "maximum_unlimited_historical")
    end in
  let accounts' := assign (toLowerCase username) accountData (accounts cacheData) in
  let g := globalMetadata cacheData in
  mkCache accounts'
          (mkGlobal now (version g) (List.length accounts')
                    (count_tweets accounts') (cachingStrategy g)).

(** Lines 186-193: what is about to be written. *)
Definition to_commit (now : Z) (cacheData : MaximizedCacheData) : MaximizedCacheData :=
  if dataSize cacheData >? MAX_STORAGE_SIZE
  then performIntelligentCleanup now cacheData
  else cacheData.

(** The try block of [setAccountData]: the storage it leaves, and
    whether it threw. *)
Definition try_setAccountData (env : Platform) (now : Z) (username : string)
  (accountData : CachedAccountData) (st : SessionStorage)
  : SessionStorage * bool :=
  let (existing, st1) := getAllData env now st in
  let cacheData := updated now existing username accountData in
  if stringify_throws env cacheData then (st1, true)
  else
    let cacheData := to_commit now cacheData in
    if stringify_throws env cacheData then (st1, true)
    else
      let expiry := now + CACHE_DURATION in
      if setItem_cache_throws env cacheData then (st1, true)
      else
        let st2 := mkStorage (Some (Encoded cacheData)) (expiry_item st1) in
        if setItem_expiry_throws env expiry then (st2, true)
        else (mkStorage (cache_item st2) (Some expiry), false).

(** [setAccountData]; the flag tells whether the catch block ran. *)
Definition setAccountData (env : Platform) (now : Z) (username : string)
  (accountData : CachedAccountData) (st : SessionStorage)
  : SessionStorage * bool :=
  if negb (isBrowser env) then (st, false)
  else
    match try_setAccountData env now username accountData st with
    | (st', true) => (clear env st', true)
    | (st', false) => (st', false)
    end.

(** The try block of [getAllData] throws: the expiry is there and not
    passed, and the text under [CACHE_KEY] does not parse. *)
Definition getAllData_throws (env : Platform) (now : Z) (st : SessionStorage) : bool :=
  isBrowser env &&
  match expiry_item st, cache_item st with
  | Some expiry, Some Corrupt => negb (now >? expiry)
  | _, _ => false
  end.

(** ** Sample stores *)

Definition now0 : Z := 1700000000000.

(** A browser in which nothing throws. *)
Definition platform_ok : Platform :=
  mkPlatform true (fun _ => false) (fun _ => false) (fun _ => false).

(** A browser whose storage refuses the cache text (quota exceeded). *)
Definition platform_quota_exceeded : Platform :=
  mkPlatform true (fun _ => false) (fun _ => true) (fun _ => false).

(** An account collected at [t] whose JSON text takes thirty million
    bytes. *)
Definition big_account (t : Z) : CachedAccountData :=
  mkAccount [mkCachedTweet "1001" "gm"] 12 1 t 30000000.

(** What a first [setAccountData("alice", ...)] at [now0] leaves behind. *)
Definition store_with_alice : SessionStorage :=
  mkStorage (Some (Encoded (updated now0 None "alice" (big_account now0))))
            (Some (now0 + CACHE_DURATION)).

(** A store whose text no longer parses. *)
Definition corrupt_store : SessionStorage :=
  mkStorage (Some Corrupt) (Some (now0 + CACHE_DURATION)).

(** Ten accounts with one to ten tweets each, in that order. *)
Definition account_with (k : nat) : string * CachedAccountData :=
  ("user" ++ show_nat k,
   mkAccount (repeat (mkCachedTweet "1" "gm") k) 0 0 now0 1000).

Definition ten_accounts : MaximizedCacheData :=
  mkCache (map account_with (seq 1 10))
          (mkGlobal now0 "v2_maximum_collection" 10 55
                    "maximum_unlimited_historical").

(** An account collected two days before [now0], so that its recency
    score is zero. *)
Definition old_account (tweets : nat) (totalEngagement : Z) : CachedAccountData :=
  mkAccount (repeat (mkCachedTweet "1" "gm") tweets) totalEngagement 0
            (now0 - 2 * 24 * 60 * 60 * 1000) 1000.

(** Four old accounts.  The score of bee is [0.3]; that of ann is
    [0.2 + 0.1], the same fraction and the next number up. *)
Definition rounding_accounts : MaximizedCacheData :=
  mkCache [("bee", old_account 300 0); ("ann", old_account 200 1000);
           ("cat", old_account 900 0); ("dan", old_account 800 0)]
          (mkGlobal now0 "v2_maximum_collection" 4 2200
                    "maximum_unlimited_historical").

(** Four old accounts, two of them under names made of digits. *)
Definition index_accounts : MaximizedCacheData :=
  mkCache [("7", old_account 8 0); ("42", old_account 5 0);
           ("zed", old_account 10 0); ("amy", old_account 1 0)]
          (mkGlobal now0 "v2_maximum_collection" 4 24
                    "maximum_unlimited_historical").

(** ** The other readers of the cache *)

(** [isValid] *)
Definition isValid (env : Platform) (now : Z) (st : SessionStorage) : bool :=
  if negb (isBrowser env) then false
  else
    match expiry_item st with
    | Some expiry => now <=? expiry
    | None => false
    end.

(** [getAllTweets] *)
Definition getAllTweets (env : Platform) (now : Z) (st : SessionStorage)
  : list CachedTweet * SessionStorage :=
  match getAllData env now st with
  | (None, st') => ([], st')
  | (Some allData, st') =>
    (flat_map (fun account => tweets (snd account)) (accounts allData), st')
  end.

(** [getTweetsByUsername]; [None] is [undefined], which is what
    [.tweets] of something inherited is. *)
Definition getTweetsByUsername (env : Platform) (now : Z) (username : string)
  (st : SessionStorage) : option (list CachedTweet) * SessionStorage :=
  match getAccountData env now username st with
  | (Some (Account accountData), st') => (Some (tweets accountData), st')
  | (Some (Inherited _), st') => (None, st')
  | (None, st') => (Some [], st')
  end.

(** [hasRecentAccountData], [maxAgeHours] in whole hours (2 by default);
    [None] is the [TypeError] of reading [collectionTime] of the
    [collectionMetadata] that something inherited does not have. *)
Definition hasRecentAccountData (env : Platform) (now : Z) (username : string)
  (maxAgeHours : Z) (st : SessionStorage) : option bool * SessionStorage :=
  match getAccountData env now username st with
  | (None, st') => (Some false, st')
  | (Some (Inherited _), st') => (None, st')
  | (Some (Account accountData), st') =>
    let maxAge := maxAgeHours * 60 * 60 * 1000 in
    (Some (now - collectionTime accountData <? maxAge), st')
  end.

(** One row of [getCacheStats().accounts]. *)
Record AccountRow := mkRow {
  row_username : string;
  tweetsCount : nat;
  row_timeSpanDays : Z;
  row_collectionTime : Z
}.

(** The object [getCacheStats] returns; [cacheSizeKB] is the number in
    front of ["KB"], [stats_lastUpdated] is [None] for ['Never']. *)
Record CacheStats := mkStats {
  stats_isValid : bool;
  stats_totalAccounts : nat;
  stats_totalTweets : nat;
  cacheSizeKB : Z;
  stats_lastUpdated : option Z;
  stats_accounts : list AccountRow
}.

(** [Math.round(bytes / 1024)] on a non-negative integer. *)
Definition round_kb (bytes : Z) : Z := (bytes + 512) / 1024.

(** [getCacheStats]; the text read back under [CACHE_KEY] is the one
    [allData] was decompressed from, so its size is [dataSize allData]. *)
Definition getCacheStats (env : Platform) (now : Z) (st : SessionStorage)
  : CacheStats * SessionStorage :=
  match getAllData env now st with
  | (None, st') => (mkStats false 0 0 0 None [], st')
  | (Some allData, st') =>
    (mkStats true
             (totalAccounts (globalMetadata allData))
             (totalTweets (globalMetadata allData))
             (round_kb (dataSize allData))
             (Some (lastUpdated (globalMetadata allData)))
             (map (fun entry =>
                     mkRow (fst entry)
                           (List.length (tweets (snd entry)))
                           (timeSpanDays (snd entry))
                           (collectionTime (snd entry)))
                  (accounts allData)),
     st')
  end.

End MaximizedTwitterCache.

(** * Properties of the collection service *)

Section TwitterServiceV2_properties.
Import TwitterServiceV2.
Local Open Scope js_scope.

Lemma fatal_not_429 (e : ApiError) :
  fatal_code e = true -> code_is e 429 = false.
Proof.
  unfold fatal_code, code_is. destruct (code e) as [c|]; [|discriminate].
  intros H. apply Z.eqb_neq. intros ->. discriminate H.
Qed.

Lemma fatal_cases (e : ApiError) :
  fatal_code e = true ->
  code_is e 401 || code_is e 403 = true \/
  (code_is e 401 || code_is e 403 = false /\ code_is e 404 = true).
Proof.
  unfold fatal_code. destruct (code_is e 401 || code_is e 403); simpl; auto.
Qed.

(** ** throttleRequest *)

(** Claim C2, as stated, fails: in the burst started at [t0], 99 calls
    complete within the two milliseconds around the window reset, hence
    within one interval of fifteen minutes, which is more than the 50 of
    [MAX_REQUESTS_PER_15_MINUTES]. *)
Lemma burst_exceeds_rolling_quota :
  schedule_ok (mkWindow 0 0) 0 (burst t0)
  /\ completions_within (t0 + fifteenMinutes - 1) fifteenMinutes
       (snd (acquire_all (mkWindow 0 0) (burst t0))) = 99%nat
  /\ (Z.to_nat MAX_REQUESTS_PER_15_MINUTES < 99)%nat.
Proof.
  split; [|split].
  - vm_compute. repeat split; discriminate.
  - vm_compute. reflexivity.
  - vm_compute. lia.
Qed.

Lemma completions_within_app (t len : Z) (a b : list Z) :
  completions_within t len (a ++ b)
  = (completions_within t len a + completions_within t len b)%nat.
Proof.
  unfold completions_within. rewrite filter_app, length_app. reflexivity.
Qed.

Lemma completions_within_le (t len : Z) (a : list Z) :
  (completions_within t len a <= List.length a)%nat.
Proof. unfold completions_within. apply filter_length_le. Qed.

Lemma completions_within_none (t len : Z) (a : list Z) :
  Forall (fun x => x < t) a -> completions_within t len a = 0%nat.
Proof.
  unfold completions_within. induction 1 as [|x a Hx _ IH]; [reflexivity|].
  cbn [filter]. unfold in_interval at 1.
  replace (t <=? x) with false by (symmetry; apply Z.leb_gt; exact Hx).
  exact IH.
Qed.

Lemma completions_within_rev (t len : Z) (a : list Z) :
  completions_within t len (rev a) = completions_within t len a.
Proof.
  induction a as [|x a IH]; [reflexivity|].
  cbn [rev]. rewrite completions_within_app, IH.
  unfold completions_within. cbn [filter].
  destruct (in_interval t len x); cbn [List.length]; lia.
Qed.

(** A new completion [done] at the start of a fresh window. *)
Lemma window_inv_fresh :
  forall s last past done,
    window_inv s last past ->
    0 < done ->
    windowStart s <> 0 ->
    windowStart s + fifteenMinutes <= done ->
    window_inv (mkWindow 1 done) done (done :: past).
Proof.
  intros s last past done
    (cur & prev & older & Hpast & Hcount & Hmax & Hprev & Hcur & Hp & Ho & Hlast
     & Hzero & Hnonneg)
    Hpos Hstarted Hnext.
  exists [done], cur, (prev ++ older)%list.
  unfold MAX_REQUESTS_PER_15_MINUTES, fifteenMinutes in *.
  cbn [count windowStart List.length].
  repeat split.
  - rewrite Hpast. reflexivity.
  - lia.
  - apply Nat2Z.inj_le. rewrite Hcount. exact Hmax.
  - constructor; [lia | constructor].
  - eapply Forall_impl; [|exact Hcur]. cbv beta. intros x Hx. lia.
  - apply Forall_app. split.
    + eapply Forall_impl; [|exact Hp]. cbv beta. intros x Hx. lia.
    + eapply Forall_impl; [|exact Ho]. cbv beta. intros x Hx. lia.
  - lia.
  - intros ->. lia.
  - lia.
Qed.

Lemma throttle_step_inv :
  forall s last past now late,
    window_inv s last past ->
    0 < now -> last <= now -> 0 <= late ->
    forall s' done slept,
      throttle_step s now late = (s', done, slept) ->
      window_inv s' done (done :: past) /\ last <= done.
Proof.
  intros s last past now late Hinv Hpos Hlast Hlate s' done slept.
  pose proof Hinv as
    (cur & prev & older & Hpast & Hcount & Hmax & Hprev & Hcur & Hp & Ho & Hws
     & Hzero & Hnonneg).
  unfold throttle_step.
  destruct (windowStart s =? 0) eqn:Hinit.
  - (* the very first call *)
    apply Z.eqb_eq in Hinit. specialize (Hzero Hinit). subst past.
    destruct cur; [|discriminate]. destruct prev; [|discriminate].
    destruct older; [|discriminate]. cbn [List.length Z.of_nat] in Hcount.
    cbn [count windowStart]. rewrite Z.sub_diag.
    change (0 >=? fifteenMinutes) with false. cbn [count windowStart].
    rewrite <- Hcount.
    change (0 >=? MAX_REQUESTS_PER_15_MINUTES) with false.
    intros H. apply pair_equal_spec in H as [H _].
        apply pair_equal_spec in H as [<- <-]. split; [|exact Hlast].
    exists [now], [], [].
    unfold MAX_REQUESTS_PER_15_MINUTES, fifteenMinutes.
    cbn [count windowStart List.length app].
    repeat split; repeat constructor; try lia.
  - apply Z.eqb_neq in Hinit.
    destruct (now - windowStart s >=? fifteenMinutes) eqn:Hreset.
    + (* the window has run out: reset it *)
      cbn [count windowStart].
      change (0 >=? MAX_REQUESTS_PER_15_MINUTES) with false.
      intros H. apply pair_equal_spec in H as [H _].
        apply pair_equal_spec in H as [<- <-]. split; [|exact Hlast].
      apply (window_inv_fresh s last past now Hinv Hpos Hinit).
      apply Z.geb_le in Hreset. lia.
    + destruct (count s >=? MAX_REQUESTS_PER_15_MINUTES) eqn:Hfull.
      * (* the quota is used up: sleep to the end of the window *)
        intros H. apply pair_equal_spec in H as [H _].
        apply pair_equal_spec in H as [<- <-].
        rewrite Z.geb_leb in Hreset. apply Z.leb_gt in Hreset.
        split.
        -- apply (window_inv_fresh s last past _ Hinv); [| exact Hinit |];
             unfold fifteenMinutes in *; lia.
        -- unfold fifteenMinutes in *. lia.
      * (* one more request in the current window *)
        intros H. apply pair_equal_spec in H as [H _].
        apply pair_equal_spec in H as [<- <-]. split; [|exact Hlast].
        rewrite Z.geb_leb in Hreset, Hfull.
        apply Z.leb_gt in Hreset. apply Z.leb_gt in Hfull.
        exists (now :: cur), prev, older.
        cbn [count windowStart List.length].
        repeat split; try assumption.
        -- rewrite Hpast. reflexivity.
        -- lia.
        -- lia.
        -- constructor; [lia | exact Hcur].
        -- lia.
        -- intros E. contradiction.
Qed.

(** With the latest completion inside the interval, the interval reaches
    back over the current window and the one before it only. *)
Lemma rolling_step :
  forall s done past,
    window_inv s done (done :: past) ->
    (forall t, (completions_within t fifteenMinutes past <= 100)%nat) ->
    forall t, (completions_within t fifteenMinutes (done :: past) <= 100)%nat.
Proof.
  intros s done past
    (cur & prev & older & Hpast & Hcount & Hmax & Hprev & Hcur & Hp & Ho & Hws
     & _ & _) Hold t.
  destruct (in_interval t fifteenMinutes done) eqn:Hin.
  - rewrite Hpast, !completions_within_app.
    pose proof (completions_within_le t fifteenMinutes cur) as Hc.
    pose proof (completions_within_le t fifteenMinutes prev) as Hpv.
    assert (Hnone : completions_within t fifteenMinutes older = 0%nat).
    { apply completions_within_none.
      eapply Forall_impl; [|exact Ho]. cbv beta. intros x Hx.
      unfold in_interval in Hin. apply andb_true_iff in Hin as [_ Hin].
      apply Z.leb_le in Hin. lia. }
    unfold MAX_REQUESTS_PER_15_MINUTES in Hmax. lia.
  - unfold completions_within. cbn [filter]. rewrite Hin. apply Hold.
Qed.

Lemma acquire_all_inv :
  forall sched s last past,
    window_inv s last past ->
    (forall t, (completions_within t fifteenMinutes past <= 100)%nat) ->
    schedule_ok s last sched ->
    exists last',
      window_inv (fst (acquire_all s sched)) last'
                 (rev (snd (acquire_all s sched)) ++ past)
      /\ forall t,
          (completions_within t fifteenMinutes
             (rev (snd (acquire_all s sched)) ++ past) <= 100)%nat.
Proof.
  induction sched as [|[now late] rest IH]; intros s last past Hinv Hroll Hok.
  - exists last. split; assumption.
  - cbn [schedule_ok] in Hok. destruct Hok as (Hpos & Hlast & Hlate & Hrest).
    cbn [acquire_all].
    destruct (throttle_step s now late) as [[s' done] slept] eqn:Hstep.
    destruct (throttle_step_inv s last past now late Hinv Hpos Hlast Hlate
                _ _ _ Hstep) as [Hinv' _].
    pose proof (rolling_step s' done past Hinv' Hroll) as Hroll'.
    destruct (IH s' done (done :: past) Hinv' Hroll' Hrest) as [last' [Hi Hr]].
    destruct (acquire_all s' rest) as [sf ds].
    cbn [fst snd rev] in *. rewrite <- app_assoc. cbn [app].
    exists last'. split; assumption.
Qed.

(** Claim C2, amended.  The throttle counts requests per fixed window,
    not per rolling interval: for every sequence of [throttleRequest]
    calls made one after the other, the counter never exceeds 50, so that
    at most 50 calls complete between two resets of the window, and the
    number of calls that complete within any interval of fifteen minutes
    never exceeds twice 50. *)
Theorem throttle_fixed_window_bound :
  forall sched : list (Z * Z),
    schedule_ok (mkWindow 0 0) 0 sched ->
    count (fst (acquire_all (mkWindow 0 0) sched)) <= MAX_REQUESTS_PER_15_MINUTES
    /\ forall t,
        (completions_within t fifteenMinutes
           (snd (acquire_all (mkWindow 0 0) sched))
         <= 2 * Z.to_nat MAX_REQUESTS_PER_15_MINUTES)%nat.
Proof.
  intros sched Hok.
  assert (Hinit : window_inv (mkWindow 0 0) 0 []).
  { exists [], [], []. unfold MAX_REQUESTS_PER_15_MINUTES.
    cbn [count windowStart List.length app Z.of_nat].
    repeat split; repeat constructor; try lia. }
  destruct (acquire_all_inv sched _ _ [] Hinit (fun _ => Nat.le_0_l _) Hok)
    as [last' [Hinv Hroll]].
  split.
  - destruct Hinv as (cur & prev & older & _ & _ & Hmax & _). exact Hmax.
  - intros t. specialize (Hroll t).
    rewrite app_nil_r, completions_within_rev in Hroll. exact Hroll.
Qed.

Lemma throttle_fixed_window_bound_witness :
  count (fst (acquire_all (mkWindow 0 0) (burst t0))) <= MAX_REQUESTS_PER_15_MINUTES
  /\ (completions_within (t0 + fifteenMinutes - 1) fifteenMinutes
        (snd (acquire_all (mkWindow 0 0) (burst t0)))
      <= 2 * Z.to_nat MAX_REQUESTS_PER_15_MINUTES)%nat.
Proof.
  destruct (throttle_fixed_window_bound (burst t0)) as [Hcount Hrolling].
  - vm_compute. repeat split; discriminate.
  - split; [exact Hcount | exact (Hrolling (t0 + fifteenMinutes - 1))].
Defined.

(** ** retryWithIntelligentBackoff *)

Lemma retry_from_transient :
  forall (T : Type) (up : Upstream T) (operationName : string)
         (maxRetries k attempt : nat) (lastError : Thrown) (w : World),
    (forall n, exists e, up n = Exn (Error e) /\ transient e = true) ->
    (attempt + k = S maxRetries)%nat ->
    (1 <= k)%nat ->
    exists w',
      retry_from (invoke up) operationName maxRetries k attempt lastError w
        = (up (calls w + k - 1)%nat, w')
      /\ calls w' = (calls w + k)%nat
      /\ sleeps w' = (sleeps w
                      ++ map (fun a => 2000 * Z.of_nat a) (seq attempt (k - 1)))%list
      /\ console_error w' =
           (console_error w
            ++ [("[TwitterAPI] " ++ operationName ++ " failed after "
                 ++ show_nat maxRetries ++ " attempts")%string])%list.
Proof.
  intros T up name maxRetries k.
  induction k as [|k IH]; intros attempt lastError w Hup Hsum Hk; [lia|].
  cbn [retry_from].
  replace (attempt <=? maxRetries)%nat with true
    by (symmetry; apply Nat.leb_le; lia).
  unfold try_catch at 1. unfold invoke at 1.
  destruct (Hup (calls w)) as [e [He Htr]].
  replace (calls w + S k - 1)%nat with (calls w + k)%nat by lia.
  rewrite He.
  unfold transient in Htr. apply andb_true_iff in Htr as [H429 Hfat].
  apply negb_true_iff in H429. apply negb_true_iff in Hfat.
  unfold fatal_code in Hfat. apply orb_false_iff in Hfat as [H4013 H404].
  rewrite H429, H4013, H404.
  destruct k as [|k'].
  - (* the last attempt *)
    assert (attempt = maxRetries) by lia. subst attempt.
    rewrite Nat.ltb_irrefl. unfold throw_if_last. rewrite Nat.eqb_refl.
    unfold bind, log_error, throw.
    eexists. split; [|repeat split].
    + rewrite Nat.add_0_r in *. rewrite <- He. reflexivity.
    + cbn [calls]. lia.
    + cbn [sleeps seq map]. rewrite app_nil_r. reflexivity.
    + reflexivity.
  - replace (attempt <? maxRetries)%nat with true
      by (symmetry; apply Nat.ltb_lt; lia).
    unfold bind at 1. unfold sleep at 1.
    match goal with |- context [retry_from _ _ _ _ _ _ ?w1] =>
      destruct (IH (S attempt) (Error e) w1 Hup ltac:(lia) ltac:(lia))
        as [w' [Hrun [Hcalls [Hsleeps Hlog]]]]
    end.
    cbn [calls sleeps console_error] in *.
    exists w'. split; [|repeat split].
    + rewrite Hrun. f_equal. f_equal. lia.
    + lia.
    + rewrite Hsleeps. rewrite <- app_assoc. cbn [app].
      replace (S (S k') - 1)%nat with (S (S k' - 1)) by lia.
      reflexivity.
    + exact Hlog.
Qed.

(** Claim C7.  Fatal errors are not retried: when the operation fails
    with code 401, 403 or 404, [retryWithIntelligentBackoff] has invoked
    it exactly once, has not slept, and raises that very error, whatever
    the number [maxRetries >= 1] of attempts it was given. *)
Theorem fatal_error_invoked_once :
  forall (T : Type) (up : Upstream T) (operationName : string)
         (maxRetries : nat) (w : World) (e : ApiError),
    (1 <= maxRetries)%nat ->
    up (calls w) = Exn (Error e) ->
    fatal_code e = true ->
    exists w',
      retryWithIntelligentBackoff (invoke up) operationName maxRetries w
        = (Exn (Error e), w')
      /\ calls w' = S (calls w)
      /\ sleeps w' = sleeps w
      /\ clock w' = clock w
      /\ console_error w' = console_error w.
Proof.
  intros T up name maxRetries w e Hmax Hup Hfatal.
  destruct maxRetries as [|m]; [lia|].
  unfold retryWithIntelligentBackoff. cbn [retry_from].
  replace (1 <=? S m)%nat with true by (symmetry; apply Nat.leb_le; lia).
  unfold try_catch, invoke. rewrite Hup.
  rewrite (fatal_not_429 e Hfatal).
  destruct (fatal_cases e Hfatal) as [H | [H1 H2]].
  - rewrite H. unfold throw. eexists. repeat split.
  - rewrite H1, H2. unfold throw. eexists. repeat split.
Qed.

(** An upstream answering 403 to every call, tried with five attempts. *)
Lemma fatal_error_invoked_once_witness :
  exists w',
    retryWithIntelligentBackoff
      (invoke (fun _ => Exn (Error (mkError (Some 403) "Forbidden")) : Outcome Page))
      "userTimeline page 1" 5 (new_service t0)
    = (Exn (Error (mkError (Some 403) "Forbidden")), w')
    /\ calls w' = 1%nat
    /\ sleeps w' = []
    /\ clock w' = t0
    /\ console_error w' = [].
Proof.
  apply (fatal_error_invoked_once Page
           (fun _ => Exn (Error (mkError (Some 403) "Forbidden")))
           "userTimeline page 1" 5 (new_service t0)
           (mkError (Some 403) "Forbidden")).
  - lia.
  - reflexivity.
  - reflexivity.
Defined.

(** Claim C8, as stated, fails: after two failed attempts the error that
    is raised is the one the operation threw, and its message names
    neither the attempt count nor the operation. *)
Lemma exhausted_error_not_annotated :
  fst (retryWithIntelligentBackoff (invoke always_500)
         "userTimeline page 1" 2 (new_service t0))
    = Exn (Error (mkError (Some 500) "Internal Server Error"))
  /\ annotated 2 "userTimeline page 1"
       (mkError (Some 500) "Internal Server Error") = false.
Proof. split; vm_compute; reflexivity. Qed.

(** Claim C8, amended.  Retry exhaustion: when every invocation of the
    operation raises a transient error (no code 429, 401, 403 or 404),
    [retryWithIntelligentBackoff] with [maxRetries >= 1] invokes it exactly
    [maxRetries] times, sleeps [2000 * attempt] after each attempt but the
    last, and then raises the error of the last invocation as it is; the
    attempt count and the operation name go to one [console.error] line
    only. *)
Theorem retry_exhaustion :
  forall (T : Type) (up : Upstream T) (operationName : string)
         (maxRetries : nat) (w : World),
    (1 <= maxRetries)%nat ->
    (forall n, exists e, up n = Exn (Error e) /\ transient e = true) ->
    exists w',
      retryWithIntelligentBackoff (invoke up) operationName maxRetries w
        = (up (calls w + maxRetries - 1)%nat, w')
      /\ calls w' = (calls w + maxRetries)%nat
      /\ sleeps w' = (sleeps w
                      ++ map (fun a => 2000 * Z.of_nat a) (seq 1 (maxRetries - 1)))%list
      /\ console_error w' =
           (console_error w
            ++ [("[TwitterAPI] " ++ operationName ++ " failed after "
                 ++ show_nat maxRetries ++ " attempts")%string])%list.
Proof.
  intros T up name maxRetries w Hmax Hup.
  unfold retryWithIntelligentBackoff.
  apply retry_from_transient; [exact Hup | lia | lia].
Qed.

Lemma retry_exhaustion_witness :
  exists w',
    retryWithIntelligentBackoff (invoke always_500) "userTimeline page 1" 4
      (new_service t0)
      = (always_500 (0 + 4 - 1)%nat, w')
    /\ calls w' = (0 + 4)%nat
    /\ sleeps w' = ([] ++ map (fun a => 2000 * Z.of_nat a) (seq 1 (4 - 1)))%list
    /\ console_error w' =
         ([] ++ [("[TwitterAPI] " ++ "userTimeline page 1" ++ " failed after "
                  ++ show_nat 4 ++ " attempts")%string])%list.
Proof.
  apply (retry_exhaustion Page always_500 "userTimeline page 1" 4
           (new_service t0)).
  - lia.
  - intros n. exists (mkError (Some 500) "Internal Server Error").
    split; reflexivity.
Defined.

(** ** The collection loop *)

Lemma throttleRequest_returns (w : World) :
  exists w1,
    throttleRequest w = (Val tt, w1)
    /\ calls w1 = calls w
    /\ console_error w1 = console_error w.
Proof.
  unfold throttleRequest.
  destruct (throttle_step _ _ _) as [[s' done] slept].
  eexists. repeat split.
Qed.

(** A pass whose request fails with something else than 429. *)
Lemma iteration_other_error :
  forall cfg up l w e w',
    fetch_page up l w = (Exn (Error e), w') ->
    code_is e 429 = false ->
    exists w'',
      iteration cfg up l w
        = (Val (let l1 := push_error ("Page " ++ show_nat (pagesProcessed l + 1)
                                      ++ ": " ++ message e) l in
                if (0 <? List.length (allTweets l))%nat then stop l1 else l1,
                Break), w'')
      /\ calls w'' = calls w'.
Proof.
  intros cfg up l w e w' Hfetch H429.
  unfold iteration, try_catch, bind at 1. rewrite Hfetch.
  unfold on_error. rewrite H429.
  unfold bind, log_error, ret. cbn [allTweets push_error].
  destruct (0 <? List.length (allTweets l))%nat; eexists; split; reflexivity.
Qed.

(** A pass whose request fails with 429 while nothing is collected yet:
    the counter is bumped, the line recorded, five seconds slept, and
    control goes to the loop condition with [pagesProcessed] and
    [nextToken] as they were. *)
Lemma iteration_rate_limited_no_data :
  forall cfg up l w e w',
    fetch_page up l w = (Exn (Error e), w') ->
    code_is e 429 = true ->
    allTweets l = [] ->
    iteration cfg up l w
      = (Val (push_error ("Rate limit on page " ++ show_nat (pagesProcessed l + 1))
                (mkLocals [] (allMediaIncludes l) (errors l) (nextToken l)
                          (pagesProcessed l) (S (rateLimitHits l))
                          (hasMoreData l) (shouldStop l)
                          (consecutiveEmptyPages l)),
              ToCondition),
         mkWorld (clock w' + 5000) (requestCount w') (windowStartTime w')
                 (calls w') (sleeps w' ++ [5000]) (console_error w')).
Proof.
  intros cfg up l w e w' Hfetch H429 Hnone.
  unfold iteration, try_catch, bind at 1. rewrite Hfetch.
  unfold on_error. rewrite H429. cbn [allTweets push_error].
  rewrite Hnone. cbn [List.length Nat.ltb Nat.leb].
  reflexivity.
Qed.

(** Running on from a loop head. *)
Lemma do_while_from_loop_head :
  forall cfg up n k l w l' w',
    loop_head cfg up n l w = Some (l', w') ->
    do_while cfg up (n + k) l w = do_while cfg up k l' w'.
Proof.
  intros cfg up n. induction n as [|n IH]; intros k l w l' w' H.
  - cbn in H. injection H as -> ->. reflexivity.
  - cbn [loop_head] in H. cbn [Nat.add do_while].
    destruct (iteration cfg up l w) as [[[l1 [|]]|t] w1]; try discriminate.
    destruct (loop_condition cfg l1); [|discriminate].
    apply IH. exact H.
Qed.

Lemma assemble_tweets (username : string) (now : Z) (l : Locals) :
  tweets (assemble username now l)
    = map (process_tweet username (allMediaIncludes l) now) (allTweets l).
Proof. unfold assemble. destruct (js_sort _ _); reflexivity. Qed.

Lemma assemble_metadata (username : string) (now : Z) (l : Locals) :
  totalCollected (metadata (assemble username now l)) = List.length (allTweets l)
  /\ meta_pagesProcessed (metadata (assemble username now l)) = pagesProcessed l
  /\ meta_rateLimitHits (metadata (assemble username now l)) = rateLimitHits l
  /\ meta_errors (metadata (assemble username now l)) = errors l.
Proof. unfold assemble. destruct (js_sort _ _); repeat split. Qed.

(** The only thing that escapes a pass through the body is the
    [TypeError] of its own catch block. *)
Lemma iteration_escape :
  forall cfg up l w t w',
    iteration cfg up l w = (Exn t, w') -> t = type_error "code".
Proof.
  intros cfg up l w t w'. unfold iteration, try_catch, bind at 1.
  destruct (fetch_page up l w) as [[p|t0] w1].
  - unfold ret. discriminate.
  - unfold on_error. destruct t0 as [|e].
    + unfold throw. intros H. injection H as <- _. reflexivity.
    + destruct (code_is e 429).
      * cbn [allTweets push_error].
        destruct (0 <? _)%nat; unfold bind, sleep, ret; discriminate.
      * unfold bind, log_error, ret. cbn [allTweets push_error].
        destruct (0 <? _)%nat; discriminate.
Qed.

Lemma do_while_escape :
  forall cfg up fuel l w l' t w',
    do_while cfg up fuel l w = Some (Escaped l' t, w') -> t = type_error "code".
Proof.
  intros cfg up fuel. induction fuel as [|fuel IH]; intros l w l' t w' H.
  - discriminate.
  - cbn [do_while] in H.
    destruct (iteration cfg up l w) as [[[l1 [|]]|t1] w1] eqn:Hit.
    + discriminate.
    + destruct (loop_condition cfg l1); [eauto | discriminate].
    + injection H as _ <- _. eapply iteration_escape; eassumption.
Qed.

(** Whatever the upstream does, a run that ends, ends by returning. *)
Lemma collect_returns :
  forall cfg up fuel userId username w o w',
    collect cfg up fuel userId username w = Some (o, w') ->
    exists r, o = Val r.
Proof.
  intros cfg up fuel userId username w o w'.
  unfold collect, collect_loop.
  destruct (do_while cfg up fuel initial_locals w) as [[[l|l t] w1]|] eqn:Hloop.
  - intros H. injection H as <- _. eauto.
  - apply do_while_escape in Hloop. subst t.
    unfold on_global_error, type_error, bind, log_error, ret.
    intros H. injection H as <- _. eauto.
  - discriminate.
Qed.

(** A run whose loop is left by [break] with locals [l']. *)
Lemma collect_of_break :
  forall cfg up n fuel userId username w0 l w l' w',
    loop_head cfg up n initial_locals w0 = Some (l, w) ->
    iteration cfg up l w = (Val (l', Break), w') ->
    collect cfg up (n + S fuel) userId username w0
      = Some (Val (assemble username (clock w') l'), w').
Proof.
  intros cfg up n fuel userId username w0 l w l' w' Hhead Hit.
  unfold collect, collect_loop.
  rewrite (do_while_from_loop_head _ _ _ _ _ _ _ _ Hhead).
  cbn [do_while]. rewrite Hit. reflexivity.
Qed.

(** Claim C1.  No data loss on late failure: take any run of
    [maximizeUserTweetCollection] that is at the head of its loop with
    [N > 0] tweets accumulated, and whose next page request raises an
    error other than 429 out of the retry wrapper.  The call returns
    normally, with exactly those [N] tweets, [totalCollected = N], and the
    error in [metadata.errors]. *)
Theorem no_data_loss_on_late_failure :
  forall (up : Upstream Page) (userId username : string) (w0 : World)
         (n : nat) (l : Locals) (w : World) (e : ApiError) (w' : World)
         (N fuel : nat),
    loop_head source_config up n initial_locals w0 = Some (l, w) ->
    List.length (allTweets l) = N ->
    (0 < N)%nat ->
    fetch_page up l w = (Exn (Error e), w') ->
    code_is e 429 = false ->
    exists r w'',
      maximizeUserTweetCollection up (n + S fuel) userId username w0
        = Some (Val r, w'')
      /\ List.length (tweets r) = N
      /\ map tweet (tweets r) = allTweets l
      /\ totalCollected (metadata r) = N
      /\ In ("Page " ++ show_nat (pagesProcessed l + 1) ++ ": " ++ message e)%string
            (meta_errors (metadata r)).
Proof.
  intros up userId username w0 n l w e w' N fuel Hhead HN Hpos Hfetch H429.
  destruct (iteration_other_error source_config up l w e w' Hfetch H429)
    as [w'' [Hit _]].
  replace (0 <? List.length (allTweets l))%nat with true in Hit
    by (symmetry; apply Nat.ltb_lt; lia).
  cbv zeta in Hit.
  unfold maximizeUserTweetCollection.
  rewrite (collect_of_break _ _ _ fuel userId username _ _ _ _ _ Hhead Hit).
  eexists. eexists. split; [reflexivity|].
  rewrite assemble_tweets.
  destruct (assemble_metadata username (clock w'')
              (stop (push_error ("Page " ++ show_nat (pagesProcessed l + 1)
                                 ++ ": " ++ message e) l)))
    as [Htot [_ [_ Herr]]].
  rewrite Htot, Herr. cbn [stop push_error allTweets errors].
  repeat split.
  - rewrite length_map. exact HN.
  - rewrite map_map. cbn [process_tweet tweet]. apply map_id.
  - exact HN.
  - apply in_or_app. right. left. reflexivity.
Qed.

Lemma no_data_loss_on_late_failure_witness :
  exists r w'',
    maximizeUserTweetCollection late_failure (1 + 1) "1" "bob" (new_service t0)
      = Some (Val r, w'')
    /\ List.length (tweets r) = 2%nat
    /\ map tweet (tweets r) = [tweet_a; tweet_b]
    /\ totalCollected (metadata r) = 2%nat
    /\ In "Page 2: Internal Server Error" (meta_errors (metadata r)).
Proof.
  exact (no_data_loss_on_late_failure late_failure "1" "bob" (new_service t0) 1
           (mkLocals [tweet_a; tweet_b] [] [] (Some "token-1") 1 0 true false 0)
           (mkWorld t0 1 t0 1 [] [])
           (mkError (Some 500) "Internal Server Error")
           (mkWorld (t0 + 2000) 2 t0 3 [2000]
                    ["[TwitterAPI] userTimeline page 2 failed after 2 attempts"])
           2 0 eq_refl eq_refl ltac:(lia) eq_refl eq_refl).
Defined.

(** Claim C4, as stated, fails: with no tweet collected and a fatal error
    (401) on the first page, nothing is propagated; the caller gets an
    empty result. *)
Lemma total_failure_returns_empty_result :
  exists r w',
    maximizeUserTweetCollection always_401 1 "1" "bob" (new_service t0)
      = Some (Val r, w')
    /\ tweets r = []
    /\ meta_errors (metadata r) = ["Page 1: Unauthorized"].
Proof. eexists. eexists. vm_compute. repeat split. Qed.

(** Claim C4, amended.  A run of [maximizeUserTweetCollection] never
    propagates an exception: whenever it ends, it ends by returning a
    result.  In particular, when no tweet has been accumulated and a page
    request raises an error other than 429, the call returns normally
    with an empty [tweets] array, [totalCollected = 0] and the error
    recorded in [metadata.errors]. *)
Theorem collector_never_propagates :
  forall (up : Upstream Page) (userId username : string) (w0 : World),
    (forall fuel o w',
        maximizeUserTweetCollection up fuel userId username w0 = Some (o, w') ->
        exists r, o = Val r)
    /\
    (forall n l w e w' fuel,
        loop_head source_config up n initial_locals w0 = Some (l, w) ->
        allTweets l = [] ->
        fetch_page up l w = (Exn (Error e), w') ->
        code_is e 429 = false ->
        exists r w'',
          maximizeUserTweetCollection up (n + S fuel) userId username w0
            = Some (Val r, w'')
          /\ tweets r = []
          /\ totalCollected (metadata r) = 0%nat
          /\ In ("Page " ++ show_nat (pagesProcessed l + 1) ++ ": " ++ message e)%string
                (meta_errors (metadata r))).
Proof.
  intros up userId username w0. split.
  - intros fuel o w'. apply collect_returns.
  - intros n l w e w' fuel Hhead Hnone Hfetch H429.
    destruct (iteration_other_error source_config up l w e w' Hfetch H429)
      as [w'' [Hit _]].
    rewrite Hnone in Hit. cbn [List.length Nat.ltb Nat.leb] in Hit.
    cbv zeta in Hit.
    unfold maximizeUserTweetCollection.
    rewrite (collect_of_break _ _ _ fuel userId username _ _ _ _ _ Hhead Hit).
    eexists. eexists. split; [reflexivity|].
    rewrite assemble_tweets.
    destruct (assemble_metadata username (clock w'')
                (push_error ("Page " ++ show_nat (pagesProcessed l + 1)
                             ++ ": " ++ message e) l))
      as [Htot [_ [_ Herr]]].
    rewrite Htot, Herr. cbn [push_error allTweets errors].
    rewrite Hnone. repeat split.
    apply in_or_app. right. left. reflexivity.
Qed.

Lemma collector_never_propagates_witness :
  (exists r w',
      maximizeUserTweetCollection always_401 1 "1" "bob" (new_service t0)
      = Some (Val r, w'))
  /\
  (exists r w'',
      maximizeUserTweetCollection always_401 (0 + 1) "1" "bob" (new_service t0)
        = Some (Val r, w'')
      /\ tweets r = []
      /\ totalCollected (metadata r) = 0%nat
      /\ In "Page 1: Unauthorized" (meta_errors (metadata r))).
Proof.
  destruct (collector_never_propagates always_401 "1" "bob" (new_service t0))
    as [Hreturns Hempty].
  split.
  - destruct (maximizeUserTweetCollection always_401 1 "1" "bob" (new_service t0))
      as [[o w']|] eqn:Hrun.
    + destruct (Hreturns 1%nat o w' Hrun) as [r ->]. exists r, w'. reflexivity.
    + vm_compute in Hrun. discriminate Hrun.
  - exact (Hempty 0%nat initial_locals (new_service t0)
             (mkError (Some 401) "Unauthorized")
             (mkWorld t0 1 t0 1 [] []) 0%nat eq_refl eq_refl eq_refl eq_refl).
Defined.

(** A 429 without data, at a loop head whose condition holds, does go
    on to another request. *)
Lemma rate_limit_with_token_continues :
  forall cfg up l w e w' fuel,
    fetch_page up l w = (Exn (Error e), w') ->
    code_is e 429 = true ->
    allTweets l = [] ->
    loop_condition cfg l = true ->
    exists l1 w1,
      do_while cfg up (S fuel) l w = do_while cfg up fuel l1 w1
      /\ calls w1 = calls w'
      /\ pagesProcessed l1 = pagesProcessed l
      /\ rateLimitHits l1 = S (rateLimitHits l).
Proof.
  intros cfg up l w e w' fuel Hfetch H429 Hnone Hcond.
  cbn [do_while].
  rewrite (iteration_rate_limited_no_data cfg up l w e w' Hfetch H429 Hnone).
  unfold loop_condition in *. cbn [push_error nextToken pagesProcessed shouldStop].
  rewrite Hcond. eexists. eexists. split; [reflexivity|]. repeat split.
Qed.

(** Claim C6.  What the code does when the very first page request comes
    out of the retry wrapper with a 429: [rateLimitHits] becomes 1, the
    line is recorded, five seconds are slept, and then the run is over.
    [continue] takes control to the loop condition, where [nextToken] is
    still undefined, so no further request is made and the caller gets an
    empty result. *)
Theorem first_page_rate_limit_ends_run :
  forall (up : Upstream Page) (userId username : string)
         (w : World) (e : ApiError) (w' : World) (fuel : nat),
    fetch_page up initial_locals w = (Exn (Error e), w') ->
    code_is e 429 = true ->
    exists r w'',
      maximizeUserTweetCollection up (S fuel) userId username w
        = Some (Val r, w'')
      /\ calls w'' = calls w'
      /\ sleeps w'' = (sleeps w' ++ [5000])%list
      /\ tweets r = []
      /\ meta_rateLimitHits (metadata r) = 1%nat
      /\ meta_pagesProcessed (metadata r) = 0%nat
      /\ meta_errors (metadata r) = ["Rate limit on page 1"].
Proof.
  intros up userId username w e w' fuel Hfetch H429.
  unfold maximizeUserTweetCollection, collect, collect_loop.
  cbn [do_while].
  rewrite (iteration_rate_limited_no_data source_config up initial_locals
             w e w' Hfetch H429 eq_refl).
  cbn [loop_condition push_error nextToken truthy andb initial_locals].
  eexists. eexists. split; [reflexivity|].
  rewrite assemble_tweets.
  match goal with |- context [assemble ?u ?t ?l] =>
    destruct (assemble_metadata u t l) as [_ [Hpages [Hhits Herr]]]
  end.
  rewrite Hpages, Hhits, Herr. repeat split.
Qed.

Lemma first_page_rate_limit_ends_run_witness :
  exists r w'',
    maximizeUserTweetCollection always_429 (S 9) "1" "bob" (new_service t0)
      = Some (Val r, w'')
    /\ calls w'' = 2%nat
    /\ sleeps w'' = [3000; 5000]
    /\ tweets r = []
    /\ meta_rateLimitHits (metadata r) = 1%nat
    /\ meta_pagesProcessed (metadata r) = 0%nat
    /\ meta_errors (metadata r) = ["Rate limit on page 1"].
Proof.
  exact (first_page_rate_limit_ends_run always_429 "1" "bob" (new_service t0)
           (mkError (Some 429) "Too Many Requests")
           (mkWorld (t0 + 3000) 1 t0 2 [3000]
                    ["[TwitterAPI] userTimeline page 1 failed after 2 attempts"])
           9 eq_refl eq_refl).
Defined.

(** ** The target count *)

Lemma fetch_page_first_try :
  forall up l w p,
    up (calls w) = Val p ->
    exists w', fetch_page up l w = (Val p, w') /\ calls w' = S (calls w).
Proof.
  intros up l w p Hup.
  destruct (throttleRequest_returns w) as [w1 [Hthr [Hcalls _]]].
  unfold fetch_page, bind at 1. rewrite Hthr.
  unfold retryWithIntelligentBackoff. cbn [retry_from Nat.leb].
  unfold try_catch, invoke. rewrite Hcalls, Hup.
  eexists. split; reflexivity.
Qed.

Lemma iteration_page :
  forall cfg up l w p w',
    fetch_page up l w = (Val p, w') ->
    iteration cfg up l w = (Val (on_response cfg p l), w').
Proof.
  intros cfg up l w p w' Hfetch.
  unfold iteration, try_catch, bind at 1. rewrite Hfetch. reflexivity.
Qed.

Lemma on_response_below_target :
  forall cfg p l,
    data p <> [] ->
    (List.length (allTweets l) + List.length (data p) < targetTweetCount cfg)%nat ->
    on_response cfg p l = (advance p (accumulate p l), ToCondition).
Proof.
  intros cfg p l Hdata Hlt. unfold on_response.
  destruct (data p) as [|x xs] eqn:E; [contradiction|].
  cbv zeta. unfold accumulate at 1. cbn [allTweets]. rewrite E.
  rewrite length_app.
  replace (targetTweetCount cfg <=? _)%nat with false
    by (symmetry; apply Nat.leb_gt; exact Hlt).
  reflexivity.
Qed.

Lemma on_response_reaches_target :
  forall cfg p l,
    data p <> [] ->
    (targetTweetCount cfg <= List.length (allTweets l) + List.length (data p))%nat ->
    on_response cfg p l = (stop (accumulate p l), Break).
Proof.
  intros cfg p l Hdata Hle. unfold on_response.
  destruct (data p) as [|x xs] eqn:E; [contradiction|].
  cbv zeta. unfold accumulate at 1. cbn [allTweets]. rewrite E.
  rewrite length_app.
  replace (targetTweetCount cfg <=? _)%nat with true
    by (symmetry; apply Nat.leb_le; exact Hle).
  reflexivity.
Qed.

(** A pass that comes back to the loop condition either left [allTweets]
    alone or left it below the target. *)
Lemma iteration_to_condition :
  forall cfg up l w l' w',
    iteration cfg up l w = (Val (l', ToCondition), w') ->
    allTweets l' = allTweets l
    \/ (List.length (allTweets l') < targetTweetCount cfg)%nat.
Proof.
  intros cfg up l w l' w'. unfold iteration, try_catch, bind at 1.
  destruct (fetch_page up l w) as [[p|t] w1].
  - unfold ret, on_response. destruct (data p) as [|x xs] eqn:E; cbv zeta.
    + destruct (maxEmptyPages cfg <=? _)%nat; intros H; [discriminate|].
      injection H as <- _. left. reflexivity.
    + destruct (targetTweetCount cfg <=? _)%nat eqn:Hcmp; intros H; [discriminate|].
      injection H as <- _. right. apply Nat.leb_gt in Hcmp. exact Hcmp.
  - unfold on_error. destruct t as [|e]; [unfold throw; discriminate|].
    destruct (code_is e 429).
    + cbn [allTweets push_error].
      destruct (0 <? _)%nat; unfold bind, sleep, ret; intros H; [discriminate|].
      injection H as <- _. left. reflexivity.
    + unfold bind, log_error, ret. cbn [allTweets push_error].
      destruct (0 <? _)%nat; discriminate.
Qed.

Lemma loop_head_below_target :
  forall cfg up n l w l' w',
    loop_head cfg up n l w = Some (l', w') ->
    (List.length (allTweets l) < targetTweetCount cfg)%nat ->
    (List.length (allTweets l') < targetTweetCount cfg)%nat.
Proof.
  intros cfg up n. induction n as [|n IH]; intros l w l' w' H Hlt.
  - cbn in H. injection H as <- _. exact Hlt.
  - cbn [loop_head] in H.
    destruct (iteration cfg up l w) as [[[l1 [|]]|t] w1] eqn:Hit; try discriminate.
    destruct (loop_condition cfg l1); [|discriminate].
    apply (IH _ _ _ _ H).
    destruct (iteration_to_condition _ _ _ _ _ _ Hit) as [Hsame | Hbelow].
    + rewrite Hsame. exact Hlt.
    + exact Hbelow.
Qed.

(** The scenario: three full pages against a target of 250. *)
Lemma three_pages_of_100 :
  forall (up : Upstream Page) (userId username : string) (w : World)
         (p0 p1 p2 : Page) (fuel : nat),
    up (calls w) = Val p0 ->
    up (S (calls w)) = Val p1 ->
    up (S (S (calls w))) = Val p2 ->
    List.length (data p0) = 100%nat ->
    List.length (data p1) = 100%nat ->
    List.length (data p2) = 100%nat ->
    truthy (next_token p0) = true ->
    truthy (next_token p1) = true ->
    exists r w',
      collect scenario_config up (3 + fuel) userId username w = Some (Val r, w')
      /\ calls w' = (calls w + 3)%nat
      /\ List.length (tweets r) = 300%nat
      /\ map tweet (tweets r) = (data p0 ++ data p1 ++ data p2)%list.
Proof.
  intros up userId username w p0 p1 p2 fuel H0 H1 H2 L0 L1 L2 T0 T1.
  assert (N0 : data p0 <> []) by (intros E; rewrite E in L0; discriminate).
  assert (N1 : data p1 <> []) by (intros E; rewrite E in L1; discriminate).
  assert (N2 : data p2 <> []) by (intros E; rewrite E in L2; discriminate).
  destruct (fetch_page_first_try up initial_locals w p0 H0) as [w1 [F0 C0]].
  set (l1 := advance p0 (accumulate p0 initial_locals)).
  rewrite <- C0 in H1.
  destruct (fetch_page_first_try up l1 w1 p1 H1) as [w2 [F1 C1]].
  set (l2 := advance p1 (accumulate p1 l1)).
  rewrite <- C0, <- C1 in H2.
  destruct (fetch_page_first_try up l2 w2 p2 H2) as [w3 [F2 C2]].
  assert (Hhead : loop_head scenario_config up 2 initial_locals w = Some (l2, w2)).
  { cbn [loop_head].
    rewrite (iteration_page _ _ _ _ _ _ F0).
    rewrite on_response_below_target
      by (try assumption; cbn [initial_locals allTweets List.length scenario_config
                               targetTweetCount]; lia).
    fold l1. unfold loop_condition.
    replace (truthy (nextToken l1)) with true by (symmetry; exact T0).
    cbn [l1 advance accumulate pagesProcessed shouldStop initial_locals
         scenario_config maxPages Nat.ltb Nat.leb andb negb].
    fold l1.
    rewrite (iteration_page _ _ _ _ _ _ F1).
    rewrite on_response_below_target
      by (try assumption;
          cbn [l1 advance accumulate initial_locals allTweets app scenario_config
               targetTweetCount]; lia).
    fold l2.
    replace (truthy (nextToken l2)) with true by (symmetry; exact T1).
    reflexivity. }
  assert (Hit : iteration scenario_config up l2 w2
                = (Val (stop (accumulate p2 l2), Break), w3)).
  { rewrite (iteration_page _ _ _ _ _ _ F2).
    rewrite on_response_reaches_target; [reflexivity | assumption |].
    cbn [l2 l1 advance accumulate initial_locals allTweets app scenario_config
         targetTweetCount].
    rewrite length_app. lia. }
  replace (3 + fuel)%nat with (2 + S fuel)%nat by lia.
  rewrite (collect_of_break _ _ _ fuel userId username _ _ _ _ _ Hhead Hit).
  eexists. eexists. split; [reflexivity|].
  rewrite assemble_tweets.
  cbn [stop accumulate l2 l1 advance initial_locals allTweets app].
  repeat split.
  - lia.
  - rewrite length_map, !length_app. lia.
  - rewrite map_map. cbn [process_tweet tweet]. rewrite map_id.
    rewrite <- app_assoc. reflexivity.
Qed.

(** Claim C5.  Target overshoot bound.  For any positive target: at every
    loop head, that is whenever another page is requested, fewer tweets
    than the target have been accumulated; and a page whose tweets bring
    the total to the target or beyond ends the loop in the very world the
    request left, with that whole page kept.  In the scenario, with a
    target of 250 and pages of 100 tweets, exactly three requests are made
    and the result holds 300 tweets. *)
Theorem target_overshoot_bound :
  (forall (cfg : Config) (up : Upstream Page),
      (0 < targetTweetCount cfg)%nat ->
      (forall n w0 l w,
          loop_head cfg up n initial_locals w0 = Some (l, w) ->
          (List.length (allTweets l) < targetTweetCount cfg)%nat)
      /\
      (forall fuel l w p w',
          fetch_page up l w = (Val p, w') ->
          data p <> [] ->
          (targetTweetCount cfg
           <= List.length (allTweets l) + List.length (data p))%nat ->
          exists l',
            do_while cfg up (S fuel) l w = Some (Finished l', w')
            /\ allTweets l' = (allTweets l ++ data p)%list))
  /\
  (forall (up : Upstream Page) (userId username : string) (w : World)
          (p0 p1 p2 : Page) (fuel : nat),
      up (calls w) = Val p0 ->
      up (S (calls w)) = Val p1 ->
      up (S (S (calls w))) = Val p2 ->
      List.length (data p0) = 100%nat ->
      List.length (data p1) = 100%nat ->
      List.length (data p2) = 100%nat ->
      truthy (next_token p0) = true ->
      truthy (next_token p1) = true ->
      exists r w',
        collect scenario_config up (3 + fuel) userId username w = Some (Val r, w')
        /\ calls w' = (calls w + 3)%nat
        /\ List.length (tweets r) = 300%nat
        /\ map tweet (tweets r) = (data p0 ++ data p1 ++ data p2)%list).
Proof.
  split.
  - intros cfg up Hpos. split.
    + intros n w0 l w Hhead.
      apply (loop_head_below_target _ _ _ _ _ _ _ Hhead). exact Hpos.
    + intros fuel l w p w' Hfetch Hdata Hreach.
      cbn [do_while]. rewrite (iteration_page _ _ _ _ _ _ Hfetch).
      rewrite (on_response_reaches_target _ _ _ Hdata Hreach).
      eexists. split; reflexivity.
  - exact three_pages_of_100.
Qed.

Lemma target_overshoot_bound_witness :
  (List.length (allTweets (fst two_pages_in)) < targetTweetCount scenario_config)%nat
  /\
  (exists l',
      do_while scenario_config full_pages 1 (fst two_pages_in) (snd two_pages_in)
        = Some (Finished l', mkWorld t0 3 t0 3 [] [])
      /\ allTweets l' = (allTweets (fst two_pages_in) ++ data full_page)%list)
  /\
  (exists r w',
      collect scenario_config full_pages (3 + 0) "1" "bob" (new_service t0)
        = Some (Val r, w')
      /\ calls w' = (calls (new_service t0) + 3)%nat
      /\ List.length (tweets r) = 300%nat
      /\ map tweet (tweets r)
         = (data full_page ++ data full_page ++ data full_page)%list).
Proof.
  destruct target_overshoot_bound as [Hgeneral Hscenario].
  destruct (Hgeneral scenario_config full_pages) as [Hhead Hlast].
  { cbn. lia. }
  split; [|split].
  - apply (Hhead 2%nat (new_service t0) (fst two_pages_in) (snd two_pages_in)).
    vm_compute. reflexivity.
  - apply (Hlast 0%nat (fst two_pages_in) (snd two_pages_in) full_page
             (mkWorld t0 3 t0 3 [] [])).
    + vm_compute. reflexivity.
    + discriminate.
    + vm_compute. lia.
  - apply (Hscenario full_pages "1" "bob" (new_service t0)
             full_page full_page full_page 0%nat);
      reflexivity.
Defined.

End TwitterServiceV2_properties.

(** * Properties of the sort *)

Section JsSort_properties.
Context {A : Type}.
Variable cmp : A -> A -> Q.

Hypothesis cmp_total : forall x y, ~ precedes cmp x y -> precedes cmp y x.
Hypothesis cmp_trans :
  forall x y z, precedes cmp x y -> precedes cmp y z -> precedes cmp x z.

Lemma sort_insert_perm (x : A) (l : list A) :
  Permutation (sort_insert cmp x l) (x :: l).
Proof.
  induction l as [|y ys IH]; cbn [sort_insert].
  - apply Permutation_refl.
  - destruct (Qle_bool (cmp x y) 0).
    + apply Permutation_refl.
    + eapply perm_trans; [apply perm_skip, IH | apply perm_swap].
Qed.

Lemma js_sort_perm (l : list A) : Permutation (js_sort cmp l) l.
Proof.
  induction l as [|x xs IH]; cbn [js_sort].
  - apply perm_nil.
  - eapply perm_trans; [apply sort_insert_perm | apply perm_skip, IH].
Qed.

Lemma sort_insert_sorted (x : A) (l : list A) :
  StronglySorted (precedes cmp) l -> StronglySorted (precedes cmp) (sort_insert cmp x l).
Proof.
  induction 1 as [|y ys Hsorted IH Hall]; cbn [sort_insert].
  - constructor; constructor.
  - destruct (Qle_bool (cmp x y) 0) eqn:Hcmp.
    + apply Qle_bool_iff in Hcmp.
      constructor; [constructor; assumption|].
      constructor; [exact Hcmp|].
      eapply Forall_impl; [|exact Hall]. intros z Hz.
      eapply cmp_trans; eassumption.
    + constructor; [exact IH|].
      eapply Permutation_Forall; [apply Permutation_sym, sort_insert_perm|].
      constructor; [|exact Hall].
      apply cmp_total. intros Hxy. apply Qle_bool_iff in Hxy.
      rewrite Hxy in Hcmp. discriminate.
Qed.

Lemma js_sort_sorted (l : list A) : StronglySorted (precedes cmp) (js_sort cmp l).
Proof.
  induction l as [|x xs IH]; cbn [js_sort].
  - constructor.
  - apply sort_insert_sorted, IH.
Qed.



End JsSort_properties.

(** The same for a comparator that is a total preorder on the elements
    of the array only. *)
Section JsSort_on.
Context {A : Type}.
Variable cmp : A -> A -> Q.
Variable P : A -> Prop.

Hypothesis cmp_total_on :
  forall x y, P x -> P y -> ~ precedes cmp x y -> precedes cmp y x.
Hypothesis cmp_trans_on :
  forall x y z, P x -> P y -> P z ->
                precedes cmp x y -> precedes cmp y z -> precedes cmp x z.



End JsSort_on.

(** * Properties of binary64 arithmetic *)

Section Binary64_properties.
Import SpecFloat Binary64.



















Lemma max0_not_nan (x : double) : is_nan x = false -> is_nan (max0 x) = false.
Proof. destruct x as [s|[|]| |[|] m e]; cbn; auto. Qed.





Lemma le_trans (x y z : double) : le x y -> le y z -> le x z.
Proof.
  unfold le.
  destruct x as [sx|[|]| |sx mx ex], y as [sy|[|]| |sy my ey], z as [sz|[|]| |sz mz ez];
    cbn [leb]; try discriminate; try reflexivity;
    rewrite ?Z.leb_le; lia.
Qed.

End Binary64_properties.


(** * Properties of the cache *)

Section MaximizedTwitterCache_properties.
Import MaximizedTwitterCache.

(** ** Scores and the cleanup *)






(** ** The property order of the accounts object *)

Lemma insert_index_perm (i : N) (key : string) (value : CachedAccountData)
      (l : list (string * CachedAccountData)) :
  Permutation (insert_index i key value l) ((key, value) :: l).
Proof.
  induction l as [|[k v] rest IH]; cbn [insert_index].
  - apply Permutation_refl.
  - destruct (array_index k) as [j|]; [|apply Permutation_refl].
    destruct (j <? i)%N; [|apply Permutation_refl].
    eapply perm_trans; [apply perm_skip, IH | apply perm_swap].
Qed.

Lemma add_property_perm (key : string) (value : CachedAccountData)
      (l : list (string * CachedAccountData)) :
  Permutation (add_property key value l) ((key, value) :: l).
Proof.
  unfold add_property. destruct (array_index key) as [i|].
  - apply insert_index_perm.
  - apply Permutation_sym, Permutation_cons_append.
Qed.

(** [Object.fromEntries] keeps every entry; it only puts them in
    property order. *)
Lemma fromEntries_perm (entries : list (string * CachedAccountData)) :
  Permutation (fromEntries entries) entries.
Proof.
  unfold fromEntries.
  assert (H : forall object,
             Permutation
               (fold_left (fun object entry =>
                             add_property (fst entry) (snd entry) object)
                          entries object)
               (object ++ entries)).
  { induction entries as [|[k v] rest IH]; intros object; cbn [fold_left fst snd].
    - rewrite app_nil_r. apply Permutation_refl.
    - eapply perm_trans; [apply IH|].
      eapply perm_trans; [apply Permutation_app_tail, add_property_perm|].
      cbn [app]. apply Permutation_middle. }
  apply (H []).
Qed.

Lemma ceil_seven_tenths (z : Z) : - (- (z * 7) / 10) = (7 * z + 9) / 10.
Proof.
  pose proof (Z.div_mod (- (z * 7)) 10 ltac:(lia)).
  pose proof (Z.mod_pos_bound (- (z * 7)) 10 ltac:(lia)).
  pose proof (Z.div_mod (7 * z + 9) 10 ltac:(lia)).
  pose proof (Z.mod_pos_bound (7 * z + 9) 10 ltac:(lia)).
  lia.
Qed.

Lemma keepCount_ceil (n : nat) : keepCount n = ((7 * n + 9) / 10)%nat.
Proof.
  unfold keepCount, Qceiling, Qfloor, Qopp, Qmult, inject_Z.
  cbn [Qnum Qden Pos.mul]. change (Z.pos 10) with 10.
  rewrite ceil_seven_tenths.
  apply Nat2Z.inj. rewrite Nat2Z.inj_div, Nat2Z.inj_add, Nat2Z.inj_mul.
  rewrite Z2Nat.id; [reflexivity|].
  apply Z.div_pos; lia.
Qed.

Lemma keepCount_le (n : nat) : (keepCount n <= n)%nat.
Proof.
  rewrite keepCount_ceil.
  apply Nat.lt_succ_r, Nat.Div0.div_lt_upper_bound. lia.
Qed.

Lemma list_sum_perm (l l' : list nat) :
  Permutation l l' -> list_sum l = list_sum l'.
Proof. unfold list_sum. induction 1; cbn [fold_right]; lia. Qed.


Lemma count_tweets_sum (l : list (string * CachedAccountData)) :
  count_tweets l = list_sum (map (fun acc => List.length (tweets (snd acc))) l).
Proof.
  unfold count_tweets.
  assert (H : forall k,
             fold_left (fun total acc => (total + List.length (tweets (snd acc)))%nat) l k
             = (k + list_sum (map (fun acc => List.length (tweets (snd acc))) l))%nat).
  { unfold list_sum.
    induction l as [|x xs IH]; intros k; cbn [fold_left map fold_right].
    - lia.
    - rewrite IH. lia. }
  apply H.
Qed.

Lemma StronglySorted_impl {A : Type} (R R' : A -> A -> Prop) (l : list A) :
  (forall x y, R x y -> R' x y) -> StronglySorted R l -> StronglySorted R' l.
Proof.
  intros Himpl. induction 1 as [|x xs Hs IH Hall]; constructor.
  - exact IH.
  - eapply Forall_impl; [|exact Hall]. intros y. apply Himpl.
Qed.

Lemma cleanup_length (now : Z) (cacheData : MaximizedCacheData) :
  List.length (accounts (performIntelligentCleanup now cacheData))
  = keepCount (List.length (accounts cacheData)).
Proof.
  unfold performIntelligentCleanup. cbn [accounts].
  rewrite (Permutation_length (fromEntries_perm _)).
  pose proof (Permutation_length (js_sort_perm (by_score now) (accounts cacheData)))
    as Hlen.
  rewrite Hlen. apply firstn_length_le. rewrite Hlen. apply keepCount_le.
Qed.



(** The sum of the score is rounded at each step: ann, at [0.2 + 0.1],
    ranks above bee, at [0.3], and it is bee that goes. *)
Example cleanup_ranks_rounded_scores :
  map fst (accounts (performIntelligentCleanup now0 rounding_accounts))
  = ["cat"; "dan"; "ann"]
  /\ ~ Binary64.le (calculateAccountCacheScore now0 (old_account 200 1000))
                   (calculateAccountCacheScore now0 (old_account 300 0)).
Proof. split; [vm_compute; reflexivity | vm_compute; discriminate]. Qed.

(** The new accounts object lists the names that are array indices
    first, in ascending order, whatever their scores: zed, 7 and 42 are
    kept, in that order of score, and are listed as 7, 42, zed. *)
Example cleanup_lists_index_keys_first :
  map fst (firstn 3 (js_sort (by_score now0) (accounts index_accounts)))
  = ["zed"; "7"; "42"]
  /\ map fst (accounts (performIntelligentCleanup now0 index_accounts))
     = ["7"; "42"; "zed"].
Proof. split; vm_compute; reflexivity. Qed.

(** ** Serialized size *)

Lemma digits_fuel_stable :
  forall f1 f2 n,
    n < 10 ^ Z.of_nat f1 -> (f1 <= f2)%nat ->
    digits_fuel f1 n = digits_fuel f2 n.
Proof.
  induction f1 as [|f1 IH]; intros f2 n Hn Hle.
  - cbn in Hn. destruct f2 as [|f2]; [reflexivity|].
    cbn [digits_fuel].
    replace (n <? 10) with true by (symmetry; apply Z.ltb_lt; lia).
    reflexivity.
  - destruct f2 as [|f2]; [lia|]. cbn [digits_fuel].
    destruct (n <? 10) eqn:Hsmall; [reflexivity|].
    f_equal. apply IH; [|lia].
    rewrite Nat2Z.inj_succ, Z.pow_succ_r in Hn by lia.
    apply Z.div_lt_upper_bound; lia.
Qed.

Lemma digits_fuel_mono :
  forall f a b, a <= b -> 1 <= digits_fuel f a <= digits_fuel f b.
Proof.
  induction f as [|f IH]; intros a b Hab; cbn [digits_fuel]; [lia|].
  destruct (a <? 10) eqn:Ha; destruct (b <? 10) eqn:Hb.
  - lia.
  - assert (H := IH (b / 10) (b / 10) (Z.le_refl _)). lia.
  - apply Z.ltb_lt in Hb. apply Z.ltb_ge in Ha. lia.
  - assert (H := IH (a / 10) (b / 10) (Z.div_le_mono a b 10 ltac:(lia) Hab)). lia.
Qed.

Lemma digits_enough_fuel (n : Z) :
  n < 10 ^ Z.of_nat (S (Z.to_nat (Z.log2 n))).
Proof.
  rewrite Nat2Z.inj_succ, Z2Nat.id by apply Z.log2_nonneg.
  destruct (Z.le_gt_cases n 0) as [Hn | Hn].
  - pose proof (Z.pow_pos_nonneg 10 (Z.succ (Z.log2 n)) ltac:(lia)
                  ltac:(pose proof (Z.log2_nonneg n); lia)). lia.
  - pose proof (Z.log2_spec n Hn) as [_ Hlt].
    pose proof (Z.pow_le_mono_l 2 10 (Z.succ (Z.log2 n)) ltac:(lia)). lia.
Qed.

Lemma digits_mono (a b : Z) : a <= b -> digits a <= digits b.
Proof.
  intros Hab. unfold digits.
  set (fa := S (Z.to_nat (Z.log2 a))). set (fb := S (Z.to_nat (Z.log2 b))).
  rewrite (digits_fuel_stable fa (Nat.max fa fb) a (digits_enough_fuel a))
    by apply Nat.le_max_l.
  rewrite (digits_fuel_stable fb (Nat.max fa fb) b (digits_enough_fuel b))
    by apply Nat.le_max_r.
  apply digits_fuel_mono. exact Hab.
Qed.

Lemma member_bytes_pos (kv : string * CachedAccountData) : 3 <= member_bytes kv.
Proof. unfold member_bytes, quoted. lia. Qed.

Lemma members_bytes_sum (l : list (string * CachedAccountData)) :
  members_bytes l
  = fold_right Z.add 0 (map (fun kv => member_bytes kv + 1) l)
    - match l with [] => 0 | _ => 1 end.
Proof.
  induction l as [|kv [|kv' rest] IH].
  - reflexivity.
  - cbn. lia.
  - change (members_bytes (kv :: kv' :: rest))
      with (member_bytes kv + 1 + members_bytes (kv' :: rest)).
    rewrite IH. cbn [map fold_right]. lia.
Qed.

Lemma sum_firstn_le {A : Type} (f : A -> Z) (k : nat) (l : list A) :
  (forall x, 0 <= f x) ->
  0 <= fold_right Z.add 0 (map f (firstn k l)) <= fold_right Z.add 0 (map f l).
Proof.
  intros Hf. revert k. induction l as [|x xs IH]; intros [|k]; cbn; try lia.
  - specialize (IH 0%nat). specialize (Hf x). cbn in IH. lia.
  - specialize (IH k). specialize (Hf x). lia.
Qed.

Lemma sum_perm {A : Type} (f : A -> Z) (l l' : list A) :
  Permutation l l' ->
  fold_right Z.add 0 (map f l) = fold_right Z.add 0 (map f l').
Proof. induction 1; cbn; lia. Qed.

Lemma members_bytes_perm (l l' : list (string * CachedAccountData)) :
  Permutation l l' -> members_bytes l = members_bytes l'.
Proof.
  intros Hperm. rewrite !members_bytes_sum.
  rewrite (sum_perm _ _ _ Hperm).
  destruct l as [|x xs]; destruct l' as [|y ys]; try reflexivity.
  - apply Permutation_nil in Hperm. discriminate.
  - apply Permutation_sym, Permutation_nil in Hperm. discriminate.
Qed.

Lemma list_sum_firstn_le (k : nat) (l : list nat) :
  (list_sum (firstn k l) <= list_sum l)%nat.
Proof.
  unfold list_sum. revert k.
  induction l as [|x xs IH]; intros [|k]; cbn [firstn fold_right]; try lia.
  specialize (IH k). lia.
Qed.

(** The cleanup never makes the serialized store larger, provided the
    counters it starts from are those of the entries. *)
Lemma cleanup_dataSize_le (now : Z) (cacheData : MaximizedCacheData) :
  totalAccounts (globalMetadata cacheData) = List.length (accounts cacheData) ->
  totalTweets (globalMetadata cacheData) = count_tweets (accounts cacheData) ->
  dataSize (performIntelligentCleanup now cacheData) <= dataSize cacheData.
Proof.
  intros Hta Htt.
  pose proof (cleanup_length now cacheData) as Hlen.
  pose proof (keepCount_le (List.length (accounts cacheData))) as Hkeep.
  unfold dataSize, performIntelligentCleanup in *.
  cbn [accounts globalMetadata version totalAccounts totalTweets cachingStrategy] in *.
  set (sorted := js_sort (by_score now) (accounts cacheData)) in *.
  set (k := keepCount (List.length sorted)) in *.
  pose proof (js_sort_perm (by_score now) (accounts cacheData)) as Hperm.
  fold sorted in Hperm.
  rewrite (Permutation_length (fromEntries_perm (firstn k sorted))) in Hlen.
  rewrite (members_bytes_perm _ _ (fromEntries_perm (firstn k sorted))).
  assert (Hmembers : members_bytes (firstn k sorted) <= members_bytes (accounts cacheData)).
  { rewrite !members_bytes_sum.
    pose proof (sum_firstn_le (fun kv => member_bytes kv + 1) k sorted
                  ltac:(intros x; pose proof (member_bytes_pos x); lia)) as Hs.
    rewrite (sum_perm _ _ _ Hperm) in Hs.
    destruct (firstn k sorted) as [|x xs] eqn:Ek.
    - destruct (accounts cacheData) as [|y ys]; cbn [map fold_right] in *; [lia|].
      pose proof (member_bytes_pos y).
      pose proof (sum_firstn_le (fun kv => member_bytes kv + 1) 0 ys
                    ltac:(intros z; pose proof (member_bytes_pos z); lia)).
      lia.
    - destruct (accounts cacheData) as [|y ys].
      + apply Permutation_sym, Permutation_nil in Hperm. rewrite Hperm in Ek.
        destruct k; discriminate.
      + lia. }
  assert (Hd1 : digits (Z.of_nat (List.length (firstn k sorted)))
                <= digits (Z.of_nat (totalAccounts (globalMetadata cacheData)))).
  { apply digits_mono. rewrite Hta, Hlen. lia. }
  assert (Hd2 : digits (Z.of_nat (count_tweets (firstn k sorted)))
                <= digits (Z.of_nat (totalTweets (globalMetadata cacheData)))).
  { apply digits_mono. rewrite Htt, !count_tweets_sum.
    apply inj_le. rewrite <- firstn_map.
    eapply Nat.le_trans; [apply list_sum_firstn_le|].
    rewrite (list_sum_perm _ _ (Permutation_map _ Hperm)). apply Nat.le_refl. }
  lia.
Qed.

Lemma to_commit_dataSize_le (now : Z) (existing : option MaximizedCacheData)
      (username : string) (accountData : CachedAccountData) :
  dataSize (to_commit now (updated now existing username accountData))
  <= dataSize (updated now existing username accountData).
Proof.
  unfold to_commit.
  destruct (dataSize _ >? MAX_STORAGE_SIZE); [|lia].
  apply cleanup_dataSize_le; reflexivity.
Qed.

(** ** setAccountData *)

(** Claim C3, as stated, fails: the store holds one account of thirty
    million bytes and a second one of the same size is put.  No entry
    exceeds [MAX_STORAGE_SIZE], the size check fires, the cleanup keeps
    [ceil(0.7 * 2) = 2] entries, and what is committed is still larger
    than [MAX_STORAGE_SIZE]. *)
Lemma eviction_leaves_store_over_budget :
  let before := updated (now0 + 1000) (Some (updated now0 None "alice" (big_account now0)))
                        "bob" (big_account (now0 + 1000)) in
  exists committed st',
    setAccountData platform_ok (now0 + 1000) "bob" (big_account (now0 + 1000))
                   store_with_alice = (st', false)
    /\ cache_item st' = Some (Encoded committed)
    /\ forallb (fun kv => member_bytes kv <=? MAX_STORAGE_SIZE) (accounts before) = true
    /\ MAX_STORAGE_SIZE < dataSize before
    /\ committed = performIntelligentCleanup (now0 + 1000) before
    /\ MAX_STORAGE_SIZE < dataSize committed.
Proof.
  cbv zeta. eexists. eexists.
  split; [vm_compute; reflexivity|].
  split; [reflexivity|].
  split; [vm_compute; reflexivity|].
  split; [vm_compute; reflexivity|].
  split; [vm_compute; reflexivity|].
  vm_compute. reflexivity.
Qed.

Lemma setAccountData_committed :
  forall env now username accountData st st',
    setAccountData env now username accountData st = (st', false) ->
    isBrowser env = true ->
    cache_item st'
    = Some (Encoded (to_commit now
               (updated now (fst (getAllData env now st)) username accountData))).
Proof.
  intros env now username accountData st st' Hput Hbrowser.
  unfold setAccountData in Hput. rewrite Hbrowser in Hput. cbn [negb] in Hput.
  unfold try_setAccountData in Hput.
  destruct (getAllData env now st) as [existing st1]. cbn [fst].
  destruct (stringify_throws env (updated now existing username accountData));
    [discriminate|].
  destruct (stringify_throws env (to_commit now _)); [discriminate|].
  destruct (setItem_cache_throws env _); [discriminate|].
  destruct (setItem_expiry_throws env _); [discriminate|].
  injection Hput as <-. reflexivity.
Qed.

(** Claim C3, amended.  When [setAccountData] commits in a browser, what
    it commits serializes to no more than the store did before the size
    check; if that size exceeded [MAX_STORAGE_SIZE], the committed store
    is the cleaned one, with [ceil(0.7 * n)] of the [n] entries, whatever
    its size; otherwise it is the store as it was. *)
Theorem eviction_size_not_increased :
  forall (env : Platform) (now : Z) (username : string)
         (accountData : CachedAccountData) (st st' : SessionStorage),
    setAccountData env now username accountData st = (st', false) ->
    isBrowser env = true ->
    let before := updated now (fst (getAllData env now st)) username accountData in
    exists committed,
      cache_item st' = Some (Encoded committed)
      /\ dataSize committed <= dataSize before
      /\ (MAX_STORAGE_SIZE < dataSize before ->
          committed = performIntelligentCleanup now before
          /\ List.length (accounts committed)
             = ((7 * List.length (accounts before) + 9) / 10)%nat)
      /\ (dataSize before <= MAX_STORAGE_SIZE -> committed = before).
Proof.
  intros env now username accountData st st' Hput Hbrowser before.
  exists (to_commit now before). split; [|split; [|split]].
  - apply setAccountData_committed; assumption.
  - apply to_commit_dataSize_le.
  - intros Hover. unfold to_commit.
    replace (dataSize before >? MAX_STORAGE_SIZE) with true
      by (symmetry; apply Z.gtb_lt; exact Hover).
    split; [reflexivity|]. rewrite cleanup_length. apply keepCount_ceil.
  - intros Hfits. unfold to_commit.
    replace (dataSize before >? MAX_STORAGE_SIZE) with false
      by (symmetry; rewrite Z.gtb_ltb; apply Z.ltb_ge; exact Hfits).
    reflexivity.
Qed.

Lemma eviction_size_not_increased_witness :
  let before := updated (now0 + 1000) (fst (getAllData platform_ok (now0 + 1000)
                                              store_with_alice))
                        "bob" (big_account (now0 + 1000)) in
  exists committed,
    cache_item (fst (setAccountData platform_ok (now0 + 1000) "bob"
                       (big_account (now0 + 1000)) store_with_alice))
    = Some (Encoded committed)
    /\ dataSize committed <= dataSize before
    /\ (MAX_STORAGE_SIZE < dataSize before ->
        committed = performIntelligentCleanup (now0 + 1000) before
        /\ List.length (accounts committed)
           = ((7 * List.length (accounts before) + 9) / 10)%nat)
    /\ (dataSize before <= MAX_STORAGE_SIZE -> committed = before).
Proof.
  apply (eviction_size_not_increased platform_ok (now0 + 1000) "bob"
           (big_account (now0 + 1000)) store_with_alice).
  - vm_compute. reflexivity.
  - reflexivity.
Defined.

Lemma own_In :
  forall key l v, own key l = Some v -> In (key, v) l.
Proof.
  intros key l v. induction l as [|[k v'] rest IH]; cbn [own]; [discriminate|].
  destruct (String.eqb k key) eqn:E.
  - apply String.eqb_eq in E. intros H. injection H as <-. left. congruence.
  - intros H. right. apply IH. exact H.
Qed.

Lemma lookup_account :
  forall key l v, lookup key l = Some (Account v) <-> own key l = Some v.
Proof.
  intros key l v. unfold lookup. destruct (own key l) as [w|].
  - split; intros H; injection H as <-; reflexivity.
  - destruct (inherited key); split; discriminate.
Qed.

(** Every entry the committed store holds was in the store before the
    size check. *)
Lemma to_commit_incl (now : Z) (d : MaximizedCacheData) :
  incl (accounts (to_commit now d)) (accounts d).
Proof.
  unfold to_commit. destruct (dataSize d >? MAX_STORAGE_SIZE); [|apply incl_refl].
  unfold performIntelligentCleanup. cbn [accounts].
  intros kv Hkv.
  apply (Permutation_in kv (fromEntries_perm _)) in Hkv.
  eapply Permutation_in; [apply js_sort_perm|].
  rewrite <- (firstn_skipn (keepCount (List.length (js_sort (by_score now) (accounts d))))
                           (js_sort (by_score now) (accounts d))).
  apply in_or_app. left. exact Hkv.
Qed.

Lemma getAccountData_cleared (env : Platform) (now : Z) (key : string) :
  isBrowser env = true ->
  getAccountData env now key (mkStorage None None) = (None, mkStorage None None).
Proof.
  intros Hbrowser. unfold getAccountData, getAllData, clear.
  rewrite Hbrowser. reflexivity.
Qed.

(** Whether the try block of [setAccountData] throws. *)
Lemma try_setAccountData_threw :
  forall env now username accountData st,
    let cacheData :=
      updated now (fst (getAllData env now st)) username accountData in
    snd (try_setAccountData env now username accountData st)
    = stringify_throws env cacheData
      || stringify_throws env (to_commit now cacheData)
      || setItem_cache_throws env (to_commit now cacheData)
      || setItem_expiry_throws env (now + CACHE_DURATION).
Proof.
  intros env now username accountData st. cbv zeta.
  unfold try_setAccountData.
  destruct (getAllData env now st) as [existing st1]. cbn [fst].
  destruct (stringify_throws env (updated now existing username accountData));
    [reflexivity|].
  destruct (stringify_throws env (to_commit now _)); [reflexivity|].
  destruct (setItem_cache_throws env _); [reflexivity|].
  destruct (setItem_expiry_throws env _); reflexivity.
Qed.

(** What the try block of [setAccountData] leaves under [CACHE_KEY]:
    what was there after the read, or the store it built. *)
Lemma try_setAccountData_item :
  forall env now username accountData st,
    let read := getAllData env now st in
    let st' := fst (try_setAccountData env now username accountData st) in
    cache_item st' = cache_item (snd read)
    \/ cache_item st'
       = Some (Encoded (to_commit now (updated now (fst read) username accountData))).
Proof.
  intros env now username accountData st. cbv zeta.
  unfold try_setAccountData.
  destruct (getAllData env now st) as [existing st1]. cbn [fst snd].
  destruct (stringify_throws env (updated now existing username accountData));
    [left; reflexivity|].
  destruct (stringify_throws env (to_commit now _)); [left; reflexivity|].
  destruct (setItem_cache_throws env _); [left; reflexivity|].
  destruct (setItem_expiry_throws env _); right; reflexivity.
Qed.

(** Claim C10.  Put failure wipes the whole store: whenever the try block
    of [setAccountData] throws, which in a browser is exactly when one of
    its two serializations or one of its two storage writes throws, the
    catch block removes both items, so that at every later time
    [getAccountData] returns [null] for every key, names inherited from
    [Object.prototype] included.  Reading the existing store cannot throw
    into [setAccountData]: when the try block of [getAllData] throws,
    [getAllData] itself clears the store and returns [null]; after such a
    read no account cached before is readable either, the only account a
    later read can find being the one just put. *)
Theorem put_failure_wipes_store :
  forall (env : Platform) (now : Z) (username : string)
         (accountData : CachedAccountData) (st st' : SessionStorage)
         (threw : bool),
    setAccountData env now username accountData st = (st', threw) ->
    (threw = true ->
     st' = mkStorage None None
     /\ forall later key,
         getAccountData env later key st' = (None, mkStorage None None))
    /\ (isBrowser env = true ->
        let cacheData :=
          updated now (fst (getAllData env now st)) username accountData in
        threw = stringify_throws env cacheData
                || stringify_throws env (to_commit now cacheData)
                || setItem_cache_throws env (to_commit now cacheData)
                || setItem_expiry_throws env (now + CACHE_DURATION))
    /\ (getAllData_throws env now st = true ->
        getAllData env now st = (None, mkStorage None None)
        /\ forall later key found,
            fst (getAccountData env later key st') = Some (Account found) ->
            found = accountData).
Proof.
  intros env now username accountData st st' threw Hput.
  unfold setAccountData in Hput.
  destruct (isBrowser env) eqn:Hbrowser; cbn [negb] in Hput.
  2:{ injection Hput as <- <-.
      split; [discriminate|]. split; [discriminate|].
      unfold getAllData_throws. rewrite Hbrowser. discriminate. }
  pose proof (try_setAccountData_threw env now username accountData st) as Hthrew.
  pose proof (try_setAccountData_item env now username accountData st) as Hitem.
  cbv zeta in Hthrew, Hitem.
  destruct (try_setAccountData env now username accountData st) as [st1 flag].
  cbn [fst snd] in Hthrew, Hitem.
  cbv beta iota in Hput.
  assert (Hflag : threw = flag) by (destruct flag; injection Hput as _ <-; reflexivity).
  split; [|split].
  - intros ->. destruct flag; [|discriminate Hflag]. injection Hput as <-.
    unfold clear. rewrite Hbrowser. split; [reflexivity|].
    intros later key. apply getAccountData_cleared, Hbrowser.
  - intros _. cbv zeta. rewrite Hflag. exact Hthrew.
  - intros Hread.
    unfold getAllData_throws in Hread. rewrite Hbrowser in Hread. cbn [andb] in Hread.
    destruct (expiry_item st) as [expiry|] eqn:Hexp; [|discriminate].
    destruct (cache_item st) as [[d|]|] eqn:Hcache; try discriminate.
    apply negb_true_iff in Hread.
    assert (Hnull : getAllData env now st = (None, mkStorage None None)).
    { unfold getAllData, clear. rewrite Hbrowser, Hexp, Hread, Hcache. reflexivity. }
    split; [exact Hnull|].
    rewrite Hnull in Hitem. cbn [fst snd cache_item] in Hitem.
    intros later key found Hfound.
    assert (Hst' : cache_item st' = cache_item st1 \/ cache_item st' = None).
    { destruct flag; injection Hput as <- _; [right | left; reflexivity].
      unfold clear. rewrite Hbrowser. reflexivity. }
    unfold getAccountData, getAllData in Hfound.
    rewrite Hbrowser in Hfound. cbn [negb] in Hfound.
    destruct (expiry_item st') as [e|]; [|discriminate].
    destruct (later >? e); [discriminate|].
    destruct (cache_item st') as [[d'|]|] eqn:Hc'; try discriminate.
    cbn [fst] in Hfound. apply lookup_account, own_In in Hfound.
    destruct Hst' as [Hsame | Hnone]; [|discriminate].
    rewrite <- Hsame in Hitem. destruct Hitem as [Hi | Hi]; [discriminate|].
    injection Hi as ->.
    apply to_commit_incl in Hfound.
    unfold updated, assign in Hfound. cbn [accounts own] in Hfound.
    destruct (String.eqb (toLowerCase username) "__proto__"); [contradiction|].
    apply (Permutation_in _ (add_property_perm _ _ _)) in Hfound.
    destruct Hfound as [Hfound | []]. injection Hfound as _ <-. reflexivity.
Qed.

(** A put that the storage refuses wipes the store that held alice; a
    put over a text that does not parse finds no account but bob's. *)
Lemma put_failure_wipes_store_witness :
  fst (setAccountData platform_quota_exceeded (now0 + 1000) "bob"
         (big_account (now0 + 1000)) store_with_alice) = mkStorage None None
  /\ getAccountData platform_quota_exceeded (now0 + 2000) "alice"
       (mkStorage None None) = (None, mkStorage None None)
  /\ getAccountData platform_quota_exceeded (now0 + 2000) "constructor"
       (mkStorage None None) = (None, mkStorage None None)
  /\ forall key found,
      fst (getAccountData platform_ok (now0 + 2000) key
             (fst (setAccountData platform_ok (now0 + 1000) "bob"
                     (big_account (now0 + 1000)) corrupt_store)))
      = Some (Account found) ->
      found = big_account (now0 + 1000).
Proof.
  destruct (put_failure_wipes_store platform_quota_exceeded (now0 + 1000) "bob"
              (big_account (now0 + 1000)) store_with_alice
              (mkStorage None None) true) as [Hcatch _];
    [vm_compute; reflexivity|].
  destruct (Hcatch eq_refl) as [_ Hmiss].
  split; [vm_compute; reflexivity|].
  split; [exact (Hmiss (now0 + 2000) "alice")|].
  split; [exact (Hmiss (now0 + 2000) "constructor")|].
  destruct (put_failure_wipes_store platform_ok (now0 + 1000) "bob"
              (big_account (now0 + 1000)) corrupt_store
              (fst (setAccountData platform_ok (now0 + 1000) "bob"
                      (big_account (now0 + 1000)) corrupt_store))
              false) as (_ & _ & Hread);
    [vm_compute; reflexivity|].
  destruct (Hread eq_refl) as [_ Hfound].
  intros key found. apply Hfound.
Defined.

End MaximizedTwitterCache_properties.

(** * Further properties of the cache *)

Section MaximizedTwitterCache_readers.
Import MaximizedTwitterCache.

Lemma own_app (key : string) (l l' : list (string * CachedAccountData)) :
  own key (l ++ l')
  = match own key l with Some v => Some v | None => own key l' end.
Proof.
  induction l as [|[k v] rest IH]; cbn [app own]; [reflexivity|].
  destruct (String.eqb k key); [reflexivity | exact IH].
Qed.

Lemma own_replace_same (key : string) (value : CachedAccountData)
      (l : list (string * CachedAccountData)) :
  own key l <> None -> own key (replace key value l) = Some value.
Proof.
  induction l as [|[k v] rest IH]; cbn [replace own]; [congruence|].
  destruct (String.eqb k key) eqn:E; cbn [own]; rewrite E; [reflexivity | exact IH].
Qed.

Lemma own_replace_other (key key' : string) (value : CachedAccountData)
      (l : list (string * CachedAccountData)) :
  key' <> key -> own key' (replace key value l) = own key' l.
Proof.
  intros Hneq. induction l as [|[k v] rest IH]; cbn [replace own]; [reflexivity|].
  destruct (String.eqb k key) eqn:E; cbn [own].
  - apply String.eqb_eq in E. subst k.
    destruct (String.eqb key key') eqn:E'; [|reflexivity].
    apply String.eqb_eq in E'. congruence.
  - rewrite IH. reflexivity.
Qed.

Lemma replace_keys (key : string) (value : CachedAccountData)
      (l : list (string * CachedAccountData)) :
  map fst (replace key value l) = map fst l.
Proof.
  induction l as [|[k v] rest IH]; cbn [replace map fst]; [reflexivity|].
  destruct (String.eqb k key); cbn [map fst]; [reflexivity | rewrite IH; reflexivity].
Qed.

Lemma own_insert_index_same (i : N) (key : string) (value : CachedAccountData)
      (l : list (string * CachedAccountData)) :
  own key l = None -> own key (insert_index i key value l) = Some value.
Proof.
  induction l as [|[k v] rest IH]; cbn [insert_index own].
  - rewrite String.eqb_refl. reflexivity.
  - destruct (String.eqb k key) eqn:E; [discriminate|]. intros Hnone.
    destruct (array_index k) as [j|]; [destruct (j <? i)%N|]; cbn [own];
      rewrite ?E, ?String.eqb_refl; auto.
Qed.

Lemma own_insert_index_other (i : N) (key key' : string) (value : CachedAccountData)
      (l : list (string * CachedAccountData)) :
  key' <> key -> own key' (insert_index i key value l) = own key' l.
Proof.
  intros Hneq.
  assert (E : String.eqb key key' = false).
  { apply String.eqb_neq. congruence. }
  induction l as [|[k v] rest IH]; cbn [insert_index own].
  - rewrite E. reflexivity.
  - destruct (array_index k) as [j|]; [destruct (j <? i)%N|]; cbn [own];
      rewrite ?E, ?IH; reflexivity.
Qed.

Lemma own_add_property_same (key : string) (value : CachedAccountData)
      (l : list (string * CachedAccountData)) :
  own key l = None -> own key (add_property key value l) = Some value.
Proof.
  intros Hnone. unfold add_property. destruct (array_index key) as [i|].
  - apply own_insert_index_same, Hnone.
  - rewrite own_app, Hnone. cbn [own]. rewrite String.eqb_refl. reflexivity.
Qed.

Lemma own_add_property_other (key key' : string) (value : CachedAccountData)
      (l : list (string * CachedAccountData)) :
  key' <> key -> own key' (add_property key value l) = own key' l.
Proof.
  intros Hneq. unfold add_property. destruct (array_index key) as [i|].
  - apply own_insert_index_other, Hneq.
  - rewrite own_app. cbn [own].
    replace (String.eqb key key') with false
      by (symmetry; apply String.eqb_neq; congruence).
    destruct (own key' l); reflexivity.
Qed.

(** After [obj[key] = value] the own property [key], if there is one,
    holds [value]; and there is one unless the key is ["__proto__"]. *)
Lemma own_assign_found (key : string) (value found : CachedAccountData)
      (l : list (string * CachedAccountData)) :
  own key (assign key value l) = Some found -> found = value.
Proof.
  unfold assign. destruct (own key l) as [v|] eqn:Hown.
  - rewrite own_replace_same by congruence. congruence.
  - destruct (String.eqb key "__proto__").
    + rewrite Hown. discriminate.
    + rewrite own_add_property_same by exact Hown. congruence.
Qed.

Lemma own_assign_same (key : string) (value : CachedAccountData)
      (l : list (string * CachedAccountData)) :
  key <> "__proto__" -> own key (assign key value l) = Some value.
Proof.
  intros Hkey. unfold assign. destruct (own key l) as [v|] eqn:Hown.
  - apply own_replace_same. congruence.
  - replace (String.eqb key "__proto__") with false
      by (symmetry; apply String.eqb_neq; exact Hkey).
    apply own_add_property_same, Hown.
Qed.

Lemma own_assign_other (key key' : string) (value : CachedAccountData)
      (l : list (string * CachedAccountData)) :
  key' <> key -> own key' (assign key value l) = own key' l.
Proof.
  intros Hneq. unfold assign. destruct (own key l) as [v|].
  - apply own_replace_other, Hneq.
  - destruct (String.eqb key "__proto__"); [reflexivity|].
    apply own_add_property_other, Hneq.
Qed.

Lemma lookup_assign_same (key : string) (value : CachedAccountData)
      (l : list (string * CachedAccountData)) :
  key <> "__proto__" -> lookup key (assign key value l) = Some (Account value).
Proof.
  intros Hkey. unfold lookup. rewrite (own_assign_same _ _ _ Hkey). reflexivity.
Qed.

Lemma lookup_assign_other (key key' : string) (value : CachedAccountData)
      (l : list (string * CachedAccountData)) :
  key' <> key -> lookup key' (assign key value l) = lookup key' l.
Proof.
  intros Hneq. unfold lookup. rewrite (own_assign_other _ _ _ _ Hneq). reflexivity.
Qed.

(** What a put that did not throw leaves in the storage. *)
Lemma setAccountData_storage :
  forall env now username accountData st st',
    setAccountData env now username accountData st = (st', false) ->
    isBrowser env = true ->
    st' = mkStorage
            (Some (Encoded (to_commit now
               (updated now (fst (getAllData env now st)) username accountData))))
            (Some (now + CACHE_DURATION)).
Proof.
  intros env now username accountData st st' Hput Hbrowser.
  unfold setAccountData in Hput. rewrite Hbrowser in Hput. cbn [negb] in Hput.
  unfold try_setAccountData in Hput.
  destruct (getAllData env now st) as [existing st1]. cbn [fst].
  destruct (stringify_throws env (updated now existing username accountData));
    [discriminate|].
  destruct (stringify_throws env (to_commit now _)); [discriminate|].
  destruct (setItem_cache_throws env _); [discriminate|].
  destruct (setItem_expiry_throws env _); [discriminate|].
  apply pair_equal_spec in Hput as [<- _]. reflexivity.
Qed.

(** Reading a store that holds [d] and has not expired. *)
Lemma getAllData_live :
  forall env later d expiry,
    isBrowser env = true ->
    later <= expiry ->
    getAllData env later (mkStorage (Some (Encoded d)) (Some expiry))
    = (Some d, mkStorage (Some (Encoded d)) (Some expiry)).
Proof.
  intros env later d expiry Hbrowser Hlive.
  unfold getAllData. rewrite Hbrowser. cbn [negb expiry_item cache_item].
  replace (later >? expiry) with false
    by (symmetry; rewrite Z.gtb_ltb; apply Z.ltb_ge; exact Hlive).
  reflexivity.
Qed.

Lemma to_commit_within_budget (now : Z) (d : MaximizedCacheData) :
  dataSize d <= MAX_STORAGE_SIZE -> to_commit now d = d.
Proof.
  intros Hfits. unfold to_commit.
  replace (dataSize d >? MAX_STORAGE_SIZE) with false
    by (symmetry; rewrite Z.gtb_ltb; apply Z.ltb_ge; exact Hfits).
  reflexivity.
Qed.

(** X1.  Round trip: when [setAccountData] went through without the
    cleanup, [getAccountData] returns the very account that was put, for
    any spelling of the name that lower-cases to the same key, at any time
    up to four hours later; the read leaves the storage as it is.  So do
    the readers built on it: [getTweetsByUsername] returns the tweets that
    were put, and [hasRecentAccountData] tells whether the account put
    was collected less than [maxAgeHours] before the read.  This is for
    ASCII names whose key is not ["__proto__"], under which an assignment
    stores nothing. *)
Theorem put_get_round_trip :
  forall (env : Platform) (now : Z) (username : string)
         (accountData : CachedAccountData) (st st' : SessionStorage)
         (later : Z) (reader : string) (maxAgeHours : Z),
    setAccountData env now username accountData st = (st', false) ->
    isBrowser env = true ->
    dataSize (updated now (fst (getAllData env now st)) username accountData)
      <= MAX_STORAGE_SIZE ->
    later <= now + CACHE_DURATION ->
    is_ascii username = true ->
    is_ascii reader = true ->
    toLowerCase reader = toLowerCase username ->
    toLowerCase username <> "__proto__" ->
    getAccountData env later reader st' = (Some (Account accountData), st')
    /\ getTweetsByUsername env later reader st' = (Some (tweets accountData), st')
    /\ hasRecentAccountData env later reader maxAgeHours st'
       = (Some (later - collectionTime accountData <? maxAgeHours * 60 * 60 * 1000),
          st').
Proof.
  intros env now username accountData st st' later reader maxAgeHours
         Hput Hbrowser Hfits Hlive _ _ Hname Hkey.
  assert (Hget : getAccountData env later reader st'
                 = (Some (Account accountData), st')).
  { rewrite (setAccountData_storage _ _ _ _ _ _ Hput Hbrowser).
    rewrite (to_commit_within_budget _ _ Hfits).
    unfold getAccountData. rewrite (getAllData_live _ _ _ _ Hbrowser Hlive).
    rewrite Hname. unfold updated. cbn [accounts].
    rewrite (lookup_assign_same _ _ _ Hkey). reflexivity. }
  unfold getTweetsByUsername, hasRecentAccountData. rewrite Hget.
  split; [reflexivity|]. split; reflexivity.
Qed.

Lemma put_get_round_trip_witness :
  getAccountData platform_ok (now0 + 3600000) "ALICE"
    (mkStorage (Some (Encoded (updated now0 None "Alice" (big_account now0))))
               (Some (now0 + CACHE_DURATION)))
  = (Some (Account (big_account now0)),
     mkStorage (Some (Encoded (updated now0 None "Alice" (big_account now0))))
               (Some (now0 + CACHE_DURATION)))
  /\ getTweetsByUsername platform_ok (now0 + 3600000) "ALICE"
       (mkStorage (Some (Encoded (updated now0 None "Alice" (big_account now0))))
                  (Some (now0 + CACHE_DURATION)))
     = (Some (tweets (big_account now0)),
        mkStorage (Some (Encoded (updated now0 None "Alice" (big_account now0))))
                  (Some (now0 + CACHE_DURATION)))
  /\ hasRecentAccountData platform_ok (now0 + 3600000) "ALICE" 2
       (mkStorage (Some (Encoded (updated now0 None "Alice" (big_account now0))))
                  (Some (now0 + CACHE_DURATION)))
     = (Some (now0 + 3600000 - collectionTime (big_account now0)
              <? 2 * 60 * 60 * 1000),
        mkStorage (Some (Encoded (updated now0 None "Alice" (big_account now0))))
                  (Some (now0 + CACHE_DURATION))).
Proof.
  apply (put_get_round_trip platform_ok now0 "Alice" (big_account now0)
           (mkStorage None None)).
  - reflexivity.
  - reflexivity.
  - vm_compute. discriminate.
  - vm_compute. discriminate.
  - reflexivity.
  - reflexivity.
  - reflexivity.
  - vm_compute. discriminate.
Defined.

(** X2.  A put without cleanup leaves every other account as it was: up
    to four hours later an ASCII name with another key finds an account
    exactly when it found that account just before the put; and unless
    its key is a name every object inherits from [Object.prototype], it
    reads exactly what it read just before the put, not-found
    included. *)
Theorem put_keeps_other_accounts :
  forall (env : Platform) (now : Z) (username : string)
         (accountData : CachedAccountData) (st st' : SessionStorage)
         (later : Z) (other : string),
    setAccountData env now username accountData st = (st', false) ->
    isBrowser env = true ->
    dataSize (updated now (fst (getAllData env now st)) username accountData)
      <= MAX_STORAGE_SIZE ->
    later <= now + CACHE_DURATION ->
    is_ascii username = true ->
    is_ascii other = true ->
    toLowerCase other <> toLowerCase username ->
    (forall found,
        fst (getAccountData env later other st') = Some (Account found)
        <-> fst (getAccountData env now other st) = Some (Account found))
    /\ (inherited (toLowerCase other) = false ->
        fst (getAccountData env later other st')
        = fst (getAccountData env now other st)).
Proof.
  intros env now username accountData st st' later other
         Hput Hbrowser Hfits Hlive _ _ Hname.
  rewrite (setAccountData_storage _ _ _ _ _ _ Hput Hbrowser).
  rewrite (to_commit_within_budget _ _ Hfits).
  unfold getAccountData at 1 3. rewrite (getAllData_live _ _ _ _ Hbrowser Hlive).
  cbn [fst]. unfold updated. cbn [accounts].
  rewrite (lookup_assign_other _ _ _ _ Hname).
  unfold getAccountData.
  destruct (getAllData env now st) as [[d|] st1]; cbn [fst accounts].
  - split; [intros found; apply iff_refl | reflexivity].
  - unfold lookup. cbn [own]. split.
    + intros found. destruct (inherited (toLowerCase other)); split; discriminate.
    + intros ->. reflexivity.
Qed.

Lemma put_keeps_other_accounts_witness :
  fst (getAccountData platform_ok (now0 + 1000 + 3600000) "alice"
         (fst (setAccountData platform_ok (now0 + 1000) "bob"
                 (mkAccount [] 0 0 now0 2000) store_with_alice)))
  = fst (getAccountData platform_ok (now0 + 1000) "alice" store_with_alice)
  /\ fst (getAccountData platform_ok (now0 + 1000) "alice" store_with_alice)
     = Some (Account (big_account now0)).
Proof.
  destruct (put_keeps_other_accounts platform_ok (now0 + 1000) "bob"
              (mkAccount [] 0 0 now0 2000) store_with_alice
              (fst (setAccountData platform_ok (now0 + 1000) "bob"
                      (mkAccount [] 0 0 now0 2000) store_with_alice))
              (now0 + 1000 + 3600000) "alice") as [_ Hsame].
  - vm_compute. reflexivity.
  - reflexivity.
  - vm_compute. discriminate.
  - vm_compute. discriminate.
  - reflexivity.
  - reflexivity.
  - vm_compute. discriminate.
  - split; [apply Hsame; reflexivity | vm_compute; reflexivity].
Defined.

(** Names every object inherits are found where no account is stored:
    on an empty storage ["constructor"] reads [null], and after a put of
    alice it reads what [Object.prototype] has under that name; an
    account put under ["__proto__"] is not stored, and that name reads
    [Object.prototype]. *)
Example inherited_names_are_found :
  fst (getAccountData platform_ok now0 "constructor" (mkStorage None None)) = None
  /\ fst (getAccountData platform_ok (now0 + 1000) "constructor"
            (fst (setAccountData platform_ok now0 "alice" (big_account now0)
                    (mkStorage None None))))
     = Some (Inherited "constructor")
  /\ accounts (updated now0 None "__proto__" (big_account now0)) = []
  /\ fst (getAccountData platform_ok (now0 + 1000) "__proto__"
            (fst (setAccountData platform_ok now0 "__proto__" (big_account now0)
                    (mkStorage None None))))
     = Some (Inherited "__proto__").
Proof. repeat (split; [vm_compute; reflexivity|]). vm_compute. reflexivity. Qed.

(** X3.  Expiry: once the expiry time has passed, or when the expiry item
    is missing, [getAllData] returns nothing and removes both items, and
    from then on every read returns nothing, whatever the time and the
    name. *)
Theorem expired_store_is_cleared :
  forall (env : Platform) (now : Z) (st : SessionStorage),
    isBrowser env = true ->
    match expiry_item st with
    | Some expiry => expiry < now
    | None => True
    end ->
    getAllData env now st = (None, mkStorage None None)
    /\ forall later name,
        getAccountData env later name (snd (getAllData env now st))
        = (None, mkStorage None None).
Proof.
  intros env now st Hbrowser Hexpired.
  assert (Hread : getAllData env now st = (None, mkStorage None None)).
  { unfold getAllData, clear. rewrite Hbrowser. cbn [negb].
    destruct (expiry_item st) as [expiry|]; [|reflexivity].
    replace (now >? expiry) with true
      by (symmetry; apply Z.gtb_lt; exact Hexpired).
    reflexivity. }
  split; [exact Hread|].
  intros later name. rewrite Hread. cbn [snd].
  unfold getAccountData, getAllData, clear. rewrite Hbrowser. reflexivity.
Qed.

Lemma expired_store_is_cleared_witness :
  getAllData platform_ok (now0 + CACHE_DURATION + 1) store_with_alice
  = (None, mkStorage None None)
  /\ getAccountData platform_ok (now0 + CACHE_DURATION + 2) "alice"
       (snd (getAllData platform_ok (now0 + CACHE_DURATION + 1) store_with_alice))
     = (None, mkStorage None None).
Proof.
  destruct (expired_store_is_cleared platform_ok (now0 + CACHE_DURATION + 1)
              store_with_alice) as [Hread Hlater].
  - reflexivity.
  - vm_compute. reflexivity.
  - split; [exact Hread | exact (Hlater (now0 + CACHE_DURATION + 2) "alice")].
Defined.

(** ** The counters and the statistics *)

Lemma flat_map_length {A B : Type} (f : A -> list B) (l : list A) :
  List.length (flat_map f l) = list_sum (map (fun x => List.length (f x)) l).
Proof.
  unfold list_sum.
  induction l as [|x xs IH]; cbn [flat_map map fold_right]; [reflexivity|].
  rewrite length_app, IH. reflexivity.
Qed.

Lemma to_commit_counters (now : Z) (existing : option MaximizedCacheData)
      (username : string) (accountData : CachedAccountData) :
  let d := to_commit now (updated now existing username accountData) in
  totalAccounts (globalMetadata d) = List.length (accounts d)
  /\ totalTweets (globalMetadata d) = count_tweets (accounts d).
Proof.
  cbv zeta. unfold to_commit.
  destruct (dataSize _ >? MAX_STORAGE_SIZE); [|split; reflexivity].
  unfold performIntelligentCleanup.
  cbn [globalMetadata totalAccounts totalTweets accounts].
  split.
  - symmetry. apply (Permutation_length (fromEntries_perm _)).
  - rewrite !count_tweets_sum.
    apply list_sum_perm, Permutation_map, Permutation_sym, fromEntries_perm.
Qed.

(** X4.  The counters follow the entries: after any put that did not
    throw, with or without cleanup, [getCacheStats] read within four hours
    reports a valid cache whose [totalAccounts] is the number of account
    rows, whose [totalTweets] is the sum of the rows' [tweetsCount], and
    that is also the number of tweets [getAllTweets] returns. *)
Theorem cache_stats_consistent :
  forall (env : Platform) (now : Z) (username : string)
         (accountData : CachedAccountData) (st st' : SessionStorage) (later : Z),
    setAccountData env now username accountData st = (st', false) ->
    isBrowser env = true ->
    later <= now + CACHE_DURATION ->
    let stats := fst (getCacheStats env later st') in
    stats_isValid stats = true
    /\ stats_totalAccounts stats = List.length (stats_accounts stats)
    /\ stats_totalTweets stats = list_sum (map tweetsCount (stats_accounts stats))
    /\ stats_totalTweets stats = List.length (fst (getAllTweets env later st')).
Proof.
  intros env now username accountData st st' later Hput Hbrowser Hlive.
  rewrite (setAccountData_storage _ _ _ _ _ _ Hput Hbrowser).
  set (d := to_commit now _).
  destruct (to_commit_counters now (fst (getAllData env now st)) username accountData)
    as [Hta Htt].
  fold d in Hta, Htt.
  unfold getCacheStats, getAllTweets.
  rewrite (getAllData_live _ _ _ _ Hbrowser Hlive).
  cbn [fst stats_isValid stats_totalAccounts stats_totalTweets stats_accounts].
  split; [reflexivity|]. split; [|split].
  - rewrite length_map. exact Hta.
  - rewrite map_map. cbn [tweetsCount]. rewrite Htt. apply count_tweets_sum.
  - rewrite flat_map_length, Htt. apply count_tweets_sum.
Qed.

Lemma cache_stats_consistent_witness :
  let stats := fst (getCacheStats platform_ok (now0 + 2000)
                      (fst (setAccountData platform_ok (now0 + 1000) "bob"
                              (big_account (now0 + 1000)) store_with_alice))) in
  stats_isValid stats = true
  /\ stats_totalAccounts stats = List.length (stats_accounts stats)
  /\ stats_totalTweets stats = list_sum (map tweetsCount (stats_accounts stats))
  /\ stats_totalTweets stats
     = List.length (fst (getAllTweets platform_ok (now0 + 2000)
                           (fst (setAccountData platform_ok (now0 + 1000) "bob"
                                   (big_account (now0 + 1000)) store_with_alice)))).
Proof.
  apply (cache_stats_consistent platform_ok (now0 + 1000) "bob"
           (big_account (now0 + 1000)) store_with_alice).
  - vm_compute. reflexivity.
  - reflexivity.
  - vm_compute. discriminate.
Defined.

(** ** What a put can change *)

Lemma own_None_notin (key : string) (l : list (string * CachedAccountData)) :
  own key l = None -> ~ In key (map fst l).
Proof.
  induction l as [|[k v] rest IH]; cbn [own map fst In]; [tauto|].
  destruct (String.eqb k key) eqn:E; [discriminate|].
  apply String.eqb_neq in E. intros Hnone [Heq | Hin]; [congruence|].
  exact (IH Hnone Hin).
Qed.

Lemma assign_NoDup (key : string) (value : CachedAccountData)
      (l : list (string * CachedAccountData)) :
  NoDup (map fst l) -> NoDup (map fst (assign key value l)).
Proof.
  intros Hnd. unfold assign. destruct (own key l) as [v|] eqn:Hown.
  - rewrite replace_keys. exact Hnd.
  - destruct (String.eqb key "__proto__"); [exact Hnd|].
    apply (Permutation_NoDup
             (Permutation_sym (Permutation_map fst (add_property_perm key value l)))).
    cbn [map fst]. constructor; [apply own_None_notin, Hown | exact Hnd].
Qed.

Lemma own_of_In (key : string) (v : CachedAccountData)
      (l : list (string * CachedAccountData)) :
  NoDup (map fst l) -> In (key, v) l -> own key l = Some v.
Proof.
  induction l as [|[k v'] rest IH]; cbn [map fst own In]; intros Hnd Hin.
  - contradiction.
  - apply NoDup_cons_iff in Hnd as [Hnotin Hrest].
    destruct Hin as [Heq | Hin].
    + injection Heq as -> ->. rewrite String.eqb_refl. reflexivity.
    + destruct (String.eqb k key) eqn:E.
      * apply String.eqb_eq in E. subst k. exfalso. apply Hnotin.
        apply (in_map fst) in Hin. exact Hin.
      * apply IH; assumption.
Qed.

(** When the catch block of [setAccountData] has run, both items are gone. *)
Lemma setAccountData_recovered :
  forall env now username accountData st st',
    setAccountData env now username accountData st = (st', true) ->
    st' = mkStorage None None.
Proof.
  intros env now username accountData st st' Hput.
  unfold setAccountData in Hput.
  destruct (isBrowser env) eqn:Hbrowser; cbn [negb] in Hput; [|discriminate].
  destruct (try_setAccountData env now username accountData st) as [st1 [|]];
    [|discriminate].
  apply pair_equal_spec in Hput as [<- _]. unfold clear. rewrite Hbrowser.
  reflexivity.
Qed.

(** X5.  A put never changes the account another name reads to another
    one, and never leaves an old account under its own key: whatever
    [setAccountData] did (commit, cleanup, or recovery by clearing), a
    later read of an ASCII name that finds an account finds either the
    one just put, under the key just put, or, under another key, the one
    that key read before the put.  Accounts may disappear; none is
    altered.  What a name inherited from [Object.prototype] reads when no
    account is stored under it is no account, and is left out. *)
Theorem put_alters_no_other_account :
  forall (env : Platform) (now : Z) (username : string)
         (accountData : CachedAccountData) (st st' : SessionStorage)
         (threw : bool) (later : Z) (name : string) (found : CachedAccountData),
    setAccountData env now username accountData st = (st', threw) ->
    (forall d, fst (getAllData env now st) = Some d -> NoDup (map fst (accounts d))) ->
    is_ascii username = true ->
    is_ascii name = true ->
    fst (getAccountData env later name st') = Some (Account found) ->
    (toLowerCase name = toLowerCase username /\ found = accountData)
    \/ (toLowerCase name <> toLowerCase username
        /\ fst (getAccountData env now name st) = Some (Account found)).
Proof.
  intros env now username accountData st st' threw later name found
         Hput Hkeys _ _ Hfound.
  destruct (isBrowser env) eqn:Hbrowser.
  2:{ unfold getAccountData, getAllData in Hfound. rewrite Hbrowser in Hfound.
      discriminate Hfound. }
  destruct threw.
  { rewrite (setAccountData_recovered _ _ _ _ _ _ Hput) in Hfound.
    rewrite (getAccountData_cleared _ _ _ Hbrowser) in Hfound. discriminate Hfound. }
  rewrite (setAccountData_storage _ _ _ _ _ _ Hput Hbrowser) in Hfound.
  set (before := updated now (fst (getAllData env now st)) username accountData) in *.
  unfold getAccountData at 1, getAllData in Hfound.
  rewrite Hbrowser in Hfound. cbn [negb expiry_item cache_item] in Hfound.
  destruct (later >? now + CACHE_DURATION); [discriminate Hfound|].
  cbn [fst] in Hfound.
  assert (Hnd : NoDup (map fst (accounts before))).
  { unfold before, updated. cbn [accounts]. apply assign_NoDup.
    destruct (fst (getAllData env now st)) as [d|] eqn:Hd.
    - apply Hkeys. reflexivity.
    - constructor. }
  apply lookup_account, own_In in Hfound.
  apply (to_commit_incl now before) in Hfound.
  apply (own_of_In _ _ _ Hnd) in Hfound.
  unfold before, updated in Hfound. cbn [accounts] in Hfound.
  destruct (string_dec (toLowerCase name) (toLowerCase username)) as [Hsame | Hother].
  - left. split; [exact Hsame|].
    rewrite Hsame in Hfound. exact (own_assign_found _ _ _ _ Hfound).
  - right. split; [exact Hother|].
    rewrite (own_assign_other _ _ _ _ Hother) in Hfound.
    unfold getAccountData.
    destruct (getAllData env now st) as [[d|] st1]; cbn [fst accounts own] in *;
      [apply lookup_account; exact Hfound | discriminate Hfound].
Qed.

Lemma put_alters_no_other_account_witness :
  (toLowerCase "alice" = toLowerCase "bob" /\ big_account now0 = big_account (now0 + 1000))
  \/ (toLowerCase "alice" <> toLowerCase "bob"
      /\ fst (getAccountData platform_ok (now0 + 1000) "alice" store_with_alice)
         = Some (Account (big_account now0))).
Proof.
  apply (put_alters_no_other_account platform_ok (now0 + 1000) "bob"
           (big_account (now0 + 1000)) store_with_alice
           (fst (setAccountData platform_ok (now0 + 1000) "bob"
                   (big_account (now0 + 1000)) store_with_alice))
           false (now0 + 2000) "alice" (big_account now0)).
  - vm_compute. reflexivity.
  - intros d Hd. vm_compute in Hd. injection Hd as <-.
    cbn [accounts map fst]. constructor; [intros [] | constructor].
  - reflexivity.
  - reflexivity.
  - vm_compute. reflexivity.
Defined.

(** ** The cleanup at its edges *)

(** X6.  How many entries the cleanup removes: none from a store of up
    to three accounts, which it only reorders; never the last one of a
    store that has any; at least one from a store of four or more.  What
    it keeps are entries of the store it was given. *)
Theorem cleanup_count_edges :
  forall (now : Z) (cacheData : MaximizedCacheData),
    let cleaned := performIntelligentCleanup now cacheData in
    let n := List.length (accounts cacheData) in
    ((n <= 3)%nat -> Permutation (accounts cleaned) (accounts cacheData))
    /\ ((1 <= n)%nat -> (1 <= List.length (accounts cleaned))%nat)
    /\ ((4 <= n)%nat -> (List.length (accounts cleaned) < n)%nat)
    /\ incl (accounts cleaned) (accounts cacheData).
Proof.
  intros now cacheData cleaned n.
  pose proof (cleanup_length now cacheData) as Hlen.
  fold cleaned in Hlen. fold n in Hlen. rewrite keepCount_ceil in Hlen.
  pose proof (js_sort_perm (by_score now) (accounts cacheData)) as Hperm.
  split; [|split; [|split]].
  - intros Hsmall. unfold cleaned, performIntelligentCleanup. cbn [accounts].
    set (sorted := js_sort (by_score now) (accounts cacheData)) in *.
    assert (Hn : List.length sorted = n) by apply (Permutation_length Hperm).
    assert (Hall : keepCount (List.length sorted) = List.length sorted).
    { rewrite Hn. destruct n as [|[|[|[|n']]]]; try reflexivity. lia. }
    rewrite Hall, firstn_all.
    exact (perm_trans (fromEntries_perm sorted) Hperm).
  - intros Hsome. rewrite Hlen.
    apply Nat.div_le_lower_bound; lia.
  - intros Hmany. rewrite Hlen.
    apply Nat.Div0.div_lt_upper_bound. lia.
  - unfold cleaned, performIntelligentCleanup. cbn [accounts].
    intros kv Hkv.
    apply (Permutation_in kv (fromEntries_perm _)) in Hkv.
    eapply Permutation_in; [exact Hperm|].
    rewrite <- (firstn_skipn
                  (keepCount (List.length (js_sort (by_score now) (accounts cacheData))))
                  (js_sort (by_score now) (accounts cacheData))).
    apply in_or_app. left. exact Hkv.
Qed.

Lemma cleanup_count_edges_witness :
  (1 <= List.length (accounts (performIntelligentCleanup now0 ten_accounts)))%nat
  /\ (List.length (accounts (performIntelligentCleanup now0 ten_accounts))
      < List.length (accounts ten_accounts))%nat.
Proof.
  destruct (cleanup_count_edges now0 ten_accounts) as (_ & Hsome & Hmany & _).
  split; [apply Hsome | apply Hmany]; vm_compute; lia.
Defined.

(** ** The recency score *)




(** ** The lifetime of the cache *)

(** X8.  Every put that did not throw renews the lifetime of the whole
    cache: whatever the expiry was before, [isValid] is then true exactly
    up to four hours after the put, and up to then [getAllData] returns
    the store that was committed and leaves the storage alone. *)
Theorem put_renews_expiry :
  forall (env : Platform) (now : Z) (username : string)
         (accountData : CachedAccountData) (st st' : SessionStorage),
    setAccountData env now username accountData st = (st', false) ->
    isBrowser env = true ->
    expiry_item st' = Some (now + 4 * 60 * 60 * 1000)
    /\ (forall later, isValid env later st' = (later <=? now + 4 * 60 * 60 * 1000))
    /\ (forall later,
           later <= now + 4 * 60 * 60 * 1000 ->
           exists committed,
             cache_item st' = Some (Encoded committed)
             /\ getAllData env later st' = (Some committed, st')).
Proof.
  intros env now username accountData st st' Hput Hbrowser.
  rewrite (setAccountData_storage _ _ _ _ _ _ Hput Hbrowser).
  split; [reflexivity|]. split.
  - intros later. unfold isValid. rewrite Hbrowser. reflexivity.
  - intros later Hlive. eexists. split; [reflexivity|].
    apply getAllData_live; assumption.
Qed.

Lemma put_renews_expiry_witness :
  expiry_item (fst (setAccountData platform_ok (now0 + 1000) "bob"
                      (big_account (now0 + 1000)) store_with_alice))
  = Some (now0 + 1000 + 4 * 60 * 60 * 1000)
  /\ isValid platform_ok (now0 + CACHE_DURATION + 500)
       (fst (setAccountData platform_ok (now0 + 1000) "bob"
               (big_account (now0 + 1000)) store_with_alice))
     = (now0 + CACHE_DURATION + 500 <=? now0 + 1000 + 4 * 60 * 60 * 1000).
Proof.
  destruct (put_renews_expiry platform_ok (now0 + 1000) "bob"
              (big_account (now0 + 1000)) store_with_alice
              (fst (setAccountData platform_ok (now0 + 1000) "bob"
                      (big_account (now0 + 1000)) store_with_alice)))
    as (Hexpiry & Hvalid & _).
  - vm_compute. reflexivity.
  - reflexivity.
  - split; [exact Hexpiry | exact (Hvalid (now0 + CACHE_DURATION + 500))].
Defined.

End MaximizedTwitterCache_readers.

(** * Further properties of the collection service *)

Section TwitterServiceV2_more.
Import TwitterServiceV2.
Local Open Scope js_scope.

(** ** The retry wrapper, whatever the upstream does *)

Lemma retry_from_bounds :
  forall (T : Type) (up : Upstream T) (operationName : string)
         (maxRetries k attempt : nat) (lastError : Thrown) (w : World)
         (r : Outcome T) (w' : World),
    (attempt + k = S maxRetries)%nat ->
    (1 <= k)%nat ->
    retry_from (invoke up) operationName maxRetries k attempt lastError w = (r, w') ->
    (calls w + 1 <= calls w' <= calls w + k)%nat
    /\ (List.length (sleeps w') + 1
        = List.length (sleeps w) + (calls w' - calls w))%nat
    /\ (forall v, r = Val v -> up (calls w' - 1)%nat = Val v).
Proof.
  intros T up name maxRetries k.
  induction k as [|k IH]; intros attempt lastError w r w' Hsum Hk Hrun; [lia|].
  cbn [retry_from] in Hrun.
  replace (attempt <=? maxRetries)%nat with true in Hrun
    by (symmetry; apply Nat.leb_le; lia).
  unfold try_catch at 1 in Hrun. unfold invoke at 1 in Hrun.
  assert (Hstop : forall t,
             (throw t : M T)
               (mkWorld (clock w) (requestCount w) (windowStartTime w)
                        (S (calls w)) (sleeps w) (console_error w)) = (r, w') ->
             (calls w + 1 <= calls w' <= calls w + S k)%nat
             /\ (List.length (sleeps w') + 1
                 = List.length (sleeps w) + (calls w' - calls w))%nat
             /\ (forall v, r = Val v -> up (calls w' - 1)%nat = Val v)).
  { intros t H. unfold throw in H. apply pair_equal_spec in H as [<- <-].
    cbn [calls sleeps]. repeat split; try lia. intros v Hv. discriminate Hv. }
  assert (Hlast : forall t,
             attempt = maxRetries ->
             throw_if_last name maxRetries attempt t
               (retry_from (invoke up) name maxRetries k (S attempt) t)
               (mkWorld (clock w) (requestCount w) (windowStartTime w)
                        (S (calls w)) (sleeps w) (console_error w)) = (r, w') ->
             (calls w + 1 <= calls w' <= calls w + S k)%nat
             /\ (List.length (sleeps w') + 1
                 = List.length (sleeps w) + (calls w' - calls w))%nat
             /\ (forall v, r = Val v -> up (calls w' - 1)%nat = Val v)).
  { intros t -> H. unfold throw_if_last in H. rewrite Nat.eqb_refl in H.
    unfold bind, log_error, throw in H. apply pair_equal_spec in H as [<- <-].
    cbn [calls sleeps]. repeat split; try lia. intros v Hv. discriminate Hv. }
  assert (Hnext : forall ms t,
             (attempt < maxRetries)%nat ->
             (sleep ms ;;; retry_from (invoke up) name maxRetries k (S attempt) t)
               (mkWorld (clock w) (requestCount w) (windowStartTime w)
                        (S (calls w)) (sleeps w) (console_error w)) = (r, w') ->
             (calls w + 1 <= calls w' <= calls w + S k)%nat
             /\ (List.length (sleeps w') + 1
                 = List.length (sleeps w) + (calls w' - calls w))%nat
             /\ (forall v, r = Val v -> up (calls w' - 1)%nat = Val v)).
  { intros ms t Hlt H. unfold bind at 1, sleep at 1 in H.
    apply IH in H; [|lia|lia].
    cbn [calls sleeps] in H. rewrite length_app in H. cbn [List.length] in H.
    destruct H as (Hc & Hs & Hv). repeat split; try lia. exact Hv. }
  destruct (up (calls w)) as [v|[|e]] eqn:Hup.
  - apply pair_equal_spec in Hrun as [<- <-]. cbn [calls sleeps].
    repeat split; try lia.
    intros v' Hv'. injection Hv' as <-.
    replace (S (calls w) - 1)%nat with (calls w) by lia. exact Hup.
  - apply (Hstop _ Hrun).
  - destruct (code_is e 429).
    + destruct (attempt <? maxRetries)%nat eqn:Hlt.
      * apply Nat.ltb_lt in Hlt. apply (Hnext _ _ Hlt Hrun).
      * apply Nat.ltb_ge in Hlt. apply (Hlast _ ltac:(lia) Hrun).
    + destruct (code_is e 401 || code_is e 403); [apply (Hstop _ Hrun)|].
      destruct (code_is e 404); [apply (Hstop _ Hrun)|].
      destruct (attempt <? maxRetries)%nat eqn:Hlt.
      * apply Nat.ltb_lt in Hlt. apply (Hnext _ _ Hlt Hrun).
      * apply Nat.ltb_ge in Hlt. apply (Hlast _ ltac:(lia) Hrun).
Qed.

(** X9.  Whatever the upstream answers, [retryWithIntelligentBackoff]
    with [maxRetries >= 1] invokes the operation at least once and at most
    [maxRetries] times; it sleeps once between two invocations and never
    after the last; and a value it returns is the answer to its last
    invocation. *)
Theorem retry_invocations_bounded :
  forall (T : Type) (up : Upstream T) (operationName : string)
         (maxRetries : nat) (w : World) (r : Outcome T) (w' : World),
    (1 <= maxRetries)%nat ->
    retryWithIntelligentBackoff (invoke up) operationName maxRetries w = (r, w') ->
    (calls w + 1 <= calls w' <= calls w + maxRetries)%nat
    /\ (List.length (sleeps w') + 1
        = List.length (sleeps w) + (calls w' - calls w))%nat
    /\ (forall v, r = Val v -> up (calls w' - 1)%nat = Val v).
Proof.
  intros T up name maxRetries w r w' Hmax Hrun.
  unfold retryWithIntelligentBackoff in Hrun.
  apply (retry_from_bounds T up name maxRetries maxRetries 1 Undefined w r w');
    [lia | exact Hmax | exact Hrun].
Qed.

Lemma retry_invocations_bounded_witness :
  (calls (new_service t0) + 1
   <= calls (snd (retryWithIntelligentBackoff (invoke late_failure)
                    "userTimeline page 1" 3 (new_service t0)))
   <= calls (new_service t0) + 3)%nat.
Proof.
  destruct (retry_invocations_bounded Page late_failure "userTimeline page 1" 3
              (new_service t0)
              (fst (retryWithIntelligentBackoff (invoke late_failure)
                      "userTimeline page 1" 3 (new_service t0)))
              (snd (retryWithIntelligentBackoff (invoke late_failure)
                      "userTimeline page 1" 3 (new_service t0))))
    as [Hcalls _].
  - lia.
  - apply surjective_pairing.
  - exact Hcalls.
Defined.

(** The wrapper's first step on a failure that is not fatal and not the
    last attempt: it sleeps the backoff and goes on. *)
Lemma retry_from_step :
  forall (T : Type) (up : Upstream T) (operationName : string)
         (maxRetries k attempt : nat) (lastError : Thrown) (w : World)
         (e : ApiError),
    (attempt < maxRetries)%nat ->
    up (calls w) = Exn (Error e) ->
    fatal_code e = false ->
    retry_from (invoke up) operationName maxRetries (S k) attempt lastError w
    = retry_from (invoke up) operationName maxRetries k (S attempt) (Error e)
        (mkWorld (clock w + backoff e attempt) (requestCount w) (windowStartTime w)
                 (S (calls w)) (sleeps w ++ [backoff e attempt]) (console_error w)).
Proof.
  intros T up name maxRetries k attempt lastError w e Hlt Hup Hfatal.
  cbn [retry_from].
  replace (attempt <=? maxRetries)%nat with true
    by (symmetry; apply Nat.leb_le; lia).
  unfold try_catch at 1. unfold invoke at 1. rewrite Hup.
  replace (attempt <? maxRetries)%nat with true
    by (symmetry; apply Nat.ltb_lt; exact Hlt).
  unfold fatal_code in Hfatal. apply orb_false_iff in Hfatal as [H4013 H404].
  unfold backoff.
  destruct (code_is e 429); [reflexivity|].
  rewrite H4013, H404. reflexivity.
Qed.

Lemma map_seq_shift {B : Type} (f : nat -> B) (n : nat) :
  map f (seq 0 (S n)) = f 0%nat :: map (fun i => f (S i)) (seq 0 n).
Proof. cbn [seq map]. rewrite <- seq_shift, map_map. reflexivity. Qed.

Lemma retry_from_first_success :
  forall (T : Type) (up : Upstream T) (operationName : string)
         (maxRetries j k attempt : nat) (lastError : Thrown) (w : World) (v : T),
    (attempt + k = S maxRetries)%nat ->
    (j < k)%nat ->
    (forall i, (i < j)%nat ->
               exists e, up (calls w + i)%nat = Exn (Error e) /\ fatal_code e = false) ->
    up (calls w + j)%nat = Val v ->
    exists w',
      retry_from (invoke up) operationName maxRetries k attempt lastError w
        = (Val v, w')
      /\ calls w' = (calls w + S j)%nat
      /\ sleeps w'
         = (sleeps w
            ++ map (fun i => match up (calls w + i)%nat with
                             | Exn (Error e) => backoff e (attempt + i)
                             | _ => 0
                             end) (seq 0 j))%list
      /\ console_error w' = console_error w.
Proof.
  intros T up name maxRetries j.
  induction j as [|j IH]; intros k attempt lastError w v Hsum Hjk Hfail Hok.
  - destruct k as [|k]; [lia|]. cbn [retry_from].
    replace (attempt <=? maxRetries)%nat with true
      by (symmetry; apply Nat.leb_le; lia).
    unfold try_catch, invoke. rewrite Nat.add_0_r in Hok. rewrite Hok.
    eexists. split; [reflexivity|]. cbn [calls sleeps console_error seq map].
    rewrite app_nil_r. repeat split. lia.
  - destruct k as [|k]; [lia|].
    assert (H0 : (0 < S j)%nat) by lia.
    destruct (Hfail 0%nat H0) as [e [He Hfatal]].
    rewrite Nat.add_0_r in He.
    assert (Hlt : (attempt < maxRetries)%nat) by lia.
    rewrite (retry_from_step T up name maxRetries k attempt lastError w e
               Hlt He Hfatal).
    match goal with |- context [retry_from _ _ _ _ _ _ ?x] => set (w1 := x) end.
    assert (Hsum' : (S attempt + k = S maxRetries)%nat) by lia.
    assert (Hjk' : (j < k)%nat) by lia.
    destruct (IH k (S attempt) (Error e) w1 v Hsum' Hjk')
      as [w' [Hrun [Hcalls [Hsleeps Hlog]]]].
    + intros i Hi. subst w1. cbn [calls].
      replace (S (calls w) + i)%nat with (calls w + S i)%nat by lia.
      apply Hfail. lia.
    + subst w1. cbn [calls].
      replace (S (calls w) + j)%nat with (calls w + S j)%nat by lia. exact Hok.
    + exists w'. split; [exact Hrun|]. subst w1.
      cbn [calls sleeps console_error] in *.
      split; [lia|]. split; [|exact Hlog].
      rewrite Hsleeps, <- app_assoc. f_equal.
      rewrite map_seq_shift. cbn [app].
      rewrite !Nat.add_0_r, He. f_equal.
      apply map_ext. intros i.
      replace (S (calls w) + i)%nat with (calls w + S i)%nat by lia.
      replace (S attempt + i)%nat with (attempt + S i)%nat by lia.
      reflexivity.
Qed.

Lemma retry_from_exhausted :
  forall (T : Type) (up : Upstream T) (operationName : string)
         (maxRetries k attempt : nat) (lastError : Thrown) (w : World),
    (attempt + k = S maxRetries)%nat ->
    (1 <= k)%nat ->
    (forall i, (i < k)%nat ->
               exists e, up (calls w + i)%nat = Exn (Error e) /\ fatal_code e = false) ->
    exists w',
      retry_from (invoke up) operationName maxRetries k attempt lastError w
        = (up (calls w + k - 1)%nat, w')
      /\ calls w' = (calls w + k)%nat
      /\ sleeps w'
         = (sleeps w
            ++ map (fun i => match up (calls w + i)%nat with
                             | Exn (Error e) => backoff e (attempt + i)
                             | _ => 0
                             end) (seq 0 (k - 1)))%list
      /\ console_error w'
         = (console_error w
            ++ [("[TwitterAPI] " ++ operationName ++ " failed after "
                 ++ show_nat maxRetries ++ " attempts")%string])%list.
Proof.
  intros T up name maxRetries k.
  induction k as [|k IH]; intros attempt lastError w Hsum Hk Hfail; [lia|].
  assert (H0 : (0 < S k)%nat) by lia.
  destruct (Hfail 0%nat H0) as [e [He Hfatal]].
  rewrite Nat.add_0_r in He.
  destruct k as [|k].
  - (* the last attempt *)
    assert (attempt = maxRetries) by lia. subst attempt.
    cbn [retry_from]. rewrite Nat.leb_refl.
    unfold try_catch at 1. unfold invoke at 1. rewrite He.
    rewrite Nat.ltb_irrefl.
    unfold fatal_code in Hfatal. apply orb_false_iff in Hfatal as [H4013 H404].
    rewrite H4013, H404.
    assert (Hend : forall w1,
               throw_if_last name maxRetries maxRetries (Error e)
                 (retry_from (invoke up) name maxRetries 0 (S maxRetries) (Error e)) w1
               = (Exn (Error e),
                  mkWorld (clock w1) (requestCount w1) (windowStartTime w1)
                          (calls w1) (sleeps w1)
                          (console_error w1
                           ++ [("[TwitterAPI] " ++ name ++ " failed after "
                                ++ show_nat maxRetries ++ " attempts")%string]))).
    { intros w1. unfold throw_if_last. rewrite Nat.eqb_refl. reflexivity. }
    replace (calls w + 1 - 1)%nat with (calls w) by lia. rewrite He.
    destruct (code_is e 429); rewrite Hend;
      (eexists; split; [reflexivity|]);
      cbn [calls sleeps console_error seq map]; rewrite app_nil_r;
      repeat split; lia.
  - assert (Hlt : (attempt < maxRetries)%nat) by lia.
    rewrite (retry_from_step T up name maxRetries (S k) attempt lastError w e
               Hlt He Hfatal).
    match goal with |- context [retry_from _ _ _ _ _ _ ?x] => set (w1 := x) end.
    assert (Hsum' : (S attempt + S k = S maxRetries)%nat) by lia.
    assert (Hk' : (1 <= S k)%nat) by lia.
    destruct (IH (S attempt) (Error e) w1 Hsum' Hk')
      as [w' [Hrun [Hcalls [Hsleeps Hlog]]]].
    + intros i Hi. subst w1. cbn [calls].
      replace (S (calls w) + i)%nat with (calls w + S i)%nat by lia.
      apply Hfail. lia.
    + exists w'. subst w1. cbn [calls sleeps console_error] in *.
      split; [|split; [lia|split; [|exact Hlog]]].
      * rewrite Hrun. f_equal. f_equal. lia.
      * rewrite Hsleeps, <- app_assoc. f_equal.
        replace (S (S k) - 1)%nat with (S (S k - 1)) by lia.
        rewrite map_seq_shift. cbn [app].
        rewrite !Nat.add_0_r, He. f_equal.
        apply map_ext. intros i.
        replace (S (calls w) + i)%nat with (calls w + S i)%nat by lia.
        replace (S attempt + i)%nat with (attempt + S i)%nat by lia.
        reflexivity.
Qed.

(** X10.  The wrapper returns the first success: when the first [j]
    invocations fail with errors that are not fatal (429 or transient) and
    the next one, still within [maxRetries], succeeds, the wrapper returns
    that value after exactly [j + 1] invocations, having slept 3000 ms
    after each 429 and [2000 * attempt] ms after each other failure, and
    without writing an error line. *)
Theorem retry_returns_first_success :
  forall (T : Type) (up : Upstream T) (operationName : string)
         (maxRetries j : nat) (w : World) (v : T),
    (j < maxRetries)%nat ->
    (forall i, (i < j)%nat ->
               exists e, up (calls w + i)%nat = Exn (Error e) /\ fatal_code e = false) ->
    up (calls w + j)%nat = Val v ->
    exists w',
      retryWithIntelligentBackoff (invoke up) operationName maxRetries w
        = (Val v, w')
      /\ calls w' = (calls w + S j)%nat
      /\ sleeps w' = (sleeps w ++ map (delay_after up (calls w)) (seq 0 j))%list
      /\ console_error w' = console_error w.
Proof.
  intros T up name maxRetries j w v Hj Hfail Hok.
  unfold retryWithIntelligentBackoff.
  apply (retry_from_first_success T up name maxRetries j maxRetries 1 Undefined w v);
    [lia | exact Hj | exact Hfail | exact Hok].
Qed.

(** X11.  Exhaustion on non-fatal errors of any kind: when each of the
    [maxRetries >= 1] invocations fails with a 429 or a transient error,
    the operation is invoked exactly [maxRetries] times, the wrapper
    sleeps 3000 ms after a 429 and [2000 * attempt] ms after another
    failure, but not after the last, writes one error line and raises the
    error of the last invocation. *)
Theorem retry_exhausted_on_non_fatal :
  forall (T : Type) (up : Upstream T) (operationName : string)
         (maxRetries : nat) (w : World),
    (1 <= maxRetries)%nat ->
    (forall i, (i < maxRetries)%nat ->
               exists e, up (calls w + i)%nat = Exn (Error e) /\ fatal_code e = false) ->
    exists w',
      retryWithIntelligentBackoff (invoke up) operationName maxRetries w
        = (up (calls w + maxRetries - 1)%nat, w')
      /\ calls w' = (calls w + maxRetries)%nat
      /\ sleeps w'
         = (sleeps w ++ map (delay_after up (calls w)) (seq 0 (maxRetries - 1)))%list
      /\ console_error w'
         = (console_error w
            ++ [("[TwitterAPI] " ++ operationName ++ " failed after "
                 ++ show_nat maxRetries ++ " attempts")%string])%list.
Proof.
  intros T up name maxRetries w Hmax Hfail.
  unfold retryWithIntelligentBackoff.
  apply (retry_from_exhausted T up name maxRetries maxRetries 1 Undefined w);
    [lia | exact Hmax | exact Hfail].
Qed.

Lemma retry_returns_first_success_witness :
  exists w',
    retryWithIntelligentBackoff (invoke flaky) "userTimeline page 1" 3 (new_service t0)
      = (Val full_page, w')
    /\ calls w' = 3%nat
    /\ sleeps w' = [3000; 4000]
    /\ console_error w' = [].
Proof.
  apply (retry_returns_first_success Page flaky "userTimeline page 1" 3 2
           (new_service t0) full_page).
  - lia.
  - intros i Hi. destruct i as [|[|i]]; [| |lia]; eexists; split; reflexivity.
  - reflexivity.
Defined.

Lemma retry_exhausted_on_non_fatal_witness :
  exists w',
    retryWithIntelligentBackoff (invoke flaky) "userTimeline page 1" 2 (new_service t0)
      = (Exn (Error (mkError (Some 500) "Internal Server Error")), w')
    /\ calls w' = 2%nat
    /\ sleeps w' = [3000]
    /\ console_error w' = ["[TwitterAPI] userTimeline page 1 failed after 2 attempts"].
Proof.
  apply (retry_exhausted_on_non_fatal Page flaky "userTimeline page 1" 2
           (new_service t0)).
  - lia.
  - intros i Hi. destruct i as [|[|i]]; [| |lia]; eexists; split; reflexivity.
Defined.

(** ** The throttle and the quota report *)

(** The three ways through [throttleRequest]: the window is reset, the
    request is counted in the current window, or the call sleeps to the
    end of the window. *)
Lemma throttle_step_cases (s : Window) (now late : Z) :
  let start := if windowStart s =? 0 then now else windowStart s in
  let ms := fifteenMinutes - (now - start) + 1000 in
  (fifteenMinutes <= now - start
   /\ throttle_step s now late = (mkWindow 1 now, now, None))
  \/ (now - start < fifteenMinutes
      /\ count s < MAX_REQUESTS_PER_15_MINUTES
      /\ throttle_step s now late = (mkWindow (count s + 1) start, now, None))
  \/ (now - start < fifteenMinutes
      /\ MAX_REQUESTS_PER_15_MINUTES <= count s
      /\ throttle_step s now late
         = (mkWindow 1 (now + ms + late), now + ms + late, Some ms)).
Proof.
  cbv zeta. unfold throttle_step.
  destruct (windowStart s =? 0) eqn:Hinit; cbn [count windowStart].
  - replace (now - now >=? fifteenMinutes) with false
      by (rewrite Z.sub_diag; reflexivity).
    cbn [count windowStart]. right.
    destruct (count s >=? MAX_REQUESTS_PER_15_MINUTES) eqn:Hfull;
      rewrite Z.geb_leb in Hfull.
    + apply Z.leb_le in Hfull. right.
      split; [rewrite Z.sub_diag; unfold fifteenMinutes; lia
             | split; [exact Hfull | reflexivity]].
    + apply Z.leb_gt in Hfull. left.
      split; [rewrite Z.sub_diag; unfold fifteenMinutes; lia
             | split; [exact Hfull | reflexivity]].
  - destruct (now - windowStart s >=? fifteenMinutes) eqn:Hreset;
      rewrite Z.geb_leb in Hreset; cbn [count windowStart].
    + apply Z.leb_le in Hreset. left.
      change (0 >=? MAX_REQUESTS_PER_15_MINUTES) with false.
      split; [exact Hreset | reflexivity].
    + apply Z.leb_gt in Hreset. right.
      destruct (count s >=? MAX_REQUESTS_PER_15_MINUTES) eqn:Hfull;
        rewrite Z.geb_leb in Hfull.
      * apply Z.leb_le in Hfull. right.
        split; [exact Hreset | split; [exact Hfull | reflexivity]].
      * apply Z.leb_gt in Hfull. left.
        split; [exact Hreset | split; [exact Hfull | reflexivity]].
Qed.

(** X12.  How long [throttleRequest] sleeps when it does: only with the
    quota of the window used up, always more than the safety second, and,
    on a clock that has not gone back behind the window start, never more
    than a window length plus that second; on waking, a new window starts
    with this request as its first. *)
Theorem throttle_sleep_duration :
  forall (s : Window) (now late : Z) (s' : Window) (done ms : Z),
    throttle_step s now late = (s', done, Some ms) ->
    MAX_REQUESTS_PER_15_MINUTES <= count s
    /\ 1000 < ms
    /\ (windowStart s <= now -> ms <= fifteenMinutes + 1000)
    /\ done = now + ms + late
    /\ s' = mkWindow 1 done.
Proof.
  intros s now late s' done ms Hstep.
  destruct (throttle_step_cases s now late) as [[_ H] | [[_ [_ H]] | [Hlive [Hfull H]]]];
    rewrite H in Hstep.
  - apply pair_equal_spec in Hstep as [_ Hstep]. discriminate.
  - apply pair_equal_spec in Hstep as [_ Hstep]. discriminate.
  - apply pair_equal_spec in Hstep as [Hstep Hms].
    apply pair_equal_spec in Hstep as [<- <-].
    apply (f_equal (fun o => match o with Some x => x | None => 0 end)) in Hms.
    cbv beta iota in Hms. subst ms.
    split; [exact Hfull|].
    split; [lia|].
    split; [|split; reflexivity].
    intros Hclock. destruct (windowStart s =? 0); lia.
Qed.

Lemma throttle_sleep_duration_witness :
  throttle_step (mkWindow 50 t0) (t0 + 60000) 0
    = (mkWindow 1 (t0 + 901000), t0 + 901000, Some 841000)
  /\ MAX_REQUESTS_PER_15_MINUTES <= count (mkWindow 50 t0)
  /\ 1000 < 841000
  /\ (windowStart (mkWindow 50 t0) <= t0 + 60000 -> 841000 <= fifteenMinutes + 1000)
  /\ t0 + 901000 = t0 + 60000 + 841000 + 0
  /\ mkWindow 1 (t0 + 901000) = mkWindow 1 (t0 + 901000).
Proof.
  split; [reflexivity|].
  apply (throttle_sleep_duration (mkWindow 50 t0) (t0 + 60000) 0).
  reflexivity.
Defined.

(** X13.  After any [throttleRequest] the quota report is in range: with
    a counter that was not negative, [used] lies between 1 and the quota,
    [remaining] is the rest of the quota, and [canMakeMoreRequests] says
    whether anything is left. *)
Theorem quota_status_after_throttle :
  forall (w : World),
    0 <= requestCount w ->
    let q := getQuotaStatus (snd (throttleRequest w)) in
    fst (throttleRequest w) = Val tt
    /\ 1 <= used q <= MAX_REQUESTS_PER_15_MINUTES
    /\ remaining q = total q - used q
    /\ total q = 50
    /\ (canMakeMoreRequests q = true <-> used q < MAX_REQUESTS_PER_15_MINUTES).
Proof.
  intros w Hcount. cbv zeta. unfold throttleRequest.
  pose proof (throttle_step_cases (mkWindow (requestCount w) (windowStartTime w))
                (clock w) 0) as Hcases.
  cbv zeta in Hcases. cbn [count windowStart] in Hcases.
  destruct Hcases as [[_ H] | [[_ [Hlt H]] | [_ [_ H]]]]; rewrite H;
    unfold getQuotaStatus, MAX_REQUESTS_PER_15_MINUTES in *;
    cbn [fst snd count windowStart requestCount used remaining total
         canMakeMoreRequests];
    (split; [reflexivity|]); (split; [lia|]); (split; [lia|]);
    (split; [reflexivity|]); rewrite Z.gtb_ltb, Z.ltb_lt; lia.
Qed.

Lemma quota_status_after_throttle_witness :
  let q := getQuotaStatus (snd (throttleRequest (new_service t0))) in
  fst (throttleRequest (new_service t0)) = Val tt
  /\ 1 <= used q <= MAX_REQUESTS_PER_15_MINUTES
  /\ remaining q = total q - used q
  /\ total q = 50
  /\ (canMakeMoreRequests q = true <-> used q < MAX_REQUESTS_PER_15_MINUTES).
Proof.
  apply (quota_status_after_throttle (new_service t0)).
  cbn [requestCount new_service]. lia.
Defined.

(** X14.  While [getQuotaStatus] reports [canMakeMoreRequests], the next
    [throttleRequest] goes through at once: it does not sleep and the
    clock stays where it is. *)
Theorem quota_available_means_no_sleep :
  forall (w : World),
    canMakeMoreRequests (getQuotaStatus w) = true ->
    sleeps (snd (throttleRequest w)) = sleeps w
    /\ clock (snd (throttleRequest w)) = clock w.
Proof.
  intros w Hcan. unfold getQuotaStatus in Hcan. cbn [canMakeMoreRequests] in Hcan.
  rewrite Z.gtb_ltb in Hcan. apply Z.ltb_lt in Hcan.
  unfold throttleRequest.
  pose proof (throttle_step_cases (mkWindow (requestCount w) (windowStartTime w))
                (clock w) 0) as Hcases.
  cbv zeta in Hcases. cbn [count windowStart] in Hcases.
  destruct Hcases as [[_ H] | [[_ [_ H]] | [_ [Hfull _]]]].
  - rewrite H. split; reflexivity.
  - rewrite H. split; reflexivity.
  - lia.
Qed.

Lemma quota_available_means_no_sleep_witness :
  sleeps (snd (throttleRequest (mkWorld t0 49 t0 0 [] []))) = []
  /\ clock (snd (throttleRequest (mkWorld t0 49 t0 0 [] []))) = t0.
Proof.
  apply (quota_available_means_no_sleep (mkWorld t0 49 t0 0 [] [])).
  reflexivity.
Defined.

(** X15.  With the quota reported as used up and the window still
    running, the next [throttleRequest] sleeps until one second after the
    end of the window and opens a new window there, with itself as the
    first request. *)
Theorem quota_exhausted_sleeps_to_window_end :
  forall (w : World),
    canMakeMoreRequests (getQuotaStatus w) = false ->
    0 < windowStartTime w ->
    clock w - windowStartTime w < fifteenMinutes ->
    let w' := snd (throttleRequest w) in
    sleeps w'
      = (sleeps w ++ [fifteenMinutes - (clock w - windowStartTime w) + 1000])%list
    /\ clock w' = windowStartTime w + fifteenMinutes + 1000
    /\ windowStartTime w' = clock w'
    /\ requestCount w' = 1.
Proof.
  intros w Hcan Hstart Hlive. cbv zeta.
  unfold getQuotaStatus in Hcan. cbn [canMakeMoreRequests] in Hcan.
  rewrite Z.gtb_ltb in Hcan. apply Z.ltb_ge in Hcan.
  unfold throttleRequest.
  pose proof (throttle_step_cases (mkWindow (requestCount w) (windowStartTime w))
                (clock w) 0) as Hcases.
  cbv zeta in Hcases. cbn [count windowStart] in Hcases.
  replace (windowStartTime w =? 0) with false in Hcases
    by (symmetry; apply Z.eqb_neq; lia).
  destruct Hcases as [[Hover _] | [[_ [Hfree _]] | [_ [_ H]]]]; [lia | lia |].
  rewrite H. cbn [snd sleeps clock windowStartTime requestCount count windowStart].
  repeat split. lia.
Qed.

Lemma quota_exhausted_sleeps_to_window_end_witness :
  let w' := snd (throttleRequest (mkWorld (t0 + 60000) 50 t0 0 [] [])) in
  sleeps w' = [841000]
  /\ clock w' = t0 + fifteenMinutes + 1000
  /\ windowStartTime w' = clock w'
  /\ requestCount w' = 1.
Proof.
  apply (quota_exhausted_sleeps_to_window_end (mkWorld (t0 + 60000) 50 t0 0 [] [])).
  - reflexivity.
  - reflexivity.
  - reflexivity.
Defined.

(** X16.  [getQuotaStatus] does not look at the age of the window: once
    fifteen minutes have passed since the window start it still reports
    the old counter, and with it [canMakeMoreRequests = false], although
    the next [throttleRequest] resets the window and goes through without
    sleeping. *)
Theorem quota_status_ignores_window_reset :
  forall (w : World),
    MAX_REQUESTS_PER_15_MINUTES <= requestCount w ->
    0 < windowStartTime w ->
    fifteenMinutes <= clock w - windowStartTime w ->
    canMakeMoreRequests (getQuotaStatus w) = false
    /\ remaining (getQuotaStatus w) <= 0
    /\ sleeps (snd (throttleRequest w)) = sleeps w
    /\ requestCount (snd (throttleRequest w)) = 1
    /\ windowStartTime (snd (throttleRequest w)) = clock w.
Proof.
  intros w Hfull Hstart Hover.
  unfold getQuotaStatus. cbn [canMakeMoreRequests remaining].
  split; [rewrite Z.gtb_ltb; apply Z.ltb_ge; lia|]. split; [lia|].
  unfold throttleRequest.
  pose proof (throttle_step_cases (mkWindow (requestCount w) (windowStartTime w))
                (clock w) 0) as Hcases.
  cbv zeta in Hcases. cbn [count windowStart] in Hcases.
  replace (windowStartTime w =? 0) with false in Hcases
    by (symmetry; apply Z.eqb_neq; lia).
  destruct Hcases as [[_ H] | [[Hlive _] | [Hlive _]]]; [| lia | lia].
  rewrite H. repeat split.
Qed.

Lemma quota_status_ignores_window_reset_witness :
  canMakeMoreRequests (getQuotaStatus (mkWorld (t0 + 900000) 50 t0 0 [] [])) = false
  /\ remaining (getQuotaStatus (mkWorld (t0 + 900000) 50 t0 0 [] [])) <= 0
  /\ sleeps (snd (throttleRequest (mkWorld (t0 + 900000) 50 t0 0 [] []))) = []
  /\ requestCount (snd (throttleRequest (mkWorld (t0 + 900000) 50 t0 0 [] []))) = 1
  /\ windowStartTime (snd (throttleRequest (mkWorld (t0 + 900000) 50 t0 0 [] [])))
     = t0 + 900000.
Proof.
  apply (quota_status_ignores_window_reset (mkWorld (t0 + 900000) 50 t0 0 [] [])).
  - cbn [requestCount]. unfold MAX_REQUESTS_PER_15_MINUTES. lia.
  - reflexivity.
  - cbn [clock windowStartTime]. unfold fifteenMinutes. lia.
Defined.

(** X17.  No call sleeps while the quota lasts: in any sequence of
    [throttleRequest] calls that fits into what is left of the quota, in
    particular in the first 50 calls of a new service, whatever their
    timing, no call sleeps. *)
Theorem calls_within_quota_never_sleep :
  forall (sched : list (Z * Z)) (s : Window),
    0 <= count s ->
    count s + Z.of_nat (List.length sched) <= MAX_REQUESTS_PER_15_MINUTES ->
    Forall (fun entry => snd entry = None) (acquire_log s sched).
Proof.
  induction sched as [|[now late] rest IH]; intros s Hnonneg Hfit.
  - constructor.
  - cbn [acquire_log]. cbn [List.length] in Hfit.
    destruct (throttle_step_cases s now late) as [[_ H] | [[_ [_ H]] | [_ [Hfull _]]]].
    + rewrite H. constructor; [reflexivity|].
      apply IH; cbn [count]; unfold MAX_REQUESTS_PER_15_MINUTES in *; lia.
    + rewrite H. constructor; [reflexivity|].
      apply IH; cbn [count]; unfold MAX_REQUESTS_PER_15_MINUTES in *; lia.
    + unfold MAX_REQUESTS_PER_15_MINUTES in *. lia.
Qed.

Lemma calls_within_quota_never_sleep_witness :
  Forall (fun entry => snd entry = None)
         (acquire_log (mkWindow 0 0) (repeat (t0, 0) 50)).
Proof.
  apply (calls_within_quota_never_sleep (repeat (t0, 0) 50) (mkWindow 0 0)).
  - cbn [count]. lia.
  - rewrite repeat_length. cbn [count]. unfold MAX_REQUESTS_PER_15_MINUTES. lia.
Defined.

(** ** getUserByUsername *)

Lemma lookup_user_invoke (users : Upstream UserResponse) (username : string)
  (w : World) :
  lookup_user users username w = invoke (user_view users username) w.
Proof.
  unfold lookup_user, bind, invoke, user_view.
  destruct (users (calls w)) as [user|t]; [|reflexivity].
  destruct (user_data user); reflexivity.
Qed.

(** The wrapper only runs its operation: two operations that behave
    alike are retried alike. *)
Lemma retry_from_ext :
  forall (T : Type) (op1 op2 : M T) (operationName : string) (maxRetries : nat),
    (forall w, op1 w = op2 w) ->
    forall (k attempt : nat) (lastError : Thrown) (w : World),
      retry_from op1 operationName maxRetries k attempt lastError w
      = retry_from op2 operationName maxRetries k attempt lastError w.
Proof.
  intros T op1 op2 name maxRetries Hext k.
  induction k as [|k IH]; intros attempt lastError w; [reflexivity|].
  cbn [retry_from]. destruct (attempt <=? maxRetries)%nat; [|reflexivity].
  unfold try_catch. rewrite Hext.
  destruct (op2 w) as [[v|[|e]] w1]; [reflexivity | reflexivity |].
  unfold throw_if_last, bind, sleep.
  destruct (code_is e 429).
  - destruct (attempt <? maxRetries)%nat; [apply IH|].
    destruct (attempt =? maxRetries)%nat; [reflexivity | apply IH].
  - destruct (code_is e 401 || code_is e 403); [reflexivity|].
    destruct (code_is e 404); [reflexivity|].
    destruct (attempt <? maxRetries)%nat; [apply IH|].
    destruct (attempt =? maxRetries)%nat; [reflexivity | apply IH].
Qed.

(** The wrapper leaves the throttle's counter and window alone. *)
Lemma retry_from_window :
  forall (T : Type) (up : Upstream T) (operationName : string)
         (maxRetries k attempt : nat) (lastError : Thrown) (w : World)
         (r : Outcome T) (w' : World),
    retry_from (invoke up) operationName maxRetries k attempt lastError w = (r, w') ->
    requestCount w' = requestCount w /\ windowStartTime w' = windowStartTime w.
Proof.
  intros T up name maxRetries k.
  induction k as [|k IH]; intros attempt lastError w r w'.
  - cbn [retry_from]. unfold throw. intros H.
    apply pair_equal_spec in H as [_ <-]. split; reflexivity.
  - cbn [retry_from]. destruct (attempt <=? maxRetries)%nat.
    2:{ unfold throw. intros H. apply pair_equal_spec in H as [_ <-].
        split; reflexivity. }
    unfold try_catch, invoke.
    destruct (up (calls w)) as [v|[|e]].
    + intros H. apply pair_equal_spec in H as [_ <-]. split; reflexivity.
    + unfold throw. intros H. apply pair_equal_spec in H as [_ <-].
      split; reflexivity.
    + assert (Hnext : forall ms,
                 bind (sleep ms)
                   (fun _ => retry_from (invoke up) name maxRetries k (S attempt) (Error e))
                   (mkWorld (clock w) (requestCount w) (windowStartTime w)
                            (S (calls w)) (sleeps w) (console_error w)) = (r, w') ->
                 requestCount w' = requestCount w
                 /\ windowStartTime w' = windowStartTime w).
      { intros ms. unfold bind, sleep. intros H. apply IH in H. exact H. }
      assert (Hlast : throw_if_last name maxRetries attempt (Error e)
                        (retry_from (invoke up) name maxRetries k (S attempt) (Error e))
                        (mkWorld (clock w) (requestCount w) (windowStartTime w)
                                 (S (calls w)) (sleeps w) (console_error w)) = (r, w') ->
                      requestCount w' = requestCount w
                      /\ windowStartTime w' = windowStartTime w).
      { unfold throw_if_last. destruct (attempt =? maxRetries)%nat.
        - unfold bind, log_error, throw. intros H.
          apply pair_equal_spec in H as [_ <-]. split; reflexivity.
        - intros H. apply IH in H. exact H. }
      destruct (code_is e 429).
      * destruct (attempt <? maxRetries)%nat; [apply Hnext | exact Hlast].
      * destruct (code_is e 401 || code_is e 403).
        { unfold throw. intros H. apply pair_equal_spec in H as [_ <-].
          split; reflexivity. }
        destruct (code_is e 404).
        { unfold throw. intros H. apply pair_equal_spec in H as [_ <-].
          split; reflexivity. }
        destruct (attempt <? maxRetries)%nat; [apply Hnext | exact Hlast].
Qed.

(** X18.  A user whose data comes with the first answer is returned after
    one request, without retry, sleep of the wrapper or error line. *)
Theorem user_found_at_first_request :
  forall (users : Upstream UserResponse) (username : string) (w : World) (d : User),
    users (calls w) = Val (mkUserResponse (Some d)) ->
    exists w',
      getUserByUsername users username w = (Val d, w')
      /\ calls w' = S (calls w)
      /\ sleeps w' = sleeps (snd (throttleRequest w))
      /\ console_error w' = console_error w.
Proof.
  intros users username w d Hup.
  destruct (throttleRequest_returns w) as [w1 [Hthr [Hcalls Hlog]]].
  unfold getUserByUsername, bind at 1. rewrite Hthr. cbn [snd].
  unfold retryWithIntelligentBackoff.
  rewrite (retry_from_ext User _ (invoke (user_view users username)) _ 2
             (lookup_user_invoke users username)).
  destruct (retry_from_first_success User (user_view users username)
              ("getUserByUsername(" ++ username ++ ")") 2 0 2 1 Undefined w1 d)
    as [w' [Hrun [Hc [Hs Hl]]]].
  - reflexivity.
  - lia.
  - intros i Hi. lia.
  - unfold user_view. rewrite Nat.add_0_r, Hcalls, Hup. reflexivity.
  - exists w'. split; [exact Hrun|]. cbn [seq map] in Hs. rewrite app_nil_r in Hs.
    repeat split; [lia | exact Hs | congruence].
Qed.

Lemma user_found_at_first_request_witness :
  exists w',
    getUserByUsername found_at_second "alice" (mkWorld t0 1 t0 1 [] []) = (Val alice, w')
    /\ calls w' = 2%nat
    /\ sleeps w' = []
    /\ console_error w' = [].
Proof.
  apply (user_found_at_first_request found_at_second "alice"
           (mkWorld t0 1 t0 1 [] []) alice).
  reflexivity.
Defined.

(** X19.  An answer without data is not treated as a 404: the error made
    of it has no code, so the lookup is tried again after two seconds.
    When the second answer has no data either, the method raises "User
    not found or suspended", after two requests and one error line. *)
Theorem missing_user_is_looked_up_twice :
  forall (users : Upstream UserResponse) (username : string) (w : World),
    users (calls w) = Val (mkUserResponse None) ->
    users (S (calls w)) = Val (mkUserResponse None) ->
    exists w',
      getUserByUsername users username w
        = (Exn (Error (mkError None ("User not found or suspended: " ++ username))), w')
      /\ calls w' = S (S (calls w))
      /\ sleeps w' = (sleeps (snd (throttleRequest w)) ++ [2000])%list
      /\ console_error w'
         = (console_error w
            ++ [("[TwitterAPI] " ++ ("getUserByUsername(" ++ username ++ ")")
                 ++ " failed after 2 attempts")%string])%list.
Proof.
  intros users username w H0 H1.
  destruct (throttleRequest_returns w) as [w1 [Hthr [Hcalls Hlog]]].
  unfold getUserByUsername, bind at 1. rewrite Hthr. cbn [snd].
  unfold retryWithIntelligentBackoff.
  rewrite (retry_from_ext User _ (invoke (user_view users username)) _ 2
             (lookup_user_invoke users username)).
  assert (Hview : forall i, (i < 2)%nat ->
            user_view users username (calls w1 + i)%nat
            = Exn (Error (mkError None ("User not found or suspended: " ++ username)))).
  { intros i Hi. unfold user_view. rewrite Hcalls.
    destruct i as [|[|i]]; [| |lia].
    - rewrite Nat.add_0_r, H0. reflexivity.
    - rewrite Nat.add_1_r, H1. reflexivity. }
  destruct (retry_from_exhausted User (user_view users username)
              ("getUserByUsername(" ++ username ++ ")") 2 2 1 Undefined w1)
    as [w' [Hrun [Hc [Hs Hl]]]].
  - reflexivity.
  - lia.
  - intros i Hi. eexists. split; [apply Hview; exact Hi | reflexivity].
  - exists w'. rewrite Hrun.
    replace (calls w1 + 2 - 1)%nat with (calls w1 + 1)%nat by lia.
    rewrite (Hview 1%nat) by lia.
    split; [reflexivity|].
    cbn [seq map Nat.sub] in Hs. rewrite (Hview 0%nat) in Hs by lia.
    repeat split; [lia | exact Hs | rewrite Hl, Hlog; reflexivity].
Qed.

Lemma missing_user_is_looked_up_twice_witness :
  exists w',
    getUserByUsername never_found "ghost" (new_service t0)
      = (Exn (Error (mkError None "User not found or suspended: ghost")), w')
    /\ calls w' = 2%nat
    /\ sleeps w' = [2000]
    /\ console_error w' = ["[TwitterAPI] getUserByUsername(ghost) failed after 2 attempts"].
Proof.
  apply (missing_user_is_looked_up_twice never_found "ghost" (new_service t0));
    reflexivity.
Defined.

(** X20.  The retries of the lookup are not throttled: whatever the
    answers are, [getUserByUsername] passes the throttle once, so the
    request counter goes up as for a single request, while one or two
    requests are made. *)
Theorem user_lookup_counts_one_request :
  forall (users : Upstream UserResponse) (username : string) (w : World),
    let w' := snd (getUserByUsername users username w) in
    requestCount w' = requestCount (snd (throttleRequest w))
    /\ windowStartTime w' = windowStartTime (snd (throttleRequest w))
    /\ (calls w + 1 <= calls w' <= calls w + 2)%nat.
Proof.
  intros users username w. cbv zeta.
  destruct (throttleRequest_returns w) as [w1 [Hthr [Hcalls _]]].
  destruct (getUserByUsername users username w) as [r w'] eqn:Hrun.
  unfold getUserByUsername, bind in Hrun. rewrite Hthr in Hrun |- *. cbn [snd].
  unfold retryWithIntelligentBackoff in Hrun.
  rewrite (retry_from_ext User _ (invoke (user_view users username)) _ 2
             (lookup_user_invoke users username)) in Hrun.
  destruct (retry_from_window _ _ _ _ _ _ _ _ _ _ Hrun) as [Hcount Hstart].
  assert (Hsum : (1 + 2 = S 2)%nat) by reflexivity.
  assert (Hk : (1 <= 2)%nat) by lia.
  destruct (retry_from_bounds User (user_view users username)
              ("getUserByUsername(" ++ username ++ ")") 2 2 1 Undefined w1 r w'
              Hsum Hk Hrun) as [Hbound _].
  repeat split; [exact Hcount | exact Hstart | lia | lia].
Qed.

(** ** The collection loop, further *)

Lemma rate_limit_not_fatal (e : ApiError) :
  code_is e 429 = true -> fatal_code e = false.
Proof.
  intros H429. destruct (fatal_code e) eqn:Hfatal; [|reflexivity].
  apply fatal_not_429 in Hfatal. congruence.
Qed.

(** A page request that meets two 429s in a row comes out of the retry
    wrapper with the second of them. *)
Lemma fetch_page_rate_limited :
  forall (up : Upstream Page) (l : Locals) (w : World),
    (forall i, (i < 2)%nat ->
               exists e, up (calls w + i)%nat = Exn (Error e) /\ code_is e 429 = true) ->
    exists e w',
      fetch_page up l w = (Exn (Error e), w')
      /\ code_is e 429 = true
      /\ calls w' = (calls w + 2)%nat.
Proof.
  intros up l w Hlimited.
  destruct (throttleRequest_returns w) as [w1 [Hthr [Hcalls _]]].
  unfold fetch_page, bind at 1. rewrite Hthr.
  unfold retryWithIntelligentBackoff.
  assert (Hsum : (1 + 2 = S 2)%nat) by reflexivity.
  assert (Hk : (1 <= 2)%nat) by lia.
  destruct (retry_from_exhausted Page up
              ("userTimeline page " ++ show_nat (pagesProcessed l + 1)) 2 2 1
              Undefined w1 Hsum Hk) as [w' [Hrun [Hc _]]].
  - intros i Hi. rewrite Hcalls. destruct (Hlimited i Hi) as [e [He H429]].
    exists e. split; [exact He | apply rate_limit_not_fatal; exact H429].
  - assert (H1 : (1 < 2)%nat) by lia.
    destruct (Hlimited 1%nat H1) as [e [He H429]].
    exists e, w'. rewrite Hrun.
    replace (calls w1 + 2 - 1)%nat with (calls w + 1)%nat by lia.
    rewrite He. repeat split; [exact H429 | lia].
Qed.

(** With nothing collected, the loop condition true and an upstream that
    answers 429 from now on, no amount of passes ends the loop. *)
Lemma do_while_rate_limited_forever :
  forall (cfg : Config) (up : Upstream Page) (fuel : nat) (l : Locals) (w : World),
    allTweets l = [] ->
    loop_condition cfg l = true ->
    (forall n, (calls w <= n)%nat ->
               exists e, up n = Exn (Error e) /\ code_is e 429 = true) ->
    do_while cfg up fuel l w = None.
Proof.
  intros cfg up fuel. induction fuel as [|fuel IH]; intros l w Hnone Hcond Hlimited.
  - reflexivity.
  - destruct (fetch_page_rate_limited up l w) as [e [w' [Hfetch [H429 Hcalls]]]].
    { intros i _. apply Hlimited. lia. }
    cbn [do_while].
    rewrite (iteration_rate_limited_no_data cfg up l w e w' Hfetch H429 Hnone).
    replace (loop_condition cfg _) with true.
    apply IH.
    + reflexivity.
    + exact Hcond.
    + intros n Hn. cbn [calls] in Hn. apply Hlimited. lia.
Qed.

(** X21.  Nothing bounds the requests of a run that is rate limited
    before it has any tweet: when the first page comes back empty but
    with a continuation token and every later request is answered 429,
    [maximizeUserTweetCollection] goes on requesting and does not end,
    however many passes through the loop it is given. *)
Theorem rate_limit_without_data_never_ends :
  forall (up : Upstream Page) (userId username : string) (w : World) (p : Page),
    up (calls w) = Val p ->
    data p = [] ->
    truthy (next_token p) = true ->
    (forall n, (calls w < n)%nat ->
               exists e, up n = Exn (Error e) /\ code_is e 429 = true) ->
    forall fuel : nat,
      maximizeUserTweetCollection up fuel userId username w = None.
Proof.
  intros up userId username w p Hup Hempty Htoken Hlimited fuel.
  unfold maximizeUserTweetCollection, collect, collect_loop.
  destruct fuel as [|fuel]; [reflexivity|].
  destruct (fetch_page_first_try up initial_locals w p Hup) as [w1 [Hfetch Hcalls]].
  cbn [do_while].
  rewrite (iteration_page source_config up initial_locals w p w1 Hfetch).
  unfold on_response. rewrite Hempty. cbv zeta.
  cbn [source_config maxEmptyPages count_empty initial_locals consecutiveEmptyPages
       Nat.leb].
  unfold loop_condition, advance.
  cbn [nextToken pagesProcessed shouldStop maxPages source_config].
  rewrite Htoken. cbn [andb negb Nat.ltb Nat.leb].
  rewrite do_while_rate_limited_forever; [reflexivity | reflexivity | |].
  - unfold loop_condition.
    cbn [nextToken pagesProcessed shouldStop maxPages source_config].
    rewrite Htoken. reflexivity.
  - intros n Hn. apply Hlimited. lia.
Qed.

Lemma rate_limit_without_data_never_ends_witness :
  maximizeUserTweetCollection empty_then_429 1000 "1" "bob" (new_service t0) = None.
Proof.
  apply (rate_limit_without_data_never_ends empty_then_429 "1" "bob"
           (new_service t0) (mkPage [] [] (Some "token"))).
  - reflexivity.
  - reflexivity.
  - reflexivity.
  - intros n Hn. cbn [calls new_service] in Hn.
    destruct n as [|n]; [lia|]. eexists. split; reflexivity.
Defined.

(** What the retry wrapper raises is its initial [lastError], the
    [TypeError] of its own catch block, or something the upstream raised. *)
Lemma retry_from_raises :
  forall (T : Type) (up : Upstream T) (operationName : string)
         (maxRetries k attempt : nat) (lastError : Thrown) (w : World)
         (t : Thrown) (w' : World),
    retry_from (invoke up) operationName maxRetries k attempt lastError w
      = (Exn t, w') ->
    t = lastError \/ t = type_error "message" \/ exists n, up n = Exn t.
Proof.
  intros T up name maxRetries k.
  induction k as [|k IH]; intros attempt lastError w t w'.
  - cbn [retry_from]. unfold throw. intros H.
    apply pair_equal_spec in H as [H _]. left. congruence.
  - cbn [retry_from]. destruct (attempt <=? maxRetries)%nat.
    2:{ unfold throw. intros H. apply pair_equal_spec in H as [H _].
        left. congruence. }
    unfold try_catch, invoke.
    destruct (up (calls w)) as [v|[|e]] eqn:Hup.
    + intros H. apply pair_equal_spec in H as [H _]. discriminate.
    + unfold throw. intros H. apply pair_equal_spec in H as [H _].
      right. left. congruence.
    + assert (Hsame : forall w1 : World,
                 @throw T (Error e) w1 = (Exn t, w') ->
                 t = lastError \/ t = type_error "message" \/ exists n, up n = Exn t).
      { intros w1. unfold throw. intros H. apply pair_equal_spec in H as [H _].
        right. right. exists (calls w). rewrite Hup. exact H. }
      assert (Hrec : forall w1 : World,
                 retry_from (invoke up) name maxRetries k (S attempt) (Error e) w1
                   = (Exn t, w') ->
                 t = lastError \/ t = type_error "message" \/ exists n, up n = Exn t).
      { intros w1 H. apply IH in H. destruct H as [H | [H | H]].
        - right. right. exists (calls w). rewrite Hup. congruence.
        - right. left. exact H.
        - right. right. exact H. }
      assert (Hnext : forall (ms : Z) (w1 : World),
                 bind (sleep ms)
                   (fun _ => retry_from (invoke up) name maxRetries k (S attempt) (Error e))
                   w1 = (Exn t, w') ->
                 t = lastError \/ t = type_error "message" \/ exists n, up n = Exn t).
      { intros ms w1. unfold bind, sleep. apply Hrec. }
      assert (Hlast : forall w1 : World,
                 throw_if_last name maxRetries attempt (Error e)
                   (retry_from (invoke up) name maxRetries k (S attempt) (Error e)) w1
                   = (Exn t, w') ->
                 t = lastError \/ t = type_error "message" \/ exists n, up n = Exn t).
      { intros w1. unfold throw_if_last. destruct (attempt =? maxRetries)%nat.
        - unfold bind, log_error. apply Hsame.
        - apply Hrec. }
      destruct (code_is e 429).
      * destruct (attempt <? maxRetries)%nat; [apply Hnext | apply Hlast].
      * destruct (code_is e 401 || code_is e 403); [apply Hsame|].
        destruct (code_is e 404); [apply Hsame|].
        destruct (attempt <? maxRetries)%nat; [apply Hnext | apply Hlast].
Qed.

(** Without a 429 from the upstream, none comes out of a page request. *)
Lemma fetch_page_no_rate_limit :
  forall (up : Upstream Page) (l : Locals) (w : World) (e : ApiError) (w' : World),
    (forall n e, up n = Exn (Error e) -> code_is e 429 = false) ->
    fetch_page up l w = (Exn (Error e), w') ->
    code_is e 429 = false.
Proof.
  intros up l w e w' Hno.
  destruct (throttleRequest_returns w) as [w1 [Hthr _]].
  unfold fetch_page, bind at 1. rewrite Hthr.
  unfold retryWithIntelligentBackoff. intros Hrun.
  apply retry_from_raises in Hrun. destruct Hrun as [H | [H | [n H]]].
  - discriminate.
  - unfold type_error in H. injection H as ->. reflexivity.
  - apply (Hno n). exact H.
Qed.

(** How a pass through the body moves [pagesProcessed]: a pass that
    breaks leaves it alone; one that comes to the condition has counted
    its page, unless it was a rate-limited pass. *)
Lemma iteration_pages :
  forall (cfg : Config) (up : Upstream Page) (l : Locals) (w : World)
         (l' : Locals) (c : Completion) (w' : World),
    iteration cfg up l w = (Val (l', c), w') ->
    match c with
    | Break => pagesProcessed l' = pagesProcessed l
    | ToCondition =>
      pagesProcessed l' = S (pagesProcessed l)
      \/ (pagesProcessed l' = pagesProcessed l
          /\ exists e w1, fetch_page up l w = (Exn (Error e), w1)
                          /\ code_is e 429 = true)
    end.
Proof.
  intros cfg up l w l' c w'. unfold iteration, try_catch, bind at 1.
  destruct (fetch_page up l w) as [[p|t] w1].
  - unfold ret, on_response. intros H.
    apply pair_equal_spec in H as [H _]. injection H as H.
    destruct (data p) as [|x xs]; cbv zeta in H.
    + destruct (maxEmptyPages cfg <=? _)%nat;
        apply pair_equal_spec in H as [<- <-]; [reflexivity | left; reflexivity].
    + destruct (targetTweetCount cfg <=? _)%nat;
        apply pair_equal_spec in H as [<- <-]; [reflexivity | left; reflexivity].
  - unfold on_error. destruct t as [|e]; [unfold throw; discriminate|].
    destruct (code_is e 429) eqn:H429.
    + cbn [allTweets push_error].
      destruct (0 <? _)%nat; unfold bind, sleep, ret; intros H;
        apply pair_equal_spec in H as [H _]; injection H as <- <-.
      * reflexivity.
      * right. split; [reflexivity|]. exists e, w1. split; [reflexivity | exact H429].
    + unfold bind, log_error, ret. cbn [allTweets push_error].
      destruct (0 <? _)%nat; intros H;
        apply pair_equal_spec in H as [H _]; injection H as <- <-; reflexivity.
Qed.

Lemma do_while_ends_without_rate_limit :
  forall (cfg : Config) (up : Upstream Page),
    (forall n e, up n = Exn (Error e) -> code_is e 429 = false) ->
    forall (fuel : nat) (l : Locals) (w : World),
      (1 <= fuel)%nat ->
      (maxPages cfg - pagesProcessed l <= fuel)%nat ->
      exists r, do_while cfg up fuel l w = Some r.
Proof.
  intros cfg up Hno fuel. induction fuel as [|fuel IH]; intros l w Hone Hfuel; [lia|].
  cbn [do_while].
  destruct (iteration cfg up l w) as [[[l1 [|]]|t] w1] eqn:Hit.
  - eexists. reflexivity.
  - destruct (loop_condition cfg l1) eqn:Hcond; [|eexists; reflexivity].
    pose proof (iteration_pages cfg up l w l1 ToCondition w1 Hit) as Hpages.
    cbv iota in Hpages.
    destruct Hpages as [Hnext | [_ [e [w2 [Hfetch H429]]]]].
    + unfold loop_condition in Hcond.
      apply andb_true_iff in Hcond as [Hcond _].
      apply andb_true_iff in Hcond as [_ Hlt]. apply Nat.ltb_lt in Hlt.
      apply IH; lia.
    + rewrite (fetch_page_no_rate_limit up l w e w2 Hno Hfetch) in H429.
      discriminate.
  - eexists. reflexivity.
Qed.

(** X22.  Away from the rate limit the collection always ends: against an
    upstream that never answers 429, [maxPages] passes through the loop
    (one, should [maxPages] be 0) are enough for a run to return its
    result. *)
Theorem collection_ends_without_rate_limit :
  forall (cfg : Config) (up : Upstream Page) (fuel : nat)
         (userId username : string) (w : World),
    (forall n e, up n = Exn (Error e) -> code_is e 429 = false) ->
    (Nat.max 1 (maxPages cfg) <= fuel)%nat ->
    exists r w', collect cfg up fuel userId username w = Some (Val r, w').
Proof.
  intros cfg up fuel userId username w Hno Hfuel.
  destruct (do_while_ends_without_rate_limit cfg up Hno fuel initial_locals w)
    as [[e w1] Hloop].
  { lia. }
  { cbn [initial_locals pagesProcessed]. lia. }
  destruct (collect cfg up fuel userId username w) as [[o w']|] eqn:Hrun.
  - destruct (collect_returns _ _ _ _ _ _ _ _ Hrun) as [r ->].
    exists r, w'. reflexivity.
  - unfold collect, collect_loop in Hrun. rewrite Hloop in Hrun.
    destruct e as [l|l t].
    + discriminate.
    + destruct (on_global_error t l w1) as [[l2|t2] w2]; discriminate.
Qed.

Lemma collection_ends_without_rate_limit_witness :
  exists r w',
    collect source_config late_failure 200 "1" "bob" (new_service t0)
      = Some (Val r, w').
Proof.
  apply (collection_ends_without_rate_limit source_config late_failure 200
           "1" "bob" (new_service t0)).
  - intros n e. destruct n as [|n]; [discriminate|].
    unfold late_failure, always_500, answering. intros H.
    injection H as <-. reflexivity.
  - cbn [maxPages source_config]. lia.
Defined.

Lemma do_while_pages_bound :
  forall (cfg : Config) (up : Upstream Page) (fuel : nat) (l : Locals) (w : World)
         (e : LoopEnd) (w' : World),
    (pagesProcessed l <= Nat.max 1 (maxPages cfg))%nat ->
    (pagesProcessed l = 0 \/ pagesProcessed l < maxPages cfg)%nat ->
    do_while cfg up fuel l w = Some (e, w') ->
    (pagesProcessed match e with Finished l' => l' | Escaped l' _ => l' end
     <= Nat.max 1 (maxPages cfg))%nat.
Proof.
  intros cfg up fuel. induction fuel as [|fuel IH]; intros l w e w' Hle Hhead Hrun.
  - discriminate.
  - cbn [do_while] in Hrun.
    destruct (iteration cfg up l w) as [[[l1 [|]]|t] w1] eqn:Hit.
    + pose proof (iteration_pages cfg up l w l1 Break w1 Hit) as Hpages.
      cbv iota in Hpages. injection Hrun as <- _. rewrite Hpages. exact Hle.
    + pose proof (iteration_pages cfg up l w l1 ToCondition w1 Hit) as Hpages.
      cbv iota in Hpages.
      assert (Hle1 : (pagesProcessed l1 <= Nat.max 1 (maxPages cfg))%nat).
      { destruct Hpages as [-> | [-> _]]; lia. }
      destruct (loop_condition cfg l1) eqn:Hcond.
      * apply (IH l1 w1 e w' Hle1); [|exact Hrun].
        unfold loop_condition in Hcond.
        apply andb_true_iff in Hcond as [Hcond _].
        apply andb_true_iff in Hcond as [_ Hlt]. apply Nat.ltb_lt in Hlt.
        right. exact Hlt.
      * injection Hrun as <- _. exact Hle1.
    + injection Hrun as <- _. exact Hle.
Qed.

(** X23.  The page cap: whatever the upstream does, the result of a run
    that ends reports at most [maxPages] processed pages, 200 for the
    method as written (one page when [maxPages] is 0, since the body of a
    do-while runs before its condition). *)
Theorem pages_processed_bound :
  forall (cfg : Config) (up : Upstream Page) (fuel : nat)
         (userId username : string) (w : World) (r : CollectionResult) (w' : World),
    collect cfg up fuel userId username w = Some (Val r, w') ->
    (meta_pagesProcessed (metadata r) <= Nat.max 1 (maxPages cfg))%nat.
Proof.
  intros cfg up fuel userId username w r w'. unfold collect, collect_loop.
  destruct (do_while cfg up fuel initial_locals w) as [[e w1]|] eqn:Hloop;
    [|discriminate].
  assert (Hbound := do_while_pages_bound cfg up fuel initial_locals w e w1).
  cbn [initial_locals pagesProcessed] in Hbound.
  specialize (Hbound ltac:(lia) (or_introl eq_refl) Hloop).
  destruct e as [l|l t].
  - intros H. injection H as <- _.
    destruct (assemble_metadata username (clock w1) l) as [_ [-> _]]. exact Hbound.
  - unfold on_global_error. destruct t as [|e]; [unfold throw; discriminate|].
    unfold bind, log_error, ret. intros H. injection H as <- _.
    match goal with |- context [assemble ?u ?t ?x] =>
      destruct (assemble_metadata u t x) as [_ [-> _]]
    end.
    exact Hbound.
Qed.

Lemma pages_processed_bound_witness :
  exists r w',
    collect source_config late_failure 2 "1" "bob" (new_service t0) = Some (Val r, w')
    /\ (meta_pagesProcessed (metadata r) <= 200)%nat.
Proof.
  destruct (collect source_config late_failure 2 "1" "bob" (new_service t0))
    as [[[r|t] w']|] eqn:Hrun; [| vm_compute in Hrun; discriminate
                                | vm_compute in Hrun; discriminate].
  exists r, w'. split; [reflexivity|].
  exact (pages_processed_bound source_config late_failure 2 "1" "bob"
           (new_service t0) r w' Hrun).
Defined.

Lemma assemble_flags (username : string) (now : Z) (l : Locals) :
  meta_hasMoreData (metadata (assemble username now l)) = hasMoreData l
  /\ collectionStrategy (metadata (assemble username now l))
     = "maximum_unlimited_historical".
Proof. unfold assemble. destruct (js_sort _ _); split; reflexivity. Qed.

Lemma map_tweet_assemble (username : string) (now : Z) (l : Locals) :
  map tweet (tweets (assemble username now l)) = allTweets l.
Proof.
  rewrite assemble_tweets, map_map. cbn [process_tweet tweet]. apply map_id.
Qed.

(** X24.  A 429 that comes out of the retry wrapper once tweets are
    collected ends the run at once, without the five-second sleep: the
    result holds the tweets collected so far, one more rate-limit hit and
    the line for the page that was being requested. *)
Theorem rate_limit_with_data_ends_run :
  forall (up : Upstream Page) (userId username : string) (w0 : World)
         (n : nat) (l : Locals) (w : World) (e : ApiError) (w' : World)
         (fuel : nat),
    loop_head source_config up n initial_locals w0 = Some (l, w) ->
    (0 < List.length (allTweets l))%nat ->
    fetch_page up l w = (Exn (Error e), w') ->
    code_is e 429 = true ->
    exists r,
      maximizeUserTweetCollection up (n + S fuel) userId username w0
        = Some (Val r, w')
      /\ map tweet (tweets r) = allTweets l
      /\ meta_pagesProcessed (metadata r) = pagesProcessed l
      /\ meta_rateLimitHits (metadata r) = S (rateLimitHits l)
      /\ meta_errors (metadata r)
         = (errors l ++ [("Rate limit on page "
                          ++ show_nat (pagesProcessed l + 1))%string])%list.
Proof.
  intros up userId username w0 n l w e w' fuel Hhead Hpos Hfetch H429.
  assert (Hit : iteration source_config up l w
                = (Val (stop (push_error ("Rate limit on page "
                                          ++ show_nat (pagesProcessed l + 1))
                          (mkLocals (allTweets l) (allMediaIncludes l) (errors l)
                                    (nextToken l) (pagesProcessed l)
                                    (S (rateLimitHits l)) (hasMoreData l)
                                    (shouldStop l) (consecutiveEmptyPages l))),
                        Break), w')).
  { unfold iteration, try_catch, bind at 1. rewrite Hfetch.
    unfold on_error. rewrite H429. cbn [allTweets push_error].
    replace (0 <? List.length (allTweets l))%nat with true
      by (symmetry; apply Nat.ltb_lt; exact Hpos).
    reflexivity. }
  unfold maximizeUserTweetCollection.
  rewrite (collect_of_break _ _ _ fuel userId username _ _ _ _ _ Hhead Hit).
  eexists. split; [reflexivity|].
  rewrite map_tweet_assemble.
  match goal with |- context [assemble ?u ?t ?x] =>
    destruct (assemble_metadata u t x) as [_ [-> [-> ->]]]
  end.
  repeat split.
Qed.

Lemma rate_limit_with_data_ends_run_witness :
  exists r,
    maximizeUserTweetCollection late_rate_limit (1 + 1) "1" "bob" (new_service t0)
      = Some (Val r,
              mkWorld (t0 + 3000) 2 t0 3 [3000]
                      ["[TwitterAPI] userTimeline page 2 failed after 2 attempts"])
    /\ map tweet (tweets r) = [tweet_a; tweet_b]
    /\ meta_pagesProcessed (metadata r) = 1%nat
    /\ meta_rateLimitHits (metadata r) = 1%nat
    /\ meta_errors (metadata r) = ["Rate limit on page 2"].
Proof.
  assert (Hpos : (0 < List.length [tweet_a; tweet_b])%nat) by (cbn; lia).
  exact (rate_limit_with_data_ends_run late_rate_limit "1" "bob" (new_service t0) 1
           (mkLocals [tweet_a; tweet_b] [] [] (Some "token-1") 1 0 true false 0)
           (mkWorld t0 1 t0 1 [] [])
           (mkError (Some 429) "Too Many Requests")
           (mkWorld (t0 + 3000) 2 t0 3 [3000]
                    ["[TwitterAPI] userTimeline page 2 failed after 2 attempts"])
           0 eq_refl Hpos eq_refl eq_refl).
Defined.

(** X25.  The empty page that brings [consecutiveEmptyPages] to
    [maxEmptyPages] ends the run before it is counted: the result keeps
    the tweets, the page count and the [hasMoreData] of the page before
    it, whatever continuation token the empty page carries. *)
Theorem empty_pages_end_run :
  forall (cfg : Config) (up : Upstream Page) (userId username : string)
         (w0 : World) (n : nat) (l : Locals) (w : World) (p : Page) (fuel : nat),
    loop_head cfg up n initial_locals w0 = Some (l, w) ->
    up (calls w) = Val p ->
    data p = [] ->
    (maxEmptyPages cfg <= S (consecutiveEmptyPages l))%nat ->
    exists r w',
      collect cfg up (n + S fuel) userId username w0 = Some (Val r, w')
      /\ calls w' = S (calls w)
      /\ map tweet (tweets r) = allTweets l
      /\ meta_pagesProcessed (metadata r) = pagesProcessed l
      /\ meta_hasMoreData (metadata r) = hasMoreData l
      /\ meta_errors (metadata r) = errors l.
Proof.
  intros cfg up userId username w0 n l w p fuel Hhead Hup Hempty Hmax.
  destruct (fetch_page_first_try up l w p Hup) as [w' [Hfetch Hcalls]].
  pose proof (iteration_page cfg up l w p w' Hfetch) as Hit.
  unfold on_response in Hit. rewrite Hempty in Hit. cbv zeta in Hit.
  replace (maxEmptyPages cfg <=? consecutiveEmptyPages (count_empty l))%nat
    with true in Hit by (symmetry; apply Nat.leb_le; exact Hmax).
  rewrite (collect_of_break _ _ _ fuel userId username _ _ _ _ _ Hhead Hit).
  exists (assemble username (clock w') (stop (count_empty l))), w'.
  split; [reflexivity|]. split; [exact Hcalls|].
  rewrite map_tweet_assemble.
  destruct (assemble_metadata username (clock w') (stop (count_empty l)))
    as [_ [-> [_ ->]]].
  destruct (assemble_flags username (clock w') (stop (count_empty l))) as [-> _].
  repeat split.
Qed.

Lemma empty_pages_end_run_witness :
  exists r w',
    collect source_config empty_pages (2 + 1) "1" "bob" (new_service t0)
      = Some (Val r, w')
    /\ calls w' = 3%nat
    /\ map tweet (tweets r) = []
    /\ meta_pagesProcessed (metadata r) = 2%nat
    /\ meta_hasMoreData (metadata r) = true
    /\ meta_errors (metadata r) = [].
Proof.
  assert (Hmax : (maxEmptyPages source_config <= 3)%nat) by (cbn; lia).
  exact (empty_pages_end_run source_config empty_pages "1" "bob" (new_service t0) 2
           (mkLocals [] [] [] (Some "token") 2 0 true false 2)
           (mkWorld t0 2 t0 2 [] [])
           (mkPage [] [] (Some "token")) 0 eq_refl eq_refl eq_refl Hmax).
Defined.

(** The loop over a timeline that is served to its end, from any loop
    head. *)
Lemma do_while_timeline :
  forall (cfg : Config) (up : Upstream Page) (pages : list Page)
         (fuel : nat) (l : Locals) (w : World),
    tokens_chain pages = true ->
    Forall (fun p => data p <> []) pages ->
    (forall i p, nth_error pages i = Some p -> up (calls w + i)%nat = Val p) ->
    (List.length (allTweets l) + List.length (flat_map data pages)
     < targetTweetCount cfg)%nat ->
    (pagesProcessed l + List.length pages <= maxPages cfg)%nat ->
    shouldStop l = false ->
    (List.length pages <= fuel)%nat ->
    exists l' w',
      do_while cfg up fuel l w = Some (Finished l', w')
      /\ allTweets l' = (allTweets l ++ flat_map data pages)%list
      /\ allMediaIncludes l'
         = (allMediaIncludes l ++ flat_map includes_media pages)%list
      /\ errors l' = errors l
      /\ pagesProcessed l' = (pagesProcessed l + List.length pages)%nat
      /\ rateLimitHits l' = rateLimitHits l
      /\ hasMoreData l' = false
      /\ calls w' = (calls w + List.length pages)%nat.
Proof.
  intros cfg up pages.
  induction pages as [|p rest IH];
    intros fuel l w Hchain Hdata Hup Htarget Hpages Hstop Hfuel.
  - discriminate.
  - destruct fuel as [|fuel]; [cbn [List.length] in Hfuel; lia|].
    assert (Hp : up (calls w) = Val p).
    { rewrite <- (Nat.add_0_r (calls w)). apply Hup. reflexivity. }
    destruct (fetch_page_first_try up l w p Hp) as [w1 [Hfetch Hcalls]].
    pose proof (iteration_page cfg up l w p w1 Hfetch) as Hit.
    apply Forall_cons_iff in Hdata as [Hnonempty Hdata].
    cbn [flat_map List.length] in Htarget, Hpages, Hfuel.
    rewrite length_app in Htarget.
    rewrite on_response_below_target in Hit; [|exact Hnonempty|lia].
    cbn [do_while]. rewrite Hit.
    assert (Hmedia : allMediaIncludes (advance p (accumulate p l))
                     = (allMediaIncludes l ++ includes_media p)%list).
    { unfold advance, accumulate. cbn [allMediaIncludes].
      destruct (includes_media p); [rewrite app_nil_r|]; reflexivity. }
    unfold loop_condition.
    cbn [advance accumulate nextToken pagesProcessed shouldStop]. rewrite Hstop.
    cbn [tokens_chain] in Hchain.
    destruct rest as [|p' rest'].
    + (* the last page *)
      apply negb_true_iff in Hchain. rewrite Hchain. cbn [andb].
      eexists. eexists. split; [reflexivity|].
      rewrite Hmedia. cbn [advance accumulate allTweets errors pagesProcessed
                           rateLimitHits hasMoreData flat_map List.length].
      rewrite !app_nil_r, Hchain.
      repeat split; lia.
    + apply andb_true_iff in Hchain as [Htoken Hchain].
      rewrite Htoken.
      replace (S (pagesProcessed l) <? maxPages cfg)%nat with true
        by (symmetry; apply Nat.ltb_lt; cbn [List.length] in Hpages; lia).
      cbn [andb negb].
      destruct (IH fuel (advance p (accumulate p l)) w1 Hchain Hdata)
        as [l' [w' [Hrun [Htweets [Hincl [Herr [Hcount [Hhits [Hmore Hc]]]]]]]]].
      * intros i q Hq. rewrite Hcalls.
        replace (S (calls w) + i)%nat with (calls w + S i)%nat by lia.
        apply Hup. exact Hq.
      * cbn [advance accumulate allTweets]. rewrite length_app. lia.
      * cbn [advance accumulate pagesProcessed]. lia.
      * cbn [advance accumulate shouldStop]. exact Hstop.
      * lia.
      * exists l', w'. split; [exact Hrun|].
        rewrite Htweets, Hincl, Hmedia, Herr, Hcount, Hhits, Hmore, Hc, Hcalls.
        cbn [advance accumulate allTweets errors pagesProcessed rateLimitHits].
        cbn [flat_map List.length].
        rewrite <- !app_assoc.
        repeat split; lia.
Qed.

(** X26.  A timeline that the API serves to its end is collected whole:
    when the requests are answered, in order, by pages that all hold
    tweets, every page but the last with a continuation token, and the
    timeline stays below [maxPages] pages and [targetTweetCount] tweets,
    the result holds exactly the tweets of the pages, in the order
    served, with the media of all pages as pool; it reports one processed
    page per page, no more data, no rate-limit hit and no error, and one
    request was made per page. *)
Theorem served_timeline_is_collected :
  forall (cfg : Config) (up : Upstream Page) (pages : list Page) (fuel : nat)
         (userId username : string) (w : World),
    tokens_chain pages = true ->
    Forall (fun p => data p <> []) pages ->
    (forall i p, nth_error pages i = Some p -> up (calls w + i)%nat = Val p) ->
    (List.length (flat_map data pages) < targetTweetCount cfg)%nat ->
    (List.length pages <= maxPages cfg)%nat ->
    (List.length pages <= fuel)%nat ->
    exists r w',
      collect cfg up fuel userId username w = Some (Val r, w')
      /\ tweets r
         = map (process_tweet username (flat_map includes_media pages) (clock w'))
               (flat_map data pages)
      /\ totalCollected (metadata r) = List.length (flat_map data pages)
      /\ meta_pagesProcessed (metadata r) = List.length pages
      /\ meta_hasMoreData (metadata r) = false
      /\ meta_rateLimitHits (metadata r) = 0%nat
      /\ meta_errors (metadata r) = []
      /\ calls w' = (calls w + List.length pages)%nat.
Proof.
  intros cfg up pages fuel userId username w Hchain Hdata Hup Htarget Hpages Hfuel.
  destruct (do_while_timeline cfg up pages fuel initial_locals w Hchain Hdata Hup)
    as [l' [w' [Hrun [Htweets [Hincl [Herr [Hcount [Hhits [Hmore Hcalls]]]]]]]]];
    [exact Htarget | exact Hpages | reflexivity | exact Hfuel |].
  unfold collect, collect_loop. rewrite Hrun.
  exists (assemble username (clock w') l'), w'.
  split; [reflexivity|].
  rewrite assemble_tweets.
  destruct (assemble_metadata username (clock w') l') as [-> [-> [-> ->]]].
  destruct (assemble_flags username (clock w') l') as [-> _].
  rewrite Htweets, Hincl, Herr, Hcount, Hhits, Hmore.
  repeat split. exact Hcalls.
Qed.

Lemma served_timeline_is_collected_witness :
  exists r w',
    collect source_config (serving short_timeline) 2 "1" "bob" (new_service t0)
      = Some (Val r, w')
    /\ tweets r
       = map (process_tweet "bob" [photo] (clock w')) [tweet_c; tweet_a; tweet_b]
    /\ totalCollected (metadata r) = 3%nat
    /\ meta_pagesProcessed (metadata r) = 2%nat
    /\ meta_hasMoreData (metadata r) = false
    /\ meta_rateLimitHits (metadata r) = 0%nat
    /\ meta_errors (metadata r) = []
    /\ calls w' = 2%nat.
Proof.
  apply (served_timeline_is_collected source_config (serving short_timeline)
           short_timeline 2 "1" "bob" (new_service t0)).
  - reflexivity.
  - repeat constructor; discriminate.
  - intros i p Hp. unfold serving. cbn [calls new_service Nat.add].
    rewrite Hp. reflexivity.
  - cbn. lia.
  - cbn. lia.
  - cbn. lia.
Defined.

(** ** The result *)

Lemma by_date_before (x y : Tweet) :
  precedes (fun a b => inject_Z (created_at a - created_at b)) x y
  <-> created_at x <= created_at y.
Proof.
  unfold precedes. change 0%Q with (inject_Z 0). rewrite <- Zle_Qle. lia.
Qed.

Lemma last_in {A : Type} (l : list A) (d : A) : l <> [] -> In (last l d) l.
Proof.
  induction l as [|a l IH]; [contradiction|]. intros _.
  destruct l as [|b l]; [left; reflexivity|].
  right. apply IH. discriminate.
Qed.

(** In a sorted list nothing comes after the last element. *)
Lemma sorted_last {A : Type} (R : A -> A -> Prop) (l : list A) (d x : A) :
  StronglySorted R l -> In x l -> x = last l d \/ R x (last l d).
Proof.
  induction 1 as [|a l Hsorted IH Hall]; intros Hin; [contradiction|].
  destruct l as [|b l].
  - destruct Hin as [<- | []]. left. reflexivity.
  - change (last (a :: b :: l) d) with (last (b :: l) d).
    destruct Hin as [<- | Hin].
    + right. rewrite Forall_forall in Hall. apply Hall.
      apply last_in. discriminate.
    + apply IH. exact Hin.
Qed.

Lemma ceil_days_spec (x : Z) :
  day_ms * (ceil_days x - 1) < x <= day_ms * ceil_days x.
Proof.
  unfold ceil_days, day_ms.
  change (1000 * 60 * 60 * 24) with 86400000.
  pose proof (Z.div_mod (- x) 86400000 ltac:(lia)) as Hdiv.
  pose proof (Z.mod_pos_bound (- x) 86400000 ltac:(lia)) as Hmod.
  lia.
Qed.

Lemma by_date_sorted (l : list Tweet) :
  StronglySorted (precedes (fun a b => inject_Z (created_at a - created_at b)))
                 (js_sort (fun a b => inject_Z (created_at a - created_at b)) l).
Proof.
  apply js_sort_sorted.
  - intros x y Hxy. apply (proj2 (by_date_before y x)).
    assert (~ created_at x <= created_at y) as Hgt
      by (intros Hle; apply Hxy; exact (proj2 (by_date_before x y) Hle)).
    lia.
  - intros x y z Hxy Hyz.
    apply (proj1 (by_date_before x y)) in Hxy.
    apply (proj1 (by_date_before y z)) in Hyz.
    apply (proj2 (by_date_before x z)). lia.
Qed.

(** X27.  The dates of the result: without tweets both dates are null and
    the span is 0; otherwise [oldestTweetDate] and [newestTweetDate] are
    the earliest and the latest [created_at] among the collected tweets,
    whatever the order in which the pages delivered them, and
    [timeSpanDays] is the time between the two in days, rounded up. *)
Theorem collection_date_range :
  forall (username : string) (now : Z) (l : Locals),
    let m := metadata (assemble username now l) in
    match allTweets l with
    | [] =>
      oldestTweetDate m = None /\ newestTweetDate m = None /\ timeSpanDays m = 0
    | _ :: _ =>
      exists oldest newest,
        oldestTweetDate m = Some oldest
        /\ newestTweetDate m = Some newest
        /\ Forall (fun t => oldest <= created_at t <= newest) (allTweets l)
        /\ Exists (fun t => created_at t = oldest) (allTweets l)
        /\ Exists (fun t => created_at t = newest) (allTweets l)
        /\ day_ms * (timeSpanDays m - 1) < newest - oldest <= day_ms * timeSpanDays m
    end.
Proof.
  intros username now l. cbv zeta.
  pose proof (by_date_sorted (allTweets l)) as Hsorted.
  set (cmp := fun a b : Tweet => inject_Z (created_at a - created_at b)) in Hsorted.
  pose proof (js_sort_perm cmp (allTweets l)) as Hperm.
  unfold assemble. fold cmp.
  destruct (js_sort cmp (allTweets l)) as [|first rest] eqn:Hsort.
  - apply Permutation_nil in Hperm. rewrite Hperm.
    repeat split.
  - destruct (allTweets l) as [|t ts] eqn:Hall.
    { apply Permutation_sym, Permutation_nil in Hperm. discriminate. }
    cbn [metadata oldestTweetDate newestTweetDate timeSpanDays].
    exists (created_at first), (created_at (last (first :: rest) first)).
    split; [reflexivity|]. split; [reflexivity|].
    assert (Hlast : In (last (first :: rest) first) (first :: rest))
      by (apply last_in; discriminate).
    split; [|split; [|split]].
    + apply Forall_forall. intros x Hx.
      apply (Permutation_in x (Permutation_sym Hperm)) in Hx.
      split.
      * destruct Hx as [<- | Hx]; [lia|].
        apply StronglySorted_inv in Hsorted as [_ Hfirst].
        rewrite Forall_forall in Hfirst.
        exact (proj1 (by_date_before first x) (Hfirst x Hx)).
      * destruct (sorted_last (precedes cmp) (first :: rest) first x Hsorted Hx)
          as [<- | Hbefore]; [lia|].
        exact (proj1 (by_date_before _ _) Hbefore).
    + apply Exists_exists. exists first. split; [|reflexivity].
      apply (Permutation_in first Hperm). left. reflexivity.
    + apply Exists_exists. exists (last (first :: rest) first).
      split; [|reflexivity].
      apply (Permutation_in _ Hperm). exact Hlast.
    + apply ceil_days_spec.
Qed.

Lemma resolve_media_no_pool (keys : list string) : resolve_media [] keys = [].
Proof. induction keys as [|k keys IH]; [reflexivity | exact IH]. Qed.

Lemma in_pool_find (pool : list Media) (mediaKey : string) :
  in_pool pool mediaKey
  = match find (fun m => String.eqb (media_key m) mediaKey) pool with
    | Some _ => true
    | None => false
    end.
Proof.
  unfold in_pool. induction pool as [|m pool IH]; [reflexivity|].
  cbn [existsb find]. destruct (String.eqb (media_key m) mediaKey); [reflexivity|].
  exact IH.
Qed.

Lemma resolve_media_keys (pool : list Media) (keys : list string) :
  map md_media_key (resolve_media pool keys) = filter (in_pool pool) keys.
Proof.
  unfold resolve_media.
  induction keys as [|k keys IH]; [reflexivity|].
  cbn [flat_map filter]. rewrite map_app, IH, in_pool_find.
  destruct (find (fun m => String.eqb (media_key m) k) pool) as [m|] eqn:Hfind;
    [|reflexivity].
  apply find_some in Hfind as [_ Hkey]. apply String.eqb_eq in Hkey.
  cbn [map md_media_key app]. rewrite Hkey. reflexivity.
Qed.

Lemma resolve_media_items (pool : list Media) (keys : list string) :
  Forall (fun md =>
            exists m,
              find (fun m => String.eqb (media_key m) (md_media_key md)) pool = Some m
              /\ md_type md = type m
              /\ md_url md = or_else (url m) (preview_image_url m))
         (resolve_media pool keys).
Proof.
  unfold resolve_media.
  induction keys as [|k keys IH]; [constructor|].
  cbn [flat_map]. apply Forall_app. split; [|exact IH].
  destruct (find (fun m => String.eqb (media_key m) k) pool) as [m|] eqn:Hfind;
    [|constructor].
  constructor; [|constructor].
  exists m. cbn [md_media_key md_type md_url].
  pose proof (find_some _ _ Hfind) as [_ Hkey]. apply String.eqb_eq in Hkey.
  rewrite Hkey. repeat split. exact Hfind.
Qed.

Lemma some_kept {A : Type} (f : A -> bool) (l : list A) :
  (0 <? List.length (filter f l))%nat = existsb f l.
Proof.
  induction l as [|a l IH]; [reflexivity|].
  cbn [filter existsb]. destruct (f a); [reflexivity | exact IH].
Qed.

(** X28.  The media of a processed tweet: they are made, in the order of
    the tweet's media keys, of the keys that some item of the pool
    carries, each from the first pool item with that key, its [url]
    falling back on [preview_image_url]; keys that no item carries are
    dropped, and [has_media] tells whether any key was resolved. *)
Theorem media_follow_keys :
  forall (username : string) (pool : list Media) (now : Z) (t : Tweet),
    let processed := process_tweet username pool now t in
    let keys := match media_keys t with Some keys => keys | None => [] end in
    map md_media_key (media processed) = filter (in_pool pool) keys
    /\ has_media processed = existsb (in_pool pool) keys
    /\ Forall (fun md =>
                 exists m,
                   find (fun m => String.eqb (media_key m) (md_media_key md)) pool
                     = Some m
                   /\ md_type md = type m
                   /\ md_url md = or_else (url m) (preview_image_url m))
              (media processed).
Proof.
  intros username pool now t. cbv zeta.
  assert (Hmedia : media (process_tweet username pool now t)
                   = resolve_media pool
                       match media_keys t with Some keys => keys | None => [] end).
  { unfold process_tweet. cbn [media].
    destruct (media_keys t) as [keys|]; [|destruct pool; reflexivity].
    destruct pool; [rewrite resolve_media_no_pool|]; reflexivity. }
  assert (Hhas : has_media (process_tweet username pool now t)
                 = (0 <? List.length (media (process_tweet username pool now t)))%nat)
    by reflexivity.
  rewrite Hhas, Hmedia.
  split; [apply resolve_media_keys|]. split; [|apply resolve_media_items].
  rewrite <- (length_map md_media_key), resolve_media_keys. apply some_kept.
Qed.

(** ** The methods built on the collector *)










End TwitterServiceV2_more.
